(** * Webvisor: a shallow embedding of the capture, delivery and storage code

  The development follows the layout of the repository.

  Definitions:
  - [Js]                 JavaScript strings (sequences of UTF-16 code units)
                         and the few built-ins the code relies on;
  - [Constants]          src/shared/constants.js;
  - [Dom]                the DOM as the recorders see it, with
                         [getSelector] and [serializeNode] of
                         client/recorder/DOMRecorder.js;
  - [Events]             the event records;
  - [DOMRecorder]        the DOMRecorder class;
  - [InputRecorder]      src/client/recorder/InputRecorder.js;
  - [NavigationRecorder] src/client/recorder/NavigationRecorder.js;
  - [Webvisor]           src/client/Webvisor.js;
  - [Wire]               the batch a client posts;
  - [PostgresStore]      server/storage/PostgresStore.js and the route
                         that receives a batch;
  - [Path]               what [join] of node:path does;
  - [SessionStore]       src/server/storage/SessionStore.js;
  - [SelectorSpec], [MaskSpec]   the selector walk and the masking rules
                         in the words of the specification;
  - [Registry], [Page], [Fields], [Visit], [Batches]   invariants and
                         sample inputs.

  Properties: one module of lemmas per component, after the
  definitions.

  Environment readings (Date.now(), window.location.href, document.title,
  the outcome of fetch) are explicit arguments of the functions that read
  them. *)

From Stdlib Require Import ZArith NArith Ascii String DecimalString List Bool Lia.
From stdpp Require Import gmap strings list fin_maps.

Set Warnings "-register-all".
Local Open Scope list_scope.

(* ===================================================================== *)
(** ** JavaScript strings *)
(* ===================================================================== *)

Module Js.

(** A JavaScript string is a finite sequence of UTF-16 code units. *)
Abbreviation jsstring := (list N).

(** String literals of the source, written as Rocq strings. *)
Definition js (s : string) : jsstring :=
  map N_of_ascii (list_ascii_of_string s).

Fixpoint eqb (s t : jsstring) : bool :=
  match s, t with
  | [], [] => true
  | a :: s', b :: t' => N.eqb a b && eqb s' t'
  | _, _ => false
  end.

(** [!s] for a string: only the empty string is falsy. *)
Definition falsy (s : jsstring) : bool :=
  match s with [] => true | _ :: _ => false end.

Definition truthy (s : jsstring) : bool := negb (falsy s).

(** [o || ''] where [o] is a string or undefined/null. *)
Definition or_empty (o : option jsstring) : jsstring :=
  match o with Some s => s | None => [] end.

Definition is_upper (c : N) : bool := (65 <=? c)%N && (c <=? 90)%N.
Definition is_lower (c : N) : bool := (97 <=? c)%N && (c <=? 122)%N.
Definition is_digit (c : N) : bool := (48 <=? c)%N && (c <=? 57)%N.

(** Lower-casing of one code unit, on the ASCII letters.  On the strings
    the recorders lower-case (tag names, input types, autocomplete
    tokens) and for the ASCII needles they are compared with, this is
    what [String.prototype.toLowerCase] and the [i] flag of a
    non-unicode [RegExp] do. *)
Definition lower_unit (c : N) : N := if is_upper c then (c + 32)%N else c.

Definition toLowerCase (s : jsstring) : jsstring := map lower_unit s.

(** [s.startsWith(p)] *)
Fixpoint startsWith (p s : jsstring) : bool :=
  match p, s with
  | [], _ => true
  | a :: p', c :: s' => N.eqb a c && startsWith p' s'
  | _ :: _, [] => false
  end.

(** [s.includes(p)] *)
Fixpoint includes (p s : jsstring) : bool :=
  startsWith p s ||
  match s with
  | [] => false
  | _ :: s' => includes p s'
  end.

(** ['c'.repeat(n)] for a one-unit string. *)
Definition repeat_unit (c : N) (n : nat) : jsstring := replicate n c.

(** [parts.join(sep)] *)
Fixpoint join (sep : jsstring) (parts : list jsstring) : jsstring :=
  match parts with
  | [] => []
  | [p] => p
  | p :: rest => p ++ sep ++ join sep rest
  end.

(** Decimal rendering of a non-negative integer, as [String(n)] gives. *)
Definition of_nat (n : nat) : jsstring :=
  js (NilEmpty.string_of_uint (Nat.to_uint n)).

(** Decimal rendering of an integer. *)
Definition of_Z (z : Z) : jsstring :=
  match z with
  | Z0 => js "0"
  | Zpos p => of_nat (Pos.to_nat p)
  | Zneg p => js "-" ++ of_nat (Pos.to_nat p)
  end.

(** White space as [String.prototype.trim] and the [\s] class see it. *)
Definition is_space (c : N) : bool :=
  ((9 <=? c) && (c <=? 13) || (c =? 32) || (c =? 160) || (c =? 5760)
   || ((8192 <=? c) && (c <=? 8202)) || (c =? 8232) || (c =? 8233)
   || (c =? 8239) || (c =? 8287) || (c =? 12288) || (c =? 65279))%N.

(** Line terminators, which [.] of a RegExp does not match. *)
Definition is_line_terminator (c : N) : bool :=
  ((c =? 10) || (c =? 13) || (c =? 8232) || (c =? 8233))%N.

(** Maximal runs of non-space units, in order. *)
Fixpoint words_go (cur : jsstring) (s : jsstring) : list jsstring :=
  match s with
  | [] => match cur with [] => [] | _ => [rev cur] end
  | c :: s' =>
      if is_space c
      then match cur with
           | [] => words_go [] s'
           | _ => rev cur :: words_go [] s'
           end
      else words_go (c :: cur) s'
  end.

Definition words (s : jsstring) : list jsstring := words_go [] s.

(** [s.trim().split(/\s+/)]: the space-separated tokens of [s]; a string
    with no token gives the one-element array holding the empty
    string. *)
Definition trim_split_spaces (s : jsstring) : list jsstring :=
  match words s with
  | [] => [ [] ]
  | ws => ws
  end.

End Js.

Import Js.

(* ===================================================================== *)
(** ** src/shared/constants.js *)
(* ===================================================================== *)

Module Constants.

Inductive EventType :=
| DOM_SNAPSHOT | DOM_MUTATION
| MOUSE_MOVE | MOUSE_CLICK | SCROLL | INPUT | RESIZE
| PAGE_LOAD | PAGE_TRANSITION
| SESSION_START | SESSION_END.

Definition EventType_code (t : EventType) : Z :=
  match t with
  | DOM_SNAPSHOT => 0 | DOM_MUTATION => 1
  | MOUSE_MOVE => 2 | MOUSE_CLICK => 3 | SCROLL => 4 | INPUT => 5
  | RESIZE => 6
  | PAGE_LOAD => 7 | PAGE_TRANSITION => 8
  | SESSION_START => 9 | SESSION_END => 10
  end.

Inductive MutationType := CHILD_LIST | ATTRIBUTES | CHARACTER_DATA.

Definition MutationType_code (t : MutationType) : Z :=
  match t with CHILD_LIST => 0 | ATTRIBUTES => 1 | CHARACTER_DATA => 2 end.

Definition SENSITIVE_INPUT_TYPES : list jsstring :=
  [ js "password"; js "email"; js "tel"; js "credit-card";
    js "cc-number"; js "cc-exp"; js "cc-csc" ].

(** The two shapes of regular expression that
    [SENSITIVE_NAME_PATTERNS] uses, all with the [i] flag: a literal
    word, and two literal words with [.*] between them.  The words are
    written in lower case. *)
Inductive NamePattern :=
| Word (w : jsstring)
| WordAnyWord (w1 w2 : jsstring).

Definition SENSITIVE_NAME_PATTERNS : list NamePattern :=
  [ Word (js "password"); Word (js "passwd"); Word (js "credit");
    Word (js "card"); Word (js "cvv"); Word (js "cvc"); Word (js "ssn");
    WordAnyWord (js "social") (js "security");
    Word (js "secret"); Word (js "token") ].

(** The word [w] matches at the head of [s], ignoring ASCII case. *)
Fixpoint word_at (w s : jsstring) : bool :=
  match w, s with
  | [], _ => true
  | a :: w', c :: s' => N.eqb a (lower_unit c) && word_at w' s'
  | _ :: _, [] => false
  end.

(** [.*w] matches at the head of [s]: [w] after any run of units that
    are not line terminators. *)
Fixpoint any_then_word (w s : jsstring) : bool :=
  word_at w s ||
  match s with
  | [] => false
  | c :: s' => negb (is_line_terminator c) && any_then_word w s'
  end.

Definition pattern_at (p : NamePattern) (s : jsstring) : bool :=
  match p with
  | Word w => word_at w s
  | WordAnyWord w1 w2 =>
      word_at w1 s && any_then_word w2 (drop (length w1) s)
  end.

(** [pattern.test(s)]: the pattern matches somewhere in [s]. *)
Fixpoint test (p : NamePattern) (s : jsstring) : bool :=
  pattern_at p s ||
  match s with
  | [] => false
  | _ :: s' => test p s'
  end.

Record PrivacyConfig := {
  maskAllInputs : bool;
  maskSensitiveInputs : bool;
  excludeAttribute : jsstring;
}.

Definition DEFAULT_PRIVACY : PrivacyConfig :=
  {| maskAllInputs := false;
     maskSensitiveInputs := true;
     excludeAttribute := js "data-ym-disable" |}.

Definition DEFAULT_batchSize : nat := 50.

End Constants.

Import Constants.

(* ===================================================================== *)
(** ** The DOM as the recorders see it *)
(* ===================================================================== *)

Module Dom.

Inductive NodeType := ELEMENT_NODE | TEXT_NODE | COMMENT_NODE.

Definition NodeType_code (t : NodeType) : Z :=
  match t with ELEMENT_NODE => 1 | TEXT_NODE => 3 | COMMENT_NODE => 8 end.

(** What the recorders read of an element.  [tagName] is in upper case
    for HTML elements; [attributes] is in document order with distinct
    names; [value] and [selectedIndex] are the live properties of form
    controls; [svg] says that the element is an SVG element, whose
    [className] is not a string. *)
Record ElementData := {
  tagName : jsstring;
  attributes : list (jsstring * jsstring);
  value : option jsstring;
  selectedIndex : Z;
  svg : bool;
}.

(** A node carries the identity of its JavaScript object ([oid]): two
    references denote the same node exactly when the identities agree. *)
Inductive Node :=
| Element (oid : nat) (e : ElementData) (childNodes : list Node)
| Text (oid : nat) (data : jsstring)
| Comment (oid : nat) (data : jsstring).

Definition oid (n : Node) : nat :=
  match n with Element o _ _ | Text o _ | Comment o _ => o end.

Definition nodeType (n : Node) : NodeType :=
  match n with
  | Element _ _ _ => ELEMENT_NODE
  | Text _ _ => TEXT_NODE
  | Comment _ _ => COMMENT_NODE
  end.

Definition is_element (n : Node) : bool :=
  match n with Element _ _ _ => true | _ => false end.

Definition nodeName (n : Node) : jsstring :=
  match n with
  | Element _ e _ => tagName e
  | Text _ _ => js "#text"
  | Comment _ _ => js "#comment"
  end.

Definition childNodes (n : Node) : list Node :=
  match n with Element _ _ cs => cs | _ => [] end.

(** [parent.children]: the element children. *)
Definition children (n : Node) : list Node :=
  List.filter is_element (childNodes n).

Definition node_tagName (n : Node) : jsstring :=
  match n with Element _ e _ => tagName e | _ => [] end.

Fixpoint lookup_attr (name : jsstring) (attrs : list (jsstring * jsstring))
  : option jsstring :=
  match attrs with
  | [] => None
  | (k, v) :: rest => if Js.eqb name k then Some v else lookup_attr name rest
  end.

(** [element.getAttribute(name)], null on a node that is not an element. *)
Definition getAttribute (n : Node) (name : jsstring) : option jsstring :=
  match n with
  | Element _ e _ => lookup_attr name (attributes e)
  | _ => None
  end.

Definition hasAttribute (n : Node) (name : jsstring) : bool :=
  match getAttribute n name with Some _ => true | None => false end.

(** [element.id] reflects the [id] content attribute. *)
Definition id (n : Node) : jsstring := or_empty (getAttribute n (js "id")).

(** What [element.className] is: on an SVG element an
    [SVGAnimatedString] object, which is truthy and whose [typeof] is
    ['object']; on any other element the string that reflects the
    [class] content attribute. *)
Inductive ClassName :=
| ClassString (s : jsstring)
| ClassAnimated.

Definition is_svg (n : Node) : bool :=
  match n with Element _ e _ => svg e | _ => false end.

Definition className (n : Node) : ClassName :=
  if is_svg n then ClassAnimated
  else ClassString (or_empty (getAttribute n (js "class"))).

(** [node.textContent] *)
Fixpoint textContent (n : Node) : jsstring :=
  match n with
  | Text _ d => d
  | Comment _ d => d
  | Element _ _ cs =>
      flat_map (fun c => match c with
                         | Comment _ _ => []
                         | _ => textContent c
                         end) cs
  end.

(** A reference to a node together with its [parentElement] chain,
    nearest ancestor first.  A node that is detached, or the document
    element, has no ancestors. *)
Record Located := {
  self : Node;
  ancestors : list Node;
}.

(** The node reached from [n] by the child indices [path]. *)
Fixpoint locate_from (anc : list Node) (n : Node) (path : list nat)
  : option Located :=
  match path with
  | [] => Some {| self := n; ancestors := anc |}
  | i :: path' =>
      match nth_error (childNodes n) i with
      | Some c => locate_from (n :: anc) c path'
      | None => None
      end
  end.

Definition locate (root : Node) (path : list nat) : option Located :=
  locate_from [] root path.

(** [current.parentElement] *)
Definition parentElement (l : Located) : option Located :=
  match ancestors l with
  | [] => None
  | p :: rest => Some {| self := p; ancestors := rest |}
  end.

(** The element and its ancestors, as the [while] loops of the recorders
    visit them. *)
Definition lineage (l : Located) : list Node := self l :: ancestors l.

(** All elements of the subtree of [n], [n] included, in document order. *)
Fixpoint subtree_elements (n : Node) : list Node :=
  match n with
  | Element _ _ cs => n :: flat_map subtree_elements cs
  | _ => []
  end.

(** [el.querySelectorAll('*')]: the element descendants of [el]. *)
Definition descendant_elements (n : Node) : list Node :=
  flat_map subtree_elements (childNodes n).

(** [document.querySelectorAll('[attr]')] on the document whose document
    element is [root]. *)
Definition querySelectorAll_attr (attr : jsstring) (root : Node)
  : list Node :=
  List.filter (fun el => hasAttribute el attr) (subtree_elements root).

(** *** CSS.escape *)

Definition hex_digit (d : N) : N :=
  if (d <? 10)%N then (48 + d)%N else (87 + d)%N.

(** [c.toString(16)] for a code unit below 256. *)
Definition hex_of_unit (c : N) : jsstring :=
  if (c <? 16)%N then [hex_digit c]
  else [hex_digit (c / 16); hex_digit (c mod 16)].

Definition BACKSLASH : N := 92.
Definition HYPHEN : N := 45.
Definition UNDERSCORE : N := 95.

Definition escape_as_code_point (c : N) : jsstring :=
  BACKSLASH :: hex_of_unit c ++ [32%N].

Fixpoint CSS_escape_from (i : nat) (first : option N) (len : nat)
  (s : jsstring) : jsstring :=
  match s with
  | [] => []
  | c :: s' =>
      (if (c =? 0)%N then [65533%N]
       else if ((1 <=? c) && (c <=? 31) || (c =? 127))%N
            then escape_as_code_point c
       else if Nat.eqb i 0 && is_digit c then escape_as_code_point c
       else if Nat.eqb i 1 && is_digit c
               && match first with Some f => (f =? HYPHEN)%N | None => false end
            then escape_as_code_point c
       else if Nat.eqb i 0 && (c =? HYPHEN)%N && Nat.eqb len 1
            then [BACKSLASH; c]
       else if (128 <=? c)%N || (c =? HYPHEN)%N || (c =? UNDERSCORE)%N
               || is_digit c || is_upper c || is_lower c
            then [c]
       else [BACKSLASH; c])
      ++ CSS_escape_from (S i) first len s'
  end.

Definition CSS_escape (s : jsstring) : jsstring :=
  CSS_escape_from 0 (head s) (length s) s.

(** *** getSelector *)

(** [siblings.indexOf(current)], by object identity; -1 when absent. *)
Fixpoint indexOf_from (i : Z) (current : Node) (siblings : list Node) : Z :=
  match siblings with
  | [] => (-1)%Z
  | x :: rest =>
      if Nat.eqb (oid x) (oid current) then i
      else indexOf_from (i + 1)%Z current rest
  end.

Definition indexOf (current : Node) (siblings : list Node) : Z :=
  indexOf_from 0%Z current siblings.

(** The class part of one level of the path. *)
Definition class_selector (current : Node) : jsstring :=
  match className current with
  | ClassString s =>
      if truthy s then
        let classes := take 2 (trim_split_spaces s) in
        match classes with
        | c0 :: _ =>
            if truthy c0
            then js "." ++ Js.join (js ".") (map CSS_escape classes)
            else []
        | [] => []
        end
      else []
  | ClassAnimated => []
  end.

(** The [:nth-of-type] part of one level of the path. *)
Definition nth_selector (current : Node) (parent : option Node) : jsstring :=
  match parent with
  | Some p =>
      let siblings :=
        List.filter (fun child =>
                       Js.eqb (node_tagName child) (node_tagName current))
                    (children p) in
      if (1 <? length siblings)%nat then
        let index := (indexOf current siblings + 1)%Z in
        js ":nth-of-type(" ++ of_Z index ++ js ")"
      else []
  | None => []
  end.

(** One turn of the [while] loop of [getSelector], for a [current] that
    has no id. *)
Definition level_selector (current : Node) (parent : option Node)
  : jsstring :=
  toLowerCase (node_tagName current)
  ++ class_selector current ++ nth_selector current parent.

(** The [while] loop: [chain] is [current] followed by its
    [parentElement] chain, [parts] the array built so far. *)
Fixpoint getSelector_loop (chain : list Node) (parts : list jsstring)
  : list jsstring :=
  match chain with
  | [] => parts
  | current :: rest =>
      if negb (is_element current) then parts
      else if truthy (id current) then
        (js "#" ++ CSS_escape (id current)) :: parts
      else
        let parts' := level_selector current (head rest) :: parts in
        if (5 <? length parts')%nat then parts'
        else getSelector_loop rest parts'
  end.

Definition getSelector (element : Located) : jsstring :=
  if negb (is_element (self element)) then []
  else if truthy (id (self element)) then
    js "#" ++ CSS_escape (id (self element))
  else Js.join (js " > ") (getSelector_loop (lineage element) []).

(** *** serializeNode *)

(** The object [serializeNode] builds; an absent property is [None]. *)
Inductive Serialized :=
| SNode (s_type : NodeType) (s_name : jsstring)
    (s_text : option jsstring)
    (s_attrs : option (list (jsstring * jsstring)))
    (s_children : option (list Serialized))
    (s_value : option jsstring)
    (s_selectedIndex : option Z).

Definition is_form_value_tag (t : jsstring) : bool :=
  Js.eqb t (js "INPUT") || Js.eqb t (js "TEXTAREA").

(** [serializeNode(node, excludedElements)]; [excludedElements] holds the
    identities of the elements of the set. *)
Fixpoint serializeNode (excludedElements : gset nat) (node : Node)
  : option Serialized :=
  match node with
  | Text _ d =>
      Some (SNode (nodeType node) (nodeName node) (Some d)
              None None None None)
  | Comment _ d =>
      Some (SNode (nodeType node) (nodeName node) (Some d)
              None None None None)
  | Element o e cs =>
      if decide (o ∈ excludedElements) then None
      else
        Some (SNode (nodeType node) (nodeName node) None
          (match attributes e with
           | [] => None
           | attrs => Some attrs
           end)
          (match cs with
           | [] => None
           | _ =>
               Some ((fix each (l : list Node) : list Serialized :=
                        match l with
                        | [] => []
                        | child :: l' =>
                            match serializeNode excludedElements child with
                            | Some childSerialized => childSerialized :: each l'
                            | None => each l'
                            end
                        end) cs)
           end)
          (if is_form_value_tag (tagName e)
           then Some (or_empty (value e)) else None)
          (if Js.eqb (tagName e) (js "SELECT")
           then Some (selectedIndex e) else None))
  end.

End Dom.

(* ===================================================================== *)
(** ** Event records *)
(* ===================================================================== *)

Module Events.
Import Dom.

(** What the page offers to the recorders when an event is built. *)
Record Window := {
  location_href : jsstring;
  document_title : jsstring;
  document_referrer : jsstring;
  Date_now : Z;
  innerWidth : Z;
  innerHeight : Z;
  pageXOffset : Z;
  pageYOffset : Z;
  doctype : option (jsstring * jsstring * jsstring);
                                     (* name, publicId, systemId *)
}.

(** One entry of [data.addedNodes]. *)
Record AddedNode := {
  added_id : option nat;
  added_node : option Serialized;
}.

(** The part of a mutation event that depends on [mutation.type]. *)
Inductive MutationPayload :=
| ChildListPayload (addedNodes : list AddedNode)
    (removedNodes : list (option nat))
| AttributesPayload (attributeName : option jsstring)
    (oldValue newValue : option jsstring)
| CharacterDataPayload (oldValue : option jsstring) (newValue : jsstring).

Definition mutationType (p : MutationPayload) : MutationType :=
  match p with
  | ChildListPayload _ _ => CHILD_LIST
  | AttributesPayload _ _ _ => ATTRIBUTES
  | CharacterDataPayload _ _ => CHARACTER_DATA
  end.

(** The [data] property, by kind of event. *)
Inductive EventData :=
| SnapshotData (doctype : option (jsstring * jsstring * jsstring))
    (html : option Serialized) (url title : jsstring)
    (viewport scroll : Z * Z)
| MutationData (targetId : option nat) (targetSelector : jsstring)
    (payload : MutationPayload)
| PageLoadData (url title referrer : jsstring)
| TransitionData (trigger from to title : jsstring)
| HiddenData (url : jsstring)
| SessionStartData (url title referrer : jsstring)
| SessionEndData (url : jsstring) (eventsRecorded : nat)
| UnloadData (url : jsstring).

Record Event := {
  type : EventType;
  timestamp : Z;
  sessionId : option jsstring;
  data : EventData;
}.

(** The object literal a recorder hands to [onEvent]: no [sessionId]
    yet. *)
Definition event (ty : EventType) (ts : Z) (d : EventData) : Event :=
  {| type := ty; timestamp := ts; sessionId := None; data := d |}.

(** [event.sessionId = id] *)
Definition set_sessionId (id : option jsstring) (e : Event) : Event :=
  {| type := type e; timestamp := timestamp e; sessionId := id;
     data := data e |}.

End Events.

(* ===================================================================== *)
(** ** client/recorder/DOMRecorder.js: the DOMRecorder class *)
(* ===================================================================== *)

Module DOMRecorder.
Import Dom Events.

Record t := {
  excludeAttribute : jsstring;
  nodeIdMap : gmap nat nat;     (* the WeakMap, keyed by node identity *)
  nextNodeId : nat;
  observer : bool;              (* whether a MutationObserver is attached *)
}.

(** [new DOMRecorder({ excludeAttribute })] *)
Definition create (excludeAttribute : option jsstring) : t :=
  {| excludeAttribute :=
       match excludeAttribute with
       | Some a => if truthy a then a else js "data-ym-disable"
       | None => js "data-ym-disable"
       end;
     nodeIdMap := ∅;
     nextNodeId := 1;
     observer := false |}.

(** Methods that update the recorder are functions from the recorder to
    a result and the updated recorder. *)
Definition M (A : Type) : Type := t -> A * t.

Definition ret {A} (a : A) : M A := fun this => (a, this).

Definition bind {A B} (m : M A) (k : A -> M B) : M B :=
  fun this => let (a, this') := m this in k a this'.

Notation "'let*' x ':=' m 'in' k" := (bind m (fun x => k))
  (at level 10, x name, m at level 100, k at level 200).

(** [nodes.map(f)] for an [f] that updates the recorder. *)
Fixpoint mapM {A B} (f : A -> M B) (l : list A) : M (list B) :=
  match l with
  | [] => ret []
  | x :: l' => let* y := f x in let* ys := mapM f l' in ret (y :: ys)
  end.

(** [this.nodeIdMap.set(node, this.nextNodeId++)] *)
Definition register (node : nat) (this : t) : t :=
  {| excludeAttribute := excludeAttribute this;
     nodeIdMap := <[node := nextNodeId this]> (nodeIdMap this);
     nextNodeId := S (nextNodeId this);
     observer := observer this |}.

(** [getNodeId(node)]; the result is [None] where [WeakMap.get] gives
    undefined. *)
Definition getNodeId (node : nat) : M (option nat) := fun this =>
  let this' :=
    match nodeIdMap this !! node with
    | None => register node this
    | Some _ => this
    end in
  (nodeIdMap this' !! node, this').

Fixpoint isExcluded_loop (attr : jsstring) (chain : list Node) : bool :=
  match chain with
  | [] => false
  | current :: rest =>
      if negb (is_element current) then false
      else if hasAttribute current attr then true
      else isExcluded_loop attr rest
  end.

(** [isExcluded(element)] *)
Definition isExcluded (this : t) (element : Located) : bool :=
  if negb (is_element (self element)) then false
  else isExcluded_loop (excludeAttribute this) (lineage element).

(** The set [captureSnapshot] builds: every element carrying the
    attribute, and every element below one. *)
Definition excludedElements (attr : jsstring) (root : Node) : gset nat :=
  foldl (fun acc el =>
           foldl (fun acc child => {[ oid child ]} ∪ acc)
                 ({[ oid el ]} ∪ acc)
                 (descendant_elements el))
        ∅ (querySelectorAll_attr attr root).

(** [captureSnapshot()] on the document whose document element is
    [root]; the event is the one handed to [onEvent]. *)
Definition captureSnapshot (this : t) (w : Window) (root : Node) : Event :=
  let excluded := excludedElements (excludeAttribute this) root in
  event DOM_SNAPSHOT (Date_now w)
    (SnapshotData (doctype w) (serializeNode excluded root)
       (location_href w) (document_title w)
       (innerWidth w, innerHeight w) (pageXOffset w, pageYOffset w)).

Definition start (this : t) : t :=
  {| excludeAttribute := excludeAttribute this;
     nodeIdMap := nodeIdMap this;
     nextNodeId := nextNodeId this;
     observer := true |}.

Definition stop (this : t) : t :=
  {| excludeAttribute := excludeAttribute this;
     nodeIdMap := nodeIdMap this;
     nextNodeId := nextNodeId this;
     observer := false |}.

Inductive MutationKind := childList | attributes | characterData.

Record MutationRecord := {
  mtype : MutationKind;
  target : Located;
  addedNodes : list Located;
  removedNodes : list Located;
  attributeName : option jsstring;
  oldValue : option jsstring;
}.

(** The callback of [addedNodes.filter]. *)
Definition keep_added (this : t) (node : Located) : bool :=
  if is_element (self node) then negb (isExcluded this node) else true.

(** The callback of [.map] on the added nodes; [serializeNode(node)] is
    called with its default second argument, the empty set. *)
Definition describe_added (node : Located) : M AddedNode :=
  let* i := getNodeId (oid (self node)) in
  ret {| added_id := i; added_node := serializeNode ∅ (self node) |}.

(** The [switch] on [mutation.type]. *)
Definition payload_of (mutation : MutationRecord) : M MutationPayload :=
  fun this =>
  match mtype mutation with
  | childList =>
      (let* added :=
         mapM describe_added
              (List.filter (keep_added this) (addedNodes mutation)) in
       let* removed :=
         mapM (fun node => getNodeId (oid (self node)))
              (removedNodes mutation) in
       ret (ChildListPayload added removed)) this
  | attributes =>
      ret (AttributesPayload (attributeName mutation) (oldValue mutation)
             (match attributeName mutation with
              | Some a => getAttribute (self (target mutation)) a
              | None => None
              end)) this
  | characterData =>
      ret (CharacterDataPayload (oldValue mutation)
             (textContent (self (target mutation)))) this
  end.

(** One turn of the [for] loop of [processMutations]: [None] for a
    mutation that is skipped. *)
Definition process_one (w : Window) (mutation : MutationRecord)
  : M (option Event) := fun this =>
  if is_element (self (target mutation)) && isExcluded this (target mutation)
  then (None, this)
  else
    (let* targetId := getNodeId (oid (self (target mutation))) in
     let* payload := payload_of mutation in
     ret (Some (event DOM_MUTATION (Date_now w)
                  (MutationData targetId (getSelector (target mutation))
                     payload)))) this.

(** [processMutations(mutations)]: the events handed to [onEvent], in
    order. *)
Fixpoint processMutations (w : Window) (mutations : list MutationRecord)
  : M (list Event) :=
  match mutations with
  | [] => ret []
  | mutation :: rest =>
      let* e := process_one w mutation in
      let* events := processMutations w rest in
      ret (match e with Some ev => ev :: events | None => events end)
  end.

End DOMRecorder.

(* ===================================================================== *)
(** ** src/client/recorder/InputRecorder.js: masking *)
(* ===================================================================== *)

Module InputRecorder.

(** What [shouldMask] reads of a form control. *)
Record Control := {
  isHTMLInputElement : bool;          (* element instanceof HTMLInputElement *)
  type : jsstring;                    (* element.type *)
  autocomplete : option jsstring;     (* element.autocomplete, or undefined *)
  name : option jsstring;             (* element.name *)
  id : option jsstring;               (* element.id *)
  placeholder : option jsstring;      (* element.placeholder *)
  attributeNames : list jsstring;     (* names of the content attributes *)
}.

Definition hasAttribute (e : Control) (a : jsstring) : bool :=
  existsb (Js.eqb a) (attributeNames e).

Record Options := {
  opt_maskAllInputs : bool;
  opt_maskSensitiveInputs : bool;
  opt_excludeAttribute : jsstring;
}.

(** [new InputRecorder(options)]: an absent option is [None]. *)
Definition create (maskAllInputs maskSensitiveInputs : option bool)
  (excludeAttribute : option jsstring) : Options :=
  {| opt_maskAllInputs := default false maskAllInputs;
     opt_maskSensitiveInputs :=
       match maskSensitiveInputs with Some false => false | _ => true end;
     opt_excludeAttribute :=
       match excludeAttribute with
       | Some a => if truthy a then a else js "data-ym-disable"
       | None => js "data-ym-disable"
       end |}.

Fixpoint isExcluded_loop (attr : jsstring) (chain : list Dom.Node) : bool :=
  match chain with
  | [] => false
  | current :: rest =>
      if negb (Dom.is_element current) then false
      else if Dom.hasAttribute current attr then true
      else isExcluded_loop attr rest
  end.

(** [isExcluded(element)]; a null [element] is [None]. *)
Definition isExcluded (this : Options) (element : option Dom.Located)
  : bool :=
  match element with
  | None => false
  | Some el => isExcluded_loop (opt_excludeAttribute this) (Dom.lineage el)
  end.

(** The type and autocomplete checks, made on input elements only. *)
Definition sensitive_input (e : Control) : bool :=
  if isHTMLInputElement e then
    let inputType := toLowerCase (type e) in
    if existsb (Js.eqb inputType) SENSITIVE_INPUT_TYPES then true
    else
      let autocomplete :=
        or_empty (option_map toLowerCase (autocomplete e)) in
      existsb (fun t => includes t autocomplete) SENSITIVE_INPUT_TYPES
  else false.

(** The loop over [SENSITIVE_NAME_PATTERNS]. *)
Definition sensitive_name (e : Control) : bool :=
  let name := or_empty (name e) in
  let id := or_empty (id e) in
  let placeholder := or_empty (placeholder e) in
  existsb (fun pattern =>
             test pattern name || test pattern id
             || test pattern placeholder)
          SENSITIVE_NAME_PATTERNS.

Definition shouldMask (this : Options) (element : Control) : bool :=
  if opt_maskAllInputs this then true
  else if negb (opt_maskSensitiveInputs this) then false
  else if sensitive_input element then true
  else if sensitive_name element then true
  else if hasAttribute element (js "data-ym-mask") then true
  else false.

Definition MASK_CHAR : N := 42.   (* '*' *)

Definition maskValue (value : jsstring) : jsstring :=
  if falsy value then []
  else repeat_unit MASK_CHAR (Nat.min (length value) 20).

End InputRecorder.

(* ===================================================================== *)
(** ** src/client/recorder/NavigationRecorder.js *)
(* ===================================================================== *)

Module NavigationRecorder.
Import Events.

(** A pattern of [excludePages] is given by what its [test] method
    answers. *)
Record t := {
  excludePages : list (jsstring -> bool);
  currentUrl : jsstring;
  isRecording : bool;
}.

Definition create (excludePages : list (jsstring -> bool)) : t :=
  {| excludePages := excludePages; currentUrl := []; isRecording := false |}.

Definition set_currentUrl (url : jsstring) (this : t) : t :=
  {| excludePages := excludePages this;
     currentUrl := url;
     isRecording := isRecording this |}.

Definition set_isRecording (b : bool) (this : t) : t :=
  {| excludePages := excludePages this;
     currentUrl := currentUrl this;
     isRecording := b |}.

Definition isExcludedPage (this : t) (url : jsstring) : bool :=
  existsb (fun pattern => pattern url) (excludePages this).

(** [recordPageLoad()]: the updated recorder and the events handed to
    [onEvent]. *)
Definition recordPageLoad (w : Window) (this : t) : t * list Event :=
  let this := set_currentUrl (location_href w) this in
  if isExcludedPage this (currentUrl this) then (this, [])
  else
    (this,
     [ event PAGE_LOAD (Date_now w)
         (PageLoadData (currentUrl this) (document_title w)
            (document_referrer w)) ]).

(** [recordTransition(trigger)] *)
Definition recordTransition (w : Window) (trigger : jsstring) (this : t)
  : t * list Event :=
  let newUrl := location_href w in
  if Js.eqb newUrl (currentUrl this) then (this, [])
  else if isExcludedPage this newUrl then (this, [])
  else
    let previousUrl := currentUrl this in
    let this := set_currentUrl newUrl this in
    (this,
     [ event PAGE_TRANSITION (Date_now w)
         (TransitionData trigger previousUrl newUrl (document_title w)) ]).

Definition start (this : t) : t :=
  if isRecording this then this else set_isRecording true this.

Definition stop (this : t) : t :=
  if negb (isRecording this) then this else set_isRecording false this.

End NavigationRecorder.

(* ===================================================================== *)
(** ** src/client/Webvisor.js *)
(* ===================================================================== *)

Module Webvisor.
Import Events.

Record Config := {
  batchSize : nat;
  privacy : PrivacyConfig;
  excludePages : list (jsstring -> bool);
}.

(** The recorder object.  [pending] holds the batches whose [fetch] has
    been issued and not yet answered, oldest first. *)
Record t := {
  config : Config;
  sessionId : option jsstring;
  events : list Event;
  isRecording : bool;
  isSampled : bool;
  domRecorder : option DOMRecorder.t;
  interactionRecorder : option bool;     (* its isRecording flag *)
  inputRecorder : option (InputRecorder.Options * bool);
  navigationRecorder : option NavigationRecorder.t;
  batchTimer : bool;                     (* whether the interval is set *)
  sendQueue : list Event;
  pending : list (list Event);
}.

Definition create (config : Config) : t :=
  {| config := config; sessionId := None; events := [];
     isRecording := false; isSampled := false;
     domRecorder := None; interactionRecorder := None;
     inputRecorder := None; navigationRecorder := None;
     batchTimer := false; sendQueue := []; pending := [] |}.

Definition with_queue (events' sendQueue' : list Event)
  (pending' : list (list Event)) (this : t) : t :=
  {| config := config this; sessionId := sessionId this;
     events := events'; isRecording := isRecording this;
     isSampled := isSampled this; domRecorder := domRecorder this;
     interactionRecorder := interactionRecorder this;
     inputRecorder := inputRecorder this;
     navigationRecorder := navigationRecorder this;
     batchTimer := batchTimer this;
     sendQueue := sendQueue'; pending := pending' |}.

Definition set_isRecording (b : bool) (this : t) : t :=
  {| config := config this; sessionId := sessionId this;
     events := events this; isRecording := b;
     isSampled := isSampled this; domRecorder := domRecorder this;
     interactionRecorder := interactionRecorder this;
     inputRecorder := inputRecorder this;
     navigationRecorder := navigationRecorder this;
     batchTimer := batchTimer this;
     sendQueue := sendQueue this; pending := pending this |}.

Definition set_batchTimer (b : bool) (this : t) : t :=
  {| config := config this; sessionId := sessionId this;
     events := events this; isRecording := isRecording this;
     isSampled := isSampled this; domRecorder := domRecorder this;
     interactionRecorder := interactionRecorder this;
     inputRecorder := inputRecorder this;
     navigationRecorder := navigationRecorder this;
     batchTimer := b;
     sendQueue := sendQueue this; pending := pending this |}.

(** [isPageExcluded()] *)
Definition isPageExcluded (w : Window) (this : t) : bool :=
  existsb (fun pattern => pattern (location_href w))
          (excludePages (config this)).

(** [sendBatch()] up to its [await]: the batch is spliced off the head of
    the queue and its request is issued. *)
Definition sendBatch (this : t) : t :=
  match sendQueue this with
  | [] => this
  | _ =>
      let batch := take (batchSize (config this)) (sendQueue this) in
      with_queue (events this)
                 (drop (batchSize (config this)) (sendQueue this))
                 (pending this ++ [batch]) this
  end.

(** How the [fetch] of a batch ends. *)
Inductive FetchOutcome :=
| Responded (ok : bool) (status : Z)
| Rejected (message : jsstring).

Definition delivered (o : FetchOutcome) : bool :=
  match o with
  | Responded ok _ => ok
  | Rejected _ => false
  end.

(** [sendBatch()] after its [await], for the batch at position [k] of
    [pending]: on a response that is not ok, and on a rejection, the batch
    is put back with [this.sendQueue.unshift(...batch)]. *)
Definition settle (k : nat) (o : FetchOutcome) (this : t) : t :=
  match pending this !! k with
  | None => this
  | Some batch =>
      with_queue (events this)
                 (if delivered o then sendQueue this
                  else batch ++ sendQueue this)
                 (delete k (pending this)) this
  end.

(** [handleEvent(event)] *)
Definition handleEvent (ev : Event) (this : t) : t :=
  if negb (isRecording this) then this
  else
    let ev := set_sessionId (sessionId this) ev in
    let this := with_queue (events this ++ [ev])
                           (sendQueue this ++ [ev])
                           (pending this) this in
    if (batchSize (config this) <=? length (sendQueue this))%nat
    then sendBatch this
    else this.

Definition handleEvents (evs : list Event) (this : t) : t :=
  foldl (fun this e => handleEvent e this) this evs.

Definition startBatchTimer (this : t) : t :=
  if batchTimer this then this else set_batchTimer true this.

Definition stopBatchTimer (this : t) : t :=
  if batchTimer this then set_batchTimer false this else this.

Definition set_recorders (d : option DOMRecorder.t) (i : option bool)
  (inp : option (InputRecorder.Options * bool))
  (n : option NavigationRecorder.t) (this : t) : t :=
  {| config := config this; sessionId := sessionId this;
     events := events this; isRecording := isRecording this;
     isSampled := isSampled this; domRecorder := d;
     interactionRecorder := i; inputRecorder := inp;
     navigationRecorder := n;
     batchTimer := batchTimer this;
     sendQueue := sendQueue this; pending := pending this |}.

(** The four [recorder?.stop()] calls of [stop()]. *)
Definition stop_recorders (this : t) : t :=
  set_recorders (option_map DOMRecorder.stop (domRecorder this))
                (option_map (fun _ => false) (interactionRecorder this))
                (option_map (fun r => (fst r, false)) (inputRecorder this))
                (option_map NavigationRecorder.stop (navigationRecorder this))
                this.

(** [stop()] up to the [await] of its final [sendBatch()]. *)
Definition stop (w : Window) (this : t) : t :=
  if negb (isRecording this) then this
  else
    let this := set_isRecording false this in
    let this :=
      handleEvent
        (event SESSION_END (Date_now w)
           (SessionEndData (location_href w) (length (events this))))
        this in
    let this := stop_recorders this in
    let this := stopBatchTimer this in
    sendBatch this.

(** The part of [stop()] between the dropped [handleEvent] call and the
    final flush. *)
Definition wound_down (this : t) : t :=
  stopBatchTimer (stop_recorders (set_isRecording false this)).

(** What [start()] takes from its surroundings: the stored sampling
    decision ([localStorage.getItem('wv_sampled')]), the outcome of
    [Math.random() * 100 < samplingRate], and the identifier that
    [generateSessionId()] returns. *)
Record StartEnv := {
  storedDecision : option jsstring;
  roll : bool;
  freshSessionId : jsstring;
}.

Definition shouldSample (env : StartEnv) : bool :=
  match storedDecision env with
  | Some d => Js.eqb d (js "true")
  | None => roll env
  end.

(** [start()] on the document whose document element is [root]: whether
    recording was started, and the recorder afterwards. *)
Definition start (w : Window) (env : StartEnv) (root : Dom.Node) (this : t)
  : bool * t :=
  if isRecording this then (false, this)
  else if isPageExcluded w this then (false, this)
  else
    let this :=
      {| config := config this; sessionId := sessionId this;
         events := events this; isRecording := isRecording this;
         isSampled := shouldSample env; domRecorder := domRecorder this;
         interactionRecorder := interactionRecorder this;
         inputRecorder := inputRecorder this;
         navigationRecorder := navigationRecorder this;
         batchTimer := batchTimer this;
         sendQueue := sendQueue this; pending := pending this |} in
    if negb (isSampled this) then (false, this)
    else
      let this :=
        {| config := config this; sessionId := Some (freshSessionId env);
           events := events this; isRecording := true;
           isSampled := isSampled this; domRecorder := domRecorder this;
           interactionRecorder := interactionRecorder this;
           inputRecorder := inputRecorder this;
           navigationRecorder := navigationRecorder this;
           batchTimer := batchTimer this;
           sendQueue := sendQueue this; pending := pending this |} in
      let excludeAttribute := excludeAttribute (privacy (config this)) in
      let dom := DOMRecorder.create (Some excludeAttribute) in
      let input :=
        InputRecorder.create
          (Some (maskAllInputs (privacy (config this))))
          (Some (maskSensitiveInputs (privacy (config this))))
          (Some excludeAttribute) in
      let nav := NavigationRecorder.create (excludePages (config this)) in
      let this := set_recorders (Some dom) (Some false)
                                (Some (input, false)) (Some nav) this in
      let this :=
        handleEvent
          (event SESSION_START (Date_now w)
             (SessionStartData (location_href w) (document_title w)
                (document_referrer w)))
          this in
      let this := handleEvent (DOMRecorder.captureSnapshot dom w root) this in
      let '(nav, loaded) :=
        NavigationRecorder.recordPageLoad w (NavigationRecorder.start nav) in
      let this := set_recorders (Some (DOMRecorder.start dom)) (Some true)
                                (Some (input, true)) (Some nav) this in
      let this := handleEvents loaded this in
      (true, startBatchTimer this).

End Webvisor.

(* ===================================================================== *)
(** ** The batch a client posts *)
(* ===================================================================== *)

Module Wire.

(** [meta.screen] and [meta.viewport] *)
Record Size := {
  width : option Z;
  height : option Z;
}.

Record Meta := {
  url : option jsstring;
  title : option jsstring;
  referrer : option jsstring;
  userAgent : option jsstring;
  language : option jsstring;
  timezone : option jsstring;
  screen : option Size;
  viewport : option Size;
}.

(** [{}] *)
Definition empty_meta : Meta :=
  {| url := None; title := None; referrer := None; userAgent := None;
     language := None; timezone := None; screen := None; viewport := None |}.

(** An event of a posted batch, as the client sends it: [type] and
    [timestamp] are integers when they are there; [data] is the JSON
    text of [event.data] when that property is truthy. *)
Record PostedEvent := {
  type : option Z;
  timestamp : option Z;
  data : option jsstring;
}.

(** [s || null] on a string property. *)
Definition str_or_null (s : option jsstring) : option jsstring :=
  match s with
  | Some v => if truthy v then Some v else None
  | None => None
  end.

(** [n || null] on a numeric property. *)
Definition num_or_null (n : option Z) : option Z :=
  match n with
  | Some v => if (v =? 0)%Z then None else Some v
  | None => None
  end.

(** [meta.screen?.width] and the like. *)
Definition size_width (s : option Size) : option Z :=
  match s with Some sz => width sz | None => None end.

Definition size_height (s : option Size) : option Z :=
  match s with Some sz => height sz | None => None end.

End Wire.

(* ===================================================================== *)
(** ** server/storage/PostgresStore.js *)
(* ===================================================================== *)

Module PostgresStore.
Import Wire.

Record VisitorRow := {
  v_id : nat;
  v_fingerprint : jsstring;
  v_ip_address : option jsstring;
  v_screen_width : option Z;
  v_screen_height : option Z;
  v_user_agent : option jsstring;
  v_language : option jsstring;
  v_timezone : option jsstring;
  v_first_seen : Z;
  v_last_seen : Z;
  v_visit_count : Z;
}.

Record SessionRow := {
  s_id : nat;
  s_session_id : jsstring;
  s_visitor_id : option nat;
  s_fingerprint : option jsstring;
  s_ip_address : option jsstring;
  s_url : option jsstring;
  s_title : option jsstring;
  s_referrer : option jsstring;
  s_user_agent : option jsstring;
  s_screen_width : option Z;
  s_screen_height : option Z;
  s_viewport_width : option Z;
  s_viewport_height : option Z;
  s_created_at : Z;
  s_updated_at : Z;
  s_event_count : Z;
}.

(** [e_data] is the JSON text that the row was given. *)
Record EventRow := {
  e_id : nat;
  e_session_id : jsstring;
  e_event_type : Z;
  e_timestamp : Z;
  e_data : jsstring;
  e_created_at : Z;
}.

(** The three tables of [createTables], rows in insertion order, and the
    next value of each SERIAL column.  The SERIAL columns and the two
    counts ([visit_count], [event_count]) are integers here: the tables
    of the model have not run out of identifiers, visits or events.  The
    values a batch brings are checked against their columns, below. *)
Record DB := {
  visitors : list VisitorRow;
  sessions : list SessionRow;
  events : list EventRow;
  next_visitor_id : nat;
  next_session_id : nat;
  next_event_id : nat;
}.

Definition empty_db : DB :=
  {| visitors := []; sessions := []; events := [];
     next_visitor_id := 1; next_session_id := 1; next_event_id := 1 |}.

(** A statement either fails, which aborts the transaction, or gives a
    result and the tables after it. *)
Inductive SqlError :=
| value_too_long (column : jsstring)
| not_null_violation (column : jsstring)
| unique_violation (column : jsstring)
| numeric_value_out_of_range (column : jsstring)
| character_not_in_repertoire (column : jsstring)
| untranslatable_character (column : jsstring).

Definition Tx (A : Type) : Type := DB -> SqlError + (A * DB).

Definition ret {A} (a : A) : Tx A := fun db => inr (a, db).

Definition fail {A} (e : SqlError) : Tx A := fun _ => inl e.

Definition bind {A B} (m : Tx A) (k : A -> Tx B) : Tx B :=
  fun db =>
    match m db with
    | inl e => inl e
    | inr (a, db') => k a db'
    end.

Notation "'do' x ':=' m 'in' k" := (bind m (fun x => k))
  (at level 10, x name, m at level 100, k at level 200).

Notation "'exec' m 'in' k" := (bind m (fun _ => k))
  (at level 10, m at level 100, k at level 200).

Definition is_high_surrogate (c : N) : bool :=
  ((55296 <=? c) && (c <=? 56319))%N.

Definition is_low_surrogate (c : N) : bool :=
  ((56320 <=? c) && (c <=? 57343))%N.

(** The characters of a string as the store counts them, once the
    driver has sent it as UTF-8: a surrogate pair is one character, any
    other code unit is one. *)
Fixpoint char_length (s : jsstring) : nat :=
  match s with
  | [] => 0
  | a :: s' =>
      match s' with
      | b :: s'' =>
          if is_high_surrogate a && is_low_surrogate b
          then S (char_length s'')
          else S (char_length s')
      | [] => 1
      end
  end.

(** [VARCHAR(n)] accepts null and strings of at most [n] characters.
    (A longer string whose characters beyond the [n]-th are all spaces,
    which PostgreSQL cuts to [n] characters, is refused here.) *)
Definition fits (n : nat) (s : option jsstring) : bool :=
  match s with
  | Some v => (char_length v <=? n)%nat
  | None => true
  end.

Definition check_varchar {A} (n : nat) (column : jsstring)
  (s : option jsstring) (k : Tx A) : Tx A :=
  if fits n s then k else fail (value_too_long column).

(** A string whose surrogates come in pairs: the driver sends it in
    UTF-8 as it is. *)
Fixpoint well_formed (s : jsstring) : bool :=
  match s with
  | [] => true
  | a :: s' =>
      if is_high_surrogate a then
        match s' with
        | b :: s'' => is_low_surrogate b && well_formed s''
        | [] => false
        end
      else negb (is_low_surrogate a) && well_formed s'
  end.

(** A text value cannot hold the character of code zero.  (A string with
    a surrogate that is not one of a pair, which the driver sends with
    U+FFFD in the place of the surrogate, is refused here.) *)
Definition clean (s : option jsstring) : bool :=
  match s with
  | Some v => negb (existsb (N.eqb 0) v) && well_formed v
  | None => true
  end.

Definition check_text {A} (column : jsstring) (s : option jsstring)
  (k : Tx A) : Tx A :=
  if clean s then k else fail (character_not_in_repertoire column).

(** [INTEGER] and [BIGINT] *)
Definition in_integer (z : Z) : bool :=
  ((-2147483648 <=? z) && (z <=? 2147483647))%Z.

Definition in_bigint (z : Z) : bool :=
  ((-9223372036854775808 <=? z) && (z <=? 9223372036854775807))%Z.

Definition integer_or_null (z : option Z) : bool :=
  match z with
  | Some v => in_integer v
  | None => true
  end.

Definition check_integer {A} (column : jsstring) (z : option Z)
  (k : Tx A) : Tx A :=
  if integer_or_null z then k else fail (numeric_value_out_of_range column).

(** *** JSONB

    The text that [JSON.stringify] gives is JSON, with surrogates in
    pairs; [JSONB] refuses it when a string of it holds the escape of the
    character of code zero, or the escape of a surrogate that is not one
    of a pair. *)

Definition hex_value (c : N) : option N :=
  if is_digit c then Some (c - 48)%N
  else if ((97 <=? c) && (c <=? 102))%N then Some (c - 87)%N
  else if ((65 <=? c) && (c <=? 70))%N then Some (c - 55)%N
  else None.

Definition hex4 (a b c d : N) : option N :=
  match hex_value a, hex_value b, hex_value c, hex_value d with
  | Some x, Some y, Some z, Some w =>
      Some (((x * 16 + y) * 16 + z) * 16 + w)%N
  | _, _, _, _ => None
  end.

(** [expect_low]: the escape just read was that of a high surrogate. *)
Fixpoint jsonb_accepts_from (expect_low : bool) (s : jsstring) : bool :=
  match s with
  | [] => negb expect_low
  | c :: s1 =>
      if (c =? 0)%N then false
      else if negb (c =? 92)%N
      then negb expect_low && jsonb_accepts_from false s1
      else
        match s1 with
        | e :: s2 =>
            if negb (e =? 117)%N
            then negb expect_low && jsonb_accepts_from false s2
            else
              match s2 with
              | h1 :: h2 :: h3 :: h4 :: s6 =>
                  match hex4 h1 h2 h3 h4 with
                  | Some u =>
                      if (u =? 0)%N then false
                      else if is_high_surrogate u
                      then negb expect_low && jsonb_accepts_from true s6
                      else if is_low_surrogate u
                      then expect_low && jsonb_accepts_from false s6
                      else negb expect_low && jsonb_accepts_from false s6
                  | None => false
                  end
              | _ => false
              end
        | [] => false
        end
  end.

Definition jsonb_accepts (text : jsstring) : bool :=
  well_formed text && jsonb_accepts_from false text.

(** *** generateFingerprint *)

(** [ToInt32] *)
Definition to_int32 (z : Z) : Z :=
  ((z + 2147483648) mod 4294967296 - 2147483648)%Z.

(** One turn of the hash loop:
    [hash = ((hash << 5) - hash) + char; hash = hash & hash]. *)
Definition hash_step (hash : Z) (char : N) : Z :=
  to_int32 (to_int32 (hash * 32) - hash + Z.of_N char)%Z.

Definition digit36 (d : N) : N :=
  if (d <? 10)%N then (48 + d)%N else (87 + d)%N.

Fixpoint toString36_go (fuel : nat) (n : N) (acc : jsstring) : jsstring :=
  match fuel with
  | O => acc
  | S fuel' =>
      let acc' := digit36 (n mod 36) :: acc in
      if (n / 36 =? 0)%N then acc' else toString36_go fuel' (n / 36) acc'
  end.

(** [n.toString(36)] for [n] up to [2^31], which has at most six digits
    in base 36. *)
Definition toString36 (n : N) : jsstring := toString36_go 7 n [].

Definition generateFingerprint (meta : Meta) (clientIP : option jsstring)
  : jsstring :=
  let parts :=
    [ of_Z (default 0%Z (num_or_null (size_width (screen meta))));
      of_Z (default 0%Z (num_or_null (size_height (screen meta))));
      default (js "unknown") (str_or_null clientIP) ] in
  let str := Js.join (js "|") parts in
  let hash := foldl hash_step 0%Z str in
  js "fp_" ++ toString36 (Z.to_N (Z.abs hash)).

(** *** The statements of storeEvents *)

(** [INSERT INTO visitors ... ON CONFLICT (fingerprint) DO UPDATE ...
    RETURNING id] *)
Definition bump_visitor (ip : option jsstring) (now : Z) (v : VisitorRow)
  : VisitorRow :=
  {| v_id := v_id v;
     v_fingerprint := v_fingerprint v;
     v_ip_address := match ip with Some _ => ip | None => v_ip_address v end;
     v_screen_width := v_screen_width v;
     v_screen_height := v_screen_height v;
     v_user_agent := v_user_agent v;
     v_language := v_language v;
     v_timezone := v_timezone v;
     v_first_seen := v_first_seen v;
     v_last_seen := now;
     v_visit_count := (v_visit_count v + 1)%Z |}.

Definition set_visitors (vs : list VisitorRow) (next : nat) (db : DB) : DB :=
  {| visitors := vs; sessions := sessions db; events := events db;
     next_visitor_id := next;
     next_session_id := next_session_id db;
     next_event_id := next_event_id db |}.

Definition set_sessions (ss : list SessionRow) (next : nat) (db : DB) : DB :=
  {| visitors := visitors db; sessions := ss; events := events db;
     next_visitor_id := next_visitor_id db;
     next_session_id := next;
     next_event_id := next_event_id db |}.

Definition set_events (es : list EventRow) (next : nat) (db : DB) : DB :=
  {| visitors := visitors db; sessions := sessions db; events := es;
     next_visitor_id := next_visitor_id db;
     next_session_id := next_session_id db;
     next_event_id := next |}.

Definition upsert_visitor (now : Z) (fingerprint : jsstring)
  (ip : option jsstring) (sw sh : option Z)
  (ua lang tz : option jsstring) : Tx nat :=
  check_varchar 64 (js "fingerprint") (Some fingerprint)
  (check_text (js "fingerprint") (Some fingerprint)
  (check_varchar 45 (js "ip_address") ip
  (check_text (js "ip_address") ip
  (check_integer (js "screen_width") sw
  (check_integer (js "screen_height") sh
  (check_text (js "user_agent") ua
  (check_varchar 10 (js "language") lang
  (check_text (js "language") lang
  (check_varchar 50 (js "timezone") tz
  (check_text (js "timezone") tz
  (fun db =>
     match List.find (fun v => Js.eqb (v_fingerprint v) fingerprint)
                     (visitors db) with
     | Some v =>
         inr (v_id v,
              set_visitors
                (map (fun v' =>
                        if Js.eqb (v_fingerprint v') fingerprint
                        then bump_visitor ip now v' else v')
                     (visitors db))
                (next_visitor_id db) db)
     | None =>
         let row :=
           {| v_id := next_visitor_id db;
              v_fingerprint := fingerprint;
              v_ip_address := ip;
              v_screen_width := sw; v_screen_height := sh;
              v_user_agent := ua; v_language := lang; v_timezone := tz;
              v_first_seen := now; v_last_seen := now;
              v_visit_count := 1 |} in
         inr (v_id row,
              set_visitors (visitors db ++ [row])
                           (S (next_visitor_id db)) db)
     end))))))))))).

(** [SELECT id FROM sessions WHERE session_id = $1] *)
Definition select_session (sessionId : jsstring) : Tx (list nat) :=
  check_text (js "session_id") (Some sessionId)
  (fun db =>
    inr (map s_id
             (List.filter (fun s => Js.eqb (s_session_id s) sessionId)
                          (sessions db)),
         db)).

(** The row that the INSERT of a new session adds: the twelve values
    given, the defaults of the other columns. *)
Definition new_session_row (id : nat) (now : Z) (sessionId : jsstring)
  (visitorId : option nat) (fingerprint ip : option jsstring)
  (meta : Meta) : SessionRow :=
  {| s_id := id;
     s_session_id := sessionId;
     s_visitor_id := visitorId;
     s_fingerprint := fingerprint;
     s_ip_address := ip;
     s_url := str_or_null (url meta);
     s_title := str_or_null (title meta);
     s_referrer := str_or_null (referrer meta);
     s_user_agent := str_or_null (userAgent meta);
     s_screen_width := num_or_null (size_width (screen meta));
     s_screen_height := num_or_null (size_height (screen meta));
     s_viewport_width := num_or_null (size_width (viewport meta));
     s_viewport_height := num_or_null (size_height (viewport meta));
     s_created_at := now; s_updated_at := now;
     s_event_count := 0 |}.

(** [INSERT INTO sessions (...) VALUES (...)] *)
Definition insert_session (now : Z) (sessionId : jsstring)
  (visitorId : option nat) (fingerprint ip : option jsstring)
  (meta : Meta) : Tx unit :=
  check_varchar 64 (js "session_id") (Some sessionId)
  (check_text (js "session_id") (Some sessionId)
  (check_varchar 64 (js "fingerprint") fingerprint
  (check_text (js "fingerprint") fingerprint
  (check_varchar 45 (js "ip_address") ip
  (check_text (js "ip_address") ip
  (check_text (js "url") (str_or_null (url meta))
  (check_text (js "title") (str_or_null (title meta))
  (check_text (js "referrer") (str_or_null (referrer meta))
  (check_text (js "user_agent") (str_or_null (userAgent meta))
  (check_integer (js "screen_width")
     (num_or_null (size_width (screen meta)))
  (check_integer (js "screen_height")
     (num_or_null (size_height (screen meta)))
  (check_integer (js "viewport_width")
     (num_or_null (size_width (viewport meta)))
  (check_integer (js "viewport_height")
     (num_or_null (size_height (viewport meta)))
  (fun db =>
     if existsb (fun s => Js.eqb (s_session_id s) sessionId) (sessions db)
     then inl (unique_violation (js "session_id"))
     else
       let row := new_session_row (next_session_id db) now sessionId
                    visitorId fingerprint ip meta in
       inr (tt, set_sessions (sessions db ++ [row])
                             (S (next_session_id db)) db))))))))))))))).

(** [INSERT INTO events (session_id, event_type, timestamp, data)] *)
Definition insert_event (now : Z) (sessionId : jsstring) (ev : PostedEvent)
  : Tx unit :=
  check_varchar 64 (js "session_id") (Some sessionId)
  (check_text (js "session_id") (Some sessionId)
  (fun db =>
     match type ev, timestamp ev with
     | None, _ => inl (not_null_violation (js "event_type"))
     | Some _, None => inl (not_null_violation (js "timestamp"))
     | Some ty, Some ts =>
         if negb (in_integer ty)
         then inl (numeric_value_out_of_range (js "event_type"))
         else if negb (in_bigint ts)
         then inl (numeric_value_out_of_range (js "timestamp"))
         else if negb (jsonb_accepts (default (js "{}") (data ev)))
         then inl (untranslatable_character (js "data"))
         else
           let row :=
             {| e_id := next_event_id db;
                e_session_id := sessionId;
                e_event_type := ty;
                e_timestamp := ts;
                e_data := default (js "{}") (data ev);
                e_created_at := now |} in
           inr (tt, set_events (events db ++ [row])
                               (S (next_event_id db)) db)
     end)).

(** The [for] loop over the events of the batch. *)
Fixpoint insert_events (now : Z) (sessionId : jsstring)
  (evs : list PostedEvent) : Tx unit :=
  match evs with
  | [] => ret tt
  | ev :: rest =>
      exec insert_event now sessionId ev in
      insert_events now sessionId rest
  end.

(** [UPDATE sessions SET event_count = event_count + $1,
    updated_at = CURRENT_TIMESTAMP WHERE session_id = $2] *)
Definition bump_session (n : Z) (now : Z) (s : SessionRow) : SessionRow :=
  {| s_id := s_id s; s_session_id := s_session_id s;
     s_visitor_id := s_visitor_id s; s_fingerprint := s_fingerprint s;
     s_ip_address := s_ip_address s; s_url := s_url s;
     s_title := s_title s; s_referrer := s_referrer s;
     s_user_agent := s_user_agent s;
     s_screen_width := s_screen_width s;
     s_screen_height := s_screen_height s;
     s_viewport_width := s_viewport_width s;
     s_viewport_height := s_viewport_height s;
     s_created_at := s_created_at s; s_updated_at := now;
     s_event_count := (s_event_count s + n)%Z |}.

Definition update_session (now : Z) (n : Z) (sessionId : jsstring)
  : Tx unit :=
  check_text (js "session_id") (Some sessionId)
  (fun db =>
    inr (tt,
         set_sessions
           (map (fun s => if Js.eqb (s_session_id s) sessionId
                          then bump_session n now s else s)
                (sessions db))
           (next_session_id db) db)).

(** The body of the transaction of [storeEvents], between BEGIN and
    COMMIT; [now] is CURRENT_TIMESTAMP. *)
Definition storeEvents_body (now : Z) (sessionId : jsstring)
  (evs : list PostedEvent) (meta : Meta) (clientIP : option jsstring)
  : Tx unit :=
  let fingerprint := generateFingerprint meta clientIP in
  do visitorId :=
    (if truthy fingerprint then
       do i := upsert_visitor now fingerprint clientIP
                 (num_or_null (size_width (screen meta)))
                 (num_or_null (size_height (screen meta)))
                 (str_or_null (userAgent meta))
                 (str_or_null (language meta))
                 (str_or_null (timezone meta)) in
       ret (Some i)
     else ret None) in
  do sessionCheck := select_session sessionId in
  exec (match sessionCheck with
        | [] => insert_session now sessionId visitorId (Some fingerprint)
                               clientIP meta
        | _ => ret tt
        end) in
  exec insert_events now sessionId evs in
  update_session now (Z.of_nat (length evs)) sessionId.

(** [storeEvents(sessionId, events, meta, clientIP)]: the tables after
    COMMIT, or the error thrown after ROLLBACK, which leaves the tables as
    they were. *)
Definition storeEvents (now : Z) (sessionId : jsstring)
  (evs : list PostedEvent) (meta : Meta) (clientIP : option jsstring)
  (db : DB) : SqlError + DB :=
  match storeEvents_body now sessionId evs meta clientIP db with
  | inl e => inl e
  | inr (_, db') => inr db'
  end.

(** *** The route that receives a batch (server/routes/webvisor.js) *)

Record Body := {
  body_sessionId : option jsstring;
  body_events : option (list PostedEvent);   (* [None]: absent, or not an array *)
  body_meta : option Meta;
  body_clientIP : option jsstring;
}.

Inductive Response :=
| Status200 (eventsReceived : nat)
| Status400
| Status500.

(** [postEvents(body)]: the response and the tables afterwards. *)
Definition postEvents (now : Z) (body : Body) (db : DB) : Response * DB :=
  match str_or_null (body_sessionId body), body_events body with
  | Some sessionId, Some evs =>
      match storeEvents now sessionId evs
                        (default empty_meta (body_meta body))
                        (body_clientIP body) db with
      | inr db' => (Status200 (length evs), db')
      | inl _ => (Status500, db)
      end
  | _, _ => (Status400, db)
  end.

(** An event that has the two NOT NULL columns. *)
Definition complete (ev : PostedEvent) : bool :=
  match type ev, timestamp ev with
  | Some _, Some _ => true
  | _, _ => false
  end.

(** An event that its row can hold: a type that is an INTEGER, a
    timestamp that is a BIGINT, data that JSONB accepts. *)
Definition storable (ev : PostedEvent) : bool :=
  match type ev, timestamp ev with
  | Some ty, Some ts =>
      in_integer ty && in_bigint ts
      && jsonb_accepts (default (js "{}") (data ev))
  | _, _ => false
  end.

(** The values of [meta] that go into rows: texts without the character
    of code zero and with their surrogates in pairs, sizes that are
    INTEGERs, a language and a time zone within their VARCHAR lengths. *)
Definition acceptable_meta (meta : Meta) : bool :=
  fits 10 (str_or_null (language meta))
  && fits 50 (str_or_null (timezone meta))
  && clean (str_or_null (language meta))
  && clean (str_or_null (timezone meta))
  && clean (str_or_null (userAgent meta))
  && clean (str_or_null (url meta))
  && clean (str_or_null (title meta))
  && clean (str_or_null (referrer meta))
  && integer_or_null (num_or_null (size_width (screen meta)))
  && integer_or_null (num_or_null (size_height (screen meta)))
  && integer_or_null (num_or_null (size_width (viewport meta)))
  && integer_or_null (num_or_null (size_height (viewport meta))).

(** A batch that the schema accepts: every value that goes into a row
    is one its column takes. *)
Definition acceptable (sessionId : jsstring) (evs : list PostedEvent)
  (meta : Meta) (clientIP : option jsstring) : bool :=
  fits 64 (Some sessionId) && clean (Some sessionId)
  && fits 45 clientIP && clean clientIP
  && acceptable_meta meta
  && forallb storable evs.

(** The values that the upsert of a visitor takes. *)
Definition visitor_values (fp : jsstring) (ip : option jsstring)
  (sw sh : option Z) (ua lang tz : option jsstring) : bool :=
  fits 64 (Some fp) && clean (Some fp) && fits 45 ip && clean ip
  && integer_or_null sw && integer_or_null sh && clean ua
  && fits 10 lang && clean lang && fits 50 tz && clean tz.

(** The rows of [sessions] once the UPDATE of [storeEvents] has raised
    the count of the rows of one session by [n]. *)
Definition sessions_after (now : Z) (sid : jsstring) (n : nat)
  (rows : list SessionRow) : list SessionRow :=
  map (fun s => if Js.eqb (s_session_id s) sid
                then bump_session (Z.of_nat n) now s else s) rows.

(** The rows of [sessions] for one session identifier. *)
Definition session_rows (sessionId : jsstring) (db : DB) : list SessionRow :=
  List.filter (fun s => Js.eqb (s_session_id s) sessionId) (sessions db).

End PostgresStore.

(* ===================================================================== *)
(** ** node:path, POSIX flavour: what [join] does *)
(* ===================================================================== *)

Module Path.

Definition SLASH : N := 47.
Definition DOT : N := 46.

(** [path.split('/')]: the segments between separators, empty ones
    included. *)
Fixpoint split_go (cur : jsstring) (s : jsstring) : list jsstring :=
  match s with
  | [] => [rev cur]
  | c :: s' =>
      if (c =? SLASH)%N then rev cur :: split_go [] s'
      else split_go (c :: cur) s'
  end.

Definition split (s : jsstring) : list jsstring := split_go [] s.

Definition is_dot (seg : jsstring) : bool := Js.eqb seg [DOT].
Definition is_dotdot (seg : jsstring) : bool := Js.eqb seg [DOT; DOT].

(** One segment of [normalizeString]; [res] is the path built so far,
    last segment first. *)
Definition normalize_step (allowAboveRoot : bool) (res : list jsstring)
  (seg : jsstring) : list jsstring :=
  if falsy seg || is_dot seg then res
  else if is_dotdot seg then
    match res with
    | last :: rest =>
        if is_dotdot last
        then (if allowAboveRoot then seg :: res else res)
        else rest
    | [] => if allowAboveRoot then [seg] else []
    end
  else seg :: res.

(** [normalizeString(path, allowAboveRoot)], as a list of segments. *)
Definition normalizeString (allowAboveRoot : bool) (path : jsstring)
  : list jsstring :=
  rev (foldl (normalize_step allowAboveRoot) [] (split path)).

Definition isAbsolute (path : jsstring) : bool :=
  match path with
  | c :: _ => (c =? SLASH)%N
  | [] => false
  end.

Definition trailingSeparator (path : jsstring) : bool :=
  match last path with
  | Some c => (c =? SLASH)%N
  | None => false
  end.

(** The segments that [normalize] keeps of [path]. *)
Definition segments (path : jsstring) : list jsstring :=
  normalizeString (negb (isAbsolute path)) path.

(** A path written out from its segments. *)
Definition render (absolute : bool) (segs : list jsstring) : jsstring :=
  (if absolute then [SLASH] else []) ++ Js.join [SLASH] segs.

(** [path.normalize(path)] *)
Definition normalize (path : jsstring) : jsstring :=
  match path with
  | [] => [DOT]
  | _ =>
      match segments path with
      | [] =>
          if isAbsolute path then [SLASH]
          else if trailingSeparator path then [DOT; SLASH] else [DOT]
      | segs =>
          render (isAbsolute path) segs
          ++ (if trailingSeparator path then [SLASH] else [])
      end
  end.

(** A file name: one segment, which [join] keeps as it is. *)
Definition plain (f : jsstring) : Prop :=
  f <> [] /\ Forall (fun c => c <> SLASH) f
  /\ f <> [DOT] /\ f <> [DOT; DOT].

(** [path.join(a, b)] *)
Definition join (a b : jsstring) : jsstring :=
  match a, b with
  | [], [] => [DOT]
  | [], _ => normalize b
  | _, [] => normalize a
  | _, _ => normalize (a ++ [SLASH] ++ b)
  end.

End Path.

(* ===================================================================== *)
(** ** src/server/storage/SessionStore.js *)
(* ===================================================================== *)

Module SessionStore.
Import Wire.

Record Session := {
  sessionId : jsstring;
  meta : Meta;
  events : list PostedEvent;
  createdAt : Z;
  updatedAt : Z;
}.

(** What a file of the storage directory holds: the JSON text of a
    session, as the store writes it, or text that [JSON.parse] rejects. *)
Inductive File :=
| SessionFile (s : Session)
| OtherFile (content : jsstring).

Record t := {
  storagePath : jsstring;
  retentionDays : Z;
}.

(** The files, by path. *)
Abbreviation FS := (gmap (list N) File).

(** The characters that the sanitising [replace] keeps. *)
Definition is_safe (c : N) : bool :=
  is_lower c || is_upper c || is_digit c
  || (c =? 95)%N || (c =? 45)%N.

(** [sessionId.replace(/[^a-zA-Z0-9_-]/g, '')] *)
Definition safeId (sessionId : jsstring) : jsstring :=
  List.filter is_safe sessionId.

Definition getSessionPath (this : t) (sessionId : jsstring) : jsstring :=
  Path.join (storagePath this) (safeId sessionId ++ js ".json").

(** [storeEvents(sessionId, events, meta)], once [init()] has made the
    storage directory: the session returned and the files afterwards;
    [now] is what [Date.now()] reads. *)
Definition storeEvents (this : t) (now : Z) (sid : jsstring)
  (evs : list PostedEvent) (m : Meta) (fs : FS) : Session * FS :=
  let filePath := getSessionPath this sid in
  let session :=
    match fs !! filePath with
    | Some (SessionFile existing) =>
        {| sessionId := sessionId existing;
           meta := meta existing;
           events := events existing ++ evs;
           createdAt := createdAt existing;
           updatedAt := now |}
    | _ =>
        {| sessionId := sid; meta := m; events := evs;
           createdAt := now; updatedAt := now |}
    end in
  (session, <[filePath := SessionFile session]> fs).

(** [getSession(sessionId)] *)
Definition getSession (this : t) (sessionId : jsstring) (fs : FS)
  : option Session :=
  match fs !! getSessionPath this sessionId with
  | Some (SessionFile s) => Some s
  | _ => None
  end.

(** [deleteSession(sessionId)] *)
Definition deleteSession (this : t) (sessionId : jsstring) (fs : FS)
  : bool * FS :=
  let filePath := getSessionPath this sessionId in
  match fs !! filePath with
  | Some _ => (true, delete filePath fs)
  | None => (false, fs)
  end.

End SessionStore.

(* ===================================================================== *)
(** ** The selector, as the specification words it *)
(* ===================================================================== *)

Module SelectorLoop.
Import Dom.

(** What the turns of the [while] loop of [getSelector] put in [parts],
    nearest level first, were the loop not bounded: a turn for each
    element of the chain, up to an element that has an id, whose turn is
    the last. *)
Fixpoint turns (chain : list Node) : list jsstring :=
  match chain with
  | [] => []
  | current :: rest =>
      if negb (is_element current) then []
      else if truthy (id current) then [js "#" ++ CSS_escape (id current)]
      else level_selector current (head rest) :: turns rest
  end.

End SelectorLoop.

Module SelectorSpec.
Import Dom.

(** *** The walk, in the words of the specification

    Nothing here is taken from [getSelector]: the definitions read the
    tag name, the class attribute and the element children of the
    parent, and follow the sentence of the specification. *)

(** White space separates the class tokens. *)
Fixpoint skip_spaces (s : jsstring) : jsstring :=
  match s with
  | [] => []
  | c :: s' => if is_space c then skip_spaces s' else s
  end.

(** The token at the start of [s]: the characters up to the next white
    space. *)
Fixpoint token (s : jsstring) : jsstring :=
  match s with
  | [] => []
  | c :: s' => if is_space c then [] else c :: token s'
  end.

Fixpoint after_token (s : jsstring) : jsstring :=
  match s with
  | [] => []
  | c :: s' => if is_space c then s else after_token s'
  end.

Definition class_attribute (n : Node) : jsstring :=
  match getAttribute n (js "class") with
  | Some s => s
  | None => []
  end.

(** "up to two class tokens if present": the first token of the class
    attribute and the one after it, where there are such. *)
Definition class_tokens (n : Node) : list jsstring :=
  let first := skip_spaces (class_attribute n) in
  let second := skip_spaces (after_token first) in
  List.filter truthy [token first; token second].

(** A class token appended to a selector: a dot and the token, escaped
    as the id is. *)
Definition class_part (n : Node) : jsstring :=
  flat_map (fun c => js "." ++ CSS_escape c) (class_tokens n).

Definition same_tag (a b : Node) : bool :=
  Js.eqb (node_tagName a) (node_tagName b).

Definition is_node (a b : Node) : bool := Nat.eqb (oid a) (oid b).

(** "the element has same-tag siblings": another element child of its
    parent has its tag. *)
Definition has_same_tag_sibling (current parent : Node) : bool :=
  existsb (fun c => same_tag c current && negb (is_node c current))
          (children parent).

(** The children that come before [current]. *)
Fixpoint preceding (current : Node) (l : list Node) : list Node :=
  match l with
  | [] => []
  | c :: l' => if is_node c current then [] else c :: preceding current l'
  end.

(** The place of the element among the element children of its tag,
    counted from one, as [:nth-of-type] counts. *)
Definition position (current parent : Node) : nat :=
  S (length (List.filter (fun c => same_tag c current)
                         (preceding current (children parent)))).

Definition disambiguator (current : Node) (parent : option Node)
  : jsstring :=
  match parent with
  | Some p =>
      if has_same_tag_sibling current p
      then js ":nth-of-type(" ++ of_nat (position current p) ++ js ")"
      else []
  | None => []
  end.

(** One level: "the lowercase tag name, appending up to two class tokens
    if present, and appending an nth-of-type-style disambiguator only if
    the element has same-tag siblings". *)
Definition level_stated (current : Node) (parent : option Node)
  : jsstring :=
  toLowerCase (node_tagName current)
  ++ class_part current ++ disambiguator current parent.

(** The levels of the walk as the specification describes it, from the
    element toward the root. *)
Fixpoint levels_spec (chain : list Node) : list jsstring :=
  match chain with
  | [] => []
  | current :: rest =>
      if negb (is_element current) then []
      else level_stated current (head rest) :: levels_spec rest
  end.

(** The element and at most five ancestor levels, joined root first. *)
Definition getSelector_spec (element : Located) : jsstring :=
  if negb (is_element (self element)) then []
  else if truthy (id (self element)) then
    js "#" ++ CSS_escape (id (self element))
  else Js.join (js " > ") (rev (take 6 (levels_spec (lineage element)))).

(** *** The walk as amended *)

(** One level, with the first amendment: the class tokens are read from
    a [className] that is a string, so an SVG element has no class
    part. *)
Definition level (current : Node) (parent : option Node) : jsstring :=
  toLowerCase (node_tagName current)
  ++ (if is_svg current then [] else class_part current)
  ++ disambiguator current parent.

(** The levels, with the second amendment: an ancestor that has an id
    contributes ['#id'] and ends the walk. *)
Fixpoint levels (chain : list Node) : list jsstring :=
  match chain with
  | [] => []
  | current :: rest =>
      if negb (is_element current) then []
      else if truthy (id current) then [js "#" ++ CSS_escape (id current)]
      else level current (head rest) :: levels rest
  end.

Definition getSelector_amended (element : Located) : jsstring :=
  if negb (is_element (self element)) then []
  else if truthy (id (self element)) then
    js "#" ++ CSS_escape (id (self element))
  else Js.join (js " > ") (rev (take 6 (levels (lineage element)))).

(** *** Elements in their place *)

(** [current] is one of the element children of [parent]: one of them
    has its identity, and that one has its tag. *)
Definition child_of (current parent : Node) : bool :=
  match List.filter (fun c => is_node c current) (children parent) with
  | [c] => same_tag c current
  | _ => false
  end.

(** Every element of the chain is a child of the next one, as an
    element is of its [parentElement]. *)
Fixpoint attached (chain : list Node) : bool :=
  match chain with
  | current :: ((parent :: _) as rest) =>
      child_of current parent && attached rest
  | _ => true
  end.

End SelectorSpec.


(* ===================================================================== *)
(** ** The masking rules, as the specification words them *)
(* ===================================================================== *)

Module MaskSpec.
Import InputRecorder.

(** First match wins: mask-all, then the explicit attribute, then the
    automatic detection when it is switched on. *)
Definition shouldMask_spec (this : Options) (element : Control) : bool :=
  if opt_maskAllInputs this then true
  else if hasAttribute element (js "data-ym-mask") then true
  else if opt_maskSensitiveInputs this
          && (sensitive_input element || sensitive_name element) then true
  else false.

End MaskSpec.

(* ===================================================================== *)
(** ** Invariants and sample pages *)
(* ===================================================================== *)

Module Registry.
Import DOMRecorder.

(** The identifiers recorded so far lie below the counter, and no two
    nodes share one. *)
Definition ok (this : t) : Prop :=
  (forall n i, nodeIdMap this !! n = Some i -> i < nextNodeId this)
  /\ (forall n m i,
        nodeIdMap this !! n = Some i -> nodeIdMap this !! m = Some i ->
        n = m).

(** A history of [getNodeId] calls, one per node of the list. *)
Definition calls (nodes : list nat) : M (list (option nat)) :=
  mapM getNodeId nodes.

End Registry.

Module Page.
Import Dom Events DOMRecorder.

Definition el (tag : string) (attrs : list (string * string)) : ElementData :=
  {| tagName := js tag;
     Dom.attributes := map (fun kv => (js (fst kv), js (snd kv))) attrs;
     value := None;
     selectedIndex := (-1)%Z;
     svg := false |}.

(** [<html><body>
      <div data-ym-disable>secret</div>
      <p>public</p>
    </body></html>] *)
Definition private_div : Node :=
  Element 3 (el "DIV" [("data-ym-disable", "")]) [Text 4 (js "secret")].

Definition body : Node :=
  Element 2 (el "BODY" [])
    [private_div; Element 5 (el "P" []) [Text 6 (js "public")]].

Definition html : Node := Element 1 (el "HTML" []) [body].

(** The text node inside the excluded [div]. *)
Definition secret_text : Located :=
  {| self := Text 4 (js "secret"); ancestors := [private_div; body; html] |}.

Definition the_div : Located :=
  {| self := private_div; ancestors := [body; html] |}.

Definition the_body : Located := {| self := body; ancestors := [html] |}.

(** The user types the last letter of the text inside the excluded
    [div]. *)
Definition text_changed : MutationRecord :=
  {| mtype := characterData; target := secret_text;
     addedNodes := []; removedNodes := [];
     attributeName := None; oldValue := Some (js "secre") |}.

(** An attribute of the excluded [div] changes. *)
Definition div_changed : MutationRecord :=
  {| mtype := attributes; target := the_div;
     addedNodes := []; removedNodes := [];
     attributeName := Some (js "class"); oldValue := None |}.

(** [<section><span data-ym-disable>hidden</span></section>], appended
    to the body. *)
Definition hidden_span : Node :=
  Element 8 (el "SPAN" [("data-ym-disable", "")]) [Text 9 (js "hidden")].

Definition section : Node := Element 7 (el "SECTION" []) [hidden_span].

Definition body_after : Node :=
  Element 2 (el "BODY" [])
    [private_div; Element 5 (el "P" []) [Text 6 (js "public")]; section].

Definition html_after : Node := Element 1 (el "HTML" []) [body_after].

Definition section_added : MutationRecord :=
  {| mtype := childList;
     target := {| self := body_after; ancestors := [html_after] |};
     addedNodes := [ {| self := section;
                        ancestors := [body_after; html_after] |} ];
     removedNodes := [];
     attributeName := None; oldValue := None |}.

Definition window : Window :=
  {| location_href := js "https://shop.example/cart";
     document_title := js "Cart";
     document_referrer := [];
     Date_now := 1700000000000;
     innerWidth := 1280; innerHeight := 720;
     pageXOffset := 0; pageYOffset := 0;
     doctype := Some (js "html", [], []) |}.

Definition recorder : DOMRecorder.t := DOMRecorder.create None.

(** [<div id="a"><span></span></div>] under the body, for the selector. *)
Definition span : Node := Element 12 (el "SPAN" []) [].

Definition div_a : Node := Element 11 (el "DIV" [("id", "a")]) [span].

Definition body_a : Node := Element 2 (el "BODY" []) [div_a].

Definition html_a : Node := Element 1 (el "HTML" []) [body_a].

Definition span_in_div_a : Located :=
  {| self := span; ancestors := [div_a; body_a; html_a] |}.

(** [<ul><li class="item odd  first">..</li><li class="item">..</li></ul>] *)
Definition li1 : Node :=
  Element 22 (el "LI" [("class", "item odd  first")]) [].

Definition li2 : Node := Element 23 (el "LI" [("class", " item ")]) [].

Definition ul : Node := Element 21 (el "UL" []) [li1; li2].

Definition second_item : Located := {| self := li2; ancestors := [ul] |}.

Definition first_item : Located := {| self := li1; ancestors := [ul] |}.

(** Eight nested [div]s, and the innermost one. *)
Fixpoint nested (depth : nat) : list Node :=
  match depth with
  | O => []
  | S d => [Element (100 + d) (el "DIV" []) (nested d)]
  end.

Definition deep : Node := Element 108 (el "DIV" []) (nested 7).

Definition innermost : option Located := locate deep [0; 0; 0; 0; 0; 0; 0].

End Page.

(** An inline drawing: [<body><svg class="icon big"></svg></body>]. *)
Module Drawing.
Import Dom.

Definition svg_element : Node :=
  Element 42
    {| tagName := js "svg";
       Dom.attributes := [(js "class", js "icon big")];
       value := None; selectedIndex := (-1)%Z; svg := true |} [].

Definition body : Node := Element 2 (Page.el "BODY" []) [svg_element].

Definition html : Node := Element 1 (Page.el "HTML" []) [body].

Definition icon : Located :=
  {| self := svg_element; ancestors := [body; html] |}.

End Drawing.

Module Fields.
Import InputRecorder.

(** The field of the documentation's "Manual Masking" example:
    [<input type="text" data-ym-mask name="custom-sensitive-field">]. *)
Definition manual_mask_field : Control :=
  {| isHTMLInputElement := true;
     type := js "text";
     autocomplete := Some [];
     name := Some (js "custom-sensitive-field");
     id := Some [];
     placeholder := Some [];
     attributeNames := [js "type"; js "data-ym-mask"; js "name"] |}.

Definition sensitive_off : Options :=
  create (Some false) (Some false) None.

End Fields.

Module Visit.
Import Events.

(** The pattern [/\/admin\//], by its [test]. *)
Definition admin_pages : jsstring -> bool := includes (js "/admin/").

(** A navigation recorder on the cart page, with the admin pages
    excluded. *)
Definition on_cart : NavigationRecorder.t :=
  fst (NavigationRecorder.recordPageLoad Page.window
         (NavigationRecorder.start
            (NavigationRecorder.create [admin_pages]))).

(** The page after [history.pushState] to an admin page. *)
Definition at_admin : Window :=
  {| location_href := js "https://shop.example/admin/users";
     document_title := js "Users";
     document_referrer := [];
     Date_now := 1700000005000;
     innerWidth := 1280; innerHeight := 720;
     pageXOffset := 0; pageYOffset := 0;
     doctype := Some (js "html", [], []) |}.

Definition config : Webvisor.Config :=
  {| Webvisor.batchSize := DEFAULT_batchSize;
     Webvisor.privacy := DEFAULT_PRIVACY;
     Webvisor.excludePages := [] |}.

Definition env : Webvisor.StartEnv :=
  {| Webvisor.storedDecision := Some (js "true");
     Webvisor.roll := true;
     Webvisor.freshSessionId := js "wv_lp2j1k00_4fzzzxjy" |}.

(** A session as [start()] leaves it on the sample page. *)
Definition recording : Webvisor.t :=
  snd (Webvisor.start Page.window env Page.html (Webvisor.create config)).

(** The page when [stop()] is called. *)
Definition later : Window :=
  {| location_href := js "https://shop.example/cart";
     document_title := js "Cart";
     document_referrer := [];
     Date_now := 1700000009000;
     innerWidth := 1280; innerHeight := 720;
     pageXOffset := 0; pageYOffset := 0;
     doctype := Some (js "html", [], []) |}.

Definition went_hidden (ts : Z) : Event :=
  {| type := PAGE_TRANSITION; timestamp := ts;
     sessionId := Some (js "wv_lp2j1k00_4fzzzxjy");
     data := HiddenData (js "https://shop.example/cart") |}.

(** A recording session with three events in its queue when the batch
    timer fires. *)
Definition three_queued : Webvisor.t :=
  {| Webvisor.config := config;
     Webvisor.sessionId := Some (js "wv_lp2j1k00_4fzzzxjy");
     Webvisor.events := [went_hidden 1; went_hidden 2; went_hidden 3];
     Webvisor.isRecording := true; Webvisor.isSampled := true;
     Webvisor.domRecorder := None; Webvisor.interactionRecorder := None;
     Webvisor.inputRecorder := None; Webvisor.navigationRecorder := None;
     Webvisor.batchTimer := true;
     Webvisor.sendQueue := [went_hidden 1; went_hidden 2; went_hidden 3];
     Webvisor.pending := [] |}.

End Visit.

(** Two flushes in flight at once: with a batch size of two, five events
    are recorded; the queue reaches the batch size at the second and at
    the fourth, and each time [handleEvent] starts a flush without
    waiting for the one before. *)
Module Overlap.
Import Events.

Definition config : Webvisor.Config :=
  {| Webvisor.batchSize := 2;
     Webvisor.privacy := DEFAULT_PRIVACY;
     Webvisor.excludePages := [] |}.

Definition idle : Webvisor.t :=
  {| Webvisor.config := config;
     Webvisor.sessionId := Some (js "wv_lp2j1k00_4fzzzxjy");
     Webvisor.events := [];
     Webvisor.isRecording := true; Webvisor.isSampled := true;
     Webvisor.domRecorder := None; Webvisor.interactionRecorder := None;
     Webvisor.inputRecorder := None; Webvisor.navigationRecorder := None;
     Webvisor.batchTimer := true;
     Webvisor.sendQueue := [];
     Webvisor.pending := [] |}.

Definition recorded : Webvisor.t :=
  Webvisor.handleEvents (map Visit.went_hidden [1; 2; 3; 4; 5]%Z) idle.

(** The request of the older flush fails, then that of the newer. *)
Definition both_failed : Webvisor.t :=
  Webvisor.settle 0 (Webvisor.Responded false 500)
    (Webvisor.settle 0 (Webvisor.Responded false 500) recorded).

(** [l] holds timestamps of [k], in the order of [k]. *)
Fixpoint in_order_of (l k : list Z) : bool :=
  match l, k with
  | [], _ => true
  | _ :: _, [] => false
  | x :: l', y :: k' =>
      if (x =? y)%Z then in_order_of l' k' else in_order_of l k'
  end.

(** The queue holds its events in the order they were recorded in. *)
Definition in_enqueue_order (this : Webvisor.t) : bool :=
  in_order_of (map timestamp (Webvisor.sendQueue this))
              (map timestamp (Webvisor.events this)).

End Overlap.

Module Batches.
Import Wire.

Definition session : jsstring := js "wv_lp2j1k00_4fzzzxjy".

Definition posted (ty ts : Z) : PostedEvent :=
  {| type := Some ty; timestamp := Some ts; data := Some (js "{}") |}.

Definition first_batch : list PostedEvent :=
  [posted 9 1700000000000; posted 0 1700000000001; posted 7 1700000000002].

Definition second_batch : list PostedEvent :=
  [posted 3 1700000001000; posted 4 1700000001500].

Definition meta : Meta :=
  {| url := Some (js "https://shop.example/cart");
     title := Some (js "Cart");
     referrer := None;
     userAgent := Some (js "Mozilla/5.0");
     language := Some (js "en-US");
     timezone := None;
     screen := Some {| width := Some 1920%Z; height := Some 1080%Z |};
     viewport := None |}.

Definition address : option jsstring := Some (js "203.0.113.7").

Definition body (evs : list PostedEvent) : PostgresStore.Body :=
  {| PostgresStore.body_sessionId := Some session;
     PostgresStore.body_events := Some evs;
     PostgresStore.body_meta := Some meta;
     PostgresStore.body_clientIP := address |}.

Definition store : SessionStore.t :=
  {| SessionStore.storagePath := js "./data/sessions";
     SessionStore.retentionDays := 15 |}.

End Batches.

(* ===================================================================== *)
(** ** client/recorder/InteractionRecorder.js *)
(* ===================================================================== *)

Module InteractionRecorder.
Import Dom.

(** *** throttle *)

(** The closure variables of [throttle(fn, delay)].  A pending timer is
    kept with the time at which it is due and the arguments its callback
    has captured. *)
Record Throttled (A : Type) := {
  delay : Z;
  lastCall : Z;
  timeoutId : option (Z * A);
}.

Arguments delay {A}.
Arguments lastCall {A}.
Arguments timeoutId {A}.

(** [throttle(fn, delay)] *)
Definition throttle {A} (delay : Z) : Throttled A :=
  {| delay := delay; lastCall := 0; timeoutId := None |}.

(** [throttled(...args)] when [Date.now()] reads [now]: the calls of
    [fn] it makes, by their arguments, and the closure afterwards. *)
Definition call {A} (now : Z) (args : A) (st : Throttled A)
  : list A * Throttled A :=
  let remaining := (delay st - (now - lastCall st))%Z in
  if (remaining <=? 0)%Z then
    ([args], {| delay := delay st; lastCall := now; timeoutId := None |})
  else
    match timeoutId st with
    | None =>
        ([], {| delay := delay st; lastCall := lastCall st;
                timeoutId := Some ((now + remaining)%Z, args) |})
    | Some _ => ([], st)
    end.

(** The callback of the pending timer, run when [Date.now()] reads
    [now]; nothing happens when no timer is pending. *)
Definition fire {A} (now : Z) (st : Throttled A) : list A * Throttled A :=
  match timeoutId st with
  | Some (_, args) =>
      ([args], {| delay := delay st; lastCall := now; timeoutId := None |})
  | None => ([], st)
  end.

(** What happens to a throttled function: it is called, or its timer
    fires. *)
Inductive Step (A : Type) :=
| Call (now : Z) (args : A)
| Fire (now : Z).

Arguments Call {A}.
Arguments Fire {A}.

Definition step_time {A} (s : Step A) : Z :=
  match s with Call now _ => now | Fire now => now end.

Definition step {A} (s : Step A) (st : Throttled A)
  : list A * Throttled A :=
  match s with
  | Call now args => call now args st
  | Fire now => fire now st
  end.

(** The calls of [fn] over a history, each with the time it is made. *)
Fixpoint run {A} (history : list (Step A)) (st : Throttled A)
  : list (Z * A) :=
  match history with
  | [] => []
  | s :: rest =>
      let '(out, st') := step s st in
      map (fun args => (step_time s, args)) out ++ run rest st'
  end.

(** The arguments the throttled function is called with, in order. *)
Fixpoint called_with {A} (history : list (Step A)) : list A :=
  match history with
  | [] => []
  | Call _ args :: rest => args :: called_with rest
  | Fire _ :: rest => called_with rest
  end.

(** A timer fires only when one is pending, and not before it is due. *)
Fixpoint on_time {A} (history : list (Step A)) (st : Throttled A) : bool :=
  match history with
  | [] => true
  | s :: rest =>
      match s with
      | Fire now =>
          match timeoutId st with
          | Some (due, _) => (due <=? now)%Z
          | None => false
          end
      | Call _ _ => true
      end
      && on_time rest (snd (step s st))
  end.

(** Each time is at least [d] after the one before, starting from
    [last]. *)
Fixpoint spaced (d : Z) (last : Z) (times : list Z) : Prop :=
  match times with
  | [] => True
  | t :: rest => (last + d <= t)%Z /\ spaced d t rest
  end.

(** A pending timer is due one [delay] after the last call of [fn]. *)
Definition due_ok {A} (st : Throttled A) : Prop :=
  match timeoutId st with
  | Some (due, _) => due = (lastCall st + delay st)%Z
  | None => True
  end.

(** *** The click handler *)

Record InteractionOptions := {
  mouseThrottle : Z;
  scrollThrottle : Z;
  excludeAttribute : jsstring;
}.

Fixpoint isExcluded_loop (attr : jsstring) (chain : list Node) : bool :=
  match chain with
  | [] => false
  | current :: rest =>
      if negb (is_element current) then false
      else if hasAttribute current attr then true
      else isExcluded_loop attr rest
  end.

(** [isExcluded(element)] *)
Definition isExcluded (this : InteractionOptions) (element : Located)
  : bool :=
  if negb (is_element (self element)) then false
  else isExcluded_loop (excludeAttribute this) (lineage element).

(** What the handler reads of the click. *)
Record MouseEvent := {
  clientX : Z; clientY : Z; pageX : Z; pageY : Z; button : Z;
  click_target : Located;
}.

(** The [data] of a click event. *)
Record ClickData := {
  c_x : Z; c_y : Z; c_pageX : Z; c_pageY : Z; c_button : Z;
  c_selector : jsstring;
  c_tagName : jsstring;
  c_textContent : jsstring;
}.

(** [handlers.mouseClick(e)]: the [data] of the event handed to
    [onEvent], if any. *)
Definition mouseClick (this : InteractionOptions) (e : MouseEvent)
  : option ClickData :=
  let target := click_target e in
  if isExcluded this target then None
  else
    Some {| c_x := clientX e; c_y := clientY e;
            c_pageX := pageX e; c_pageY := pageY e;
            c_button := button e;
            c_selector := getSelector target;
            c_tagName := node_tagName (self target);
            c_textContent := take 50 (textContent (self target)) |}.

End InteractionRecorder.

Module Pipeline.
Import Events Webvisor.

(** The events that have been recorded and not yet delivered: those of
    the batches in flight, oldest batch first, then those in the queue. *)
Definition undelivered (this : t) : list Event :=
  concat (pending this) ++ sendQueue this.

(** Every event the recorder holds carries the session identifier [s]. *)
Definition stamped (s : option jsstring) (this : t) : Prop :=
  Forall (fun e => Events.sessionId e = s) (events this)
  /\ Forall (fun e => Events.sessionId e = s) (undelivered this).

End Pipeline.

Module Navigation.
Import Events NavigationRecorder.

(** A run of [recordTransition] calls, each with the page as it is then
    and its trigger: the recorder afterwards and the events handed to
    [onEvent], in order. *)
Fixpoint recordTransitions (calls : list (Window * jsstring)) (this : t)
  : t * list Event :=
  match calls with
  | [] => (this, [])
  | (w, trigger) :: rest =>
      let '(this1, evs) := recordTransition w trigger this in
      let '(this2, evs') := recordTransitions rest this1 in
      (this2, evs ++ evs')
  end.

(** The events are page transitions that lead from [start] to [final],
    each beginning where the one before ended and going to a different
    URL. *)
Fixpoint chained (start : jsstring) (evs : list Event) (final : jsstring)
  : Prop :=
  match evs with
  | [] => final = start
  | e :: rest =>
      match data e with
      | TransitionData _ from to _ =>
          type e = PAGE_TRANSITION /\ from = start /\ to <> start
          /\ chained to rest final
      | _ => False
      end
  end.

(** Neither end of a transition event is an excluded page. *)
Definition clean (this : t) (e : Event) : Prop :=
  match data e with
  | TransitionData _ from to _ =>
      isExcludedPage this from = false /\ isExcludedPage this to = false
  | _ => False
  end.

End Navigation.

Module Mutations.
Import Dom Events DOMRecorder.

(** Whether the loop of [processMutations] skips the mutation. *)
Definition skipped (this : t) (mutation : MutationRecord) : bool :=
  is_element (self (target mutation)) && isExcluded this (target mutation).

(** The mutations that are recorded, in order. *)
Definition recorded (this : t) (mutations : list MutationRecord)
  : list MutationRecord :=
  List.filter (fun m => negb (skipped this m)) mutations.

(** The later recorder knows every node the earlier one knows, under the
    same identifier, excludes by the same attribute, and is sound. *)
Definition extends (this this' : t) : Prop :=
  Registry.ok this'
  /\ (forall n i, nodeIdMap this !! n = Some i ->
                  nodeIdMap this' !! n = Some i)
  /\ excludeAttribute this' = excludeAttribute this.

(** The event records the mutation with the identifier that the
    recorder holds for the target. *)
Definition records (this' : t) (e : Event) (m : MutationRecord) : Prop :=
  type e = DOM_MUTATION
  /\ exists i payload,
       data e = MutationData (Some i) (getSelector (target m)) payload
       /\ nodeIdMap this' !! oid (self (target m)) = Some i
       /\ mutationType payload
          = match mtype m with
            | childList => CHILD_LIST
            | attributes => ATTRIBUTES
            | characterData => CHARACTER_DATA
            end.

(** Whether an element carrying [attr] occurs in the serialized tree. *)
Fixpoint mentions (attr : jsstring) (s : Serialized) : bool :=
  match s with
  | SNode _ _ _ attrs children _ _ =>
      match attrs with
      | Some a => match lookup_attr attr a with
                  | Some _ => true
                  | None => false
                  end
      | None => false
      end
      || match children with
         | Some cs =>
             (fix any (l : list Serialized) : bool :=
                match l with
                | [] => false
                | c :: l' => mentions attr c || any l'
                end) cs
         | None => false
         end
  end.

(** Induction on a node, with the property known for its children. *)
Fixpoint Node_induction (P : Node -> Prop)
  (Helement : forall o e cs, Forall P cs -> P (Element o e cs))
  (Htext : forall o d, P (Text o d))
  (Hcomment : forall o d, P (Comment o d))
  (n : Node) : P n :=
  match n with
  | Element o e cs =>
      Helement o e cs
        ((fix all (l : list Node) : Forall P l :=
            match l with
            | [] => @List.Forall_nil Node P
            | c :: l' =>
                @List.Forall_cons Node P c l'
                  (Node_induction P Helement Htext Hcomment c) (all l')
            end) cs)
  | Text o d => Htext o d
  | Comment o d => Hcomment o d
  end.

End Mutations.

(* ===================================================================== *)
(** ** src/client/recorder/InputRecorder.js: the handlers *)
(* ===================================================================== *)

Module InputHandlers.
Import Dom InputRecorder.

(** What the handlers read of [e.target]. *)
Record Target := {
  node : Located;                      (* the element and its ancestors *)
  control : Control;                   (* its form-control properties *)
  value : jsstring;                    (* target.value *)
  selectionStart : option Z;
  selectionEnd : option Z;
  checked : bool;
  selectedIndex : Z;
  selectedText : option jsstring;      (* options[selectedIndex]?.text *)
}.

(** The [data] of the events the handlers build. *)
Inductive InputData :=
| TextInput (selector tagName inputType value : jsstring) (masked : bool)
    (selectionStart selectionEnd : option Z)
| SelectChange (selector : jsstring) (selectedIndex : Z)
    (value selectedText : jsstring)
| CheckChange (selector inputType : jsstring) (checked : bool)
    (value : jsstring) (name : option jsstring)
| FocusChange (selector tagName action : jsstring).

Definition tag (t : Target) : jsstring := node_tagName (self (node t)).

(** [handlers.input(e)]: the [data] of the event handed to [onEvent], if
    any; a null target is [None]. *)
Definition input (this : Options) (target : option Target)
  : option InputData :=
  match target with
  | None => None
  | Some t =>
      if isExcluded this (Some (node t)) then None
      else if negb (Js.eqb (tag t) (js "INPUT"))
              && negb (Js.eqb (tag t) (js "TEXTAREA")) then None
      else
        let isMasked := shouldMask this (control t) in
        let v := if isMasked then maskValue (value t) else value t in
        Some (TextInput (getSelector (node t)) (tag t)
                (if isHTMLInputElement (control t)
                 then type (control t) else js "textarea")
                v isMasked (selectionStart t) (selectionEnd t))
  end.

(** [handlers.change(e)] *)
Definition change (this : Options) (target : option Target)
  : option InputData :=
  match target with
  | None => None
  | Some t =>
      if isExcluded this (Some (node t)) then None
      else if Js.eqb (tag t) (js "SELECT") then
        Some (SelectChange (getSelector (node t)) (selectedIndex t)
                (value t) (or_empty (selectedText t)))
      else if Js.eqb (tag t) (js "INPUT") then
        let inputType := toLowerCase (type (control t)) in
        if Js.eqb inputType (js "checkbox") || Js.eqb inputType (js "radio")
        then Some (CheckChange (getSelector (node t)) inputType (checked t)
                     (value t) (name (control t)))
        else None
      else None
  end.

(** [handlers.focus(e)] and [handlers.blur(e)], by their [action]. *)
Definition focus_or_blur (action : jsstring) (this : Options)
  (target : option Target) : option InputData :=
  match target with
  | None => None
  | Some t =>
      if isExcluded this (Some (node t)) then None
      else if negb (Js.eqb (tag t) (js "INPUT"))
              && negb (Js.eqb (tag t) (js "TEXTAREA"))
              && negb (Js.eqb (tag t) (js "SELECT")) then None
      else Some (FocusChange (getSelector (node t)) (tag t) action)
  end.

Definition focus := focus_or_blur (js "focus").
Definition blur := focus_or_blur (js "blur").

End InputHandlers.

Module Samples.
Import Dom Events.

(** The page after [history.pushState] to a product page. *)
Definition at_product : Window :=
  {| location_href := js "https://shop.example/product/7";
     document_title := js "Product";
     document_referrer := [];
     Date_now := 1700000006000;
     innerWidth := 1280; innerHeight := 720;
     pageXOffset := 0; pageYOffset := 0;
     doctype := Some (js "html", [], []) |}.

(** [<form data-ym-disable><input type="text" name="note"></form>] *)
Definition note_input : Node :=
  Element 32 (Page.el "INPUT" [("type", "text"); ("name", "note")]) [].

Definition private_form : Node :=
  Element 31 (Page.el "FORM" [("data-ym-disable", "")]) [note_input].

Definition note_field : InputHandlers.Target :=
  {| InputHandlers.node :=
       {| self := note_input; ancestors := [private_form] |};
     InputHandlers.control :=
       {| InputRecorder.isHTMLInputElement := true;
          InputRecorder.type := js "text";
          InputRecorder.autocomplete := Some [];
          InputRecorder.name := Some (js "note");
          InputRecorder.id := Some [];
          InputRecorder.placeholder := Some [];
          InputRecorder.attributeNames := [js "type"; js "name"] |};
     InputHandlers.value := js "hello";
     InputHandlers.selectionStart := Some 5%Z;
     InputHandlers.selectionEnd := Some 5%Z;
     InputHandlers.checked := false;
     InputHandlers.selectedIndex := (-1)%Z;
     InputHandlers.selectedText := None |}.

(** [<input type="text" name="UserPassword2">], not excluded. *)
Definition password_input : Node :=
  Element 33 (Page.el "INPUT" [("type", "text"); ("name", "UserPassword2")])
    [].

Definition password_field : InputHandlers.Target :=
  {| InputHandlers.node := {| self := password_input; ancestors := [] |};
     InputHandlers.control :=
       {| InputRecorder.isHTMLInputElement := true;
          InputRecorder.type := js "text";
          InputRecorder.autocomplete := Some [];
          InputRecorder.name := Some (js "UserPassword2");
          InputRecorder.id := Some [];
          InputRecorder.placeholder := Some [];
          InputRecorder.attributeNames := [js "type"; js "name"] |};
     InputHandlers.value := js "hunter2";
     InputHandlers.selectionStart := Some 7%Z;
     InputHandlers.selectionEnd := Some 7%Z;
     InputHandlers.checked := false;
     InputHandlers.selectedIndex := (-1)%Z;
     InputHandlers.selectedText := None |}.

(** The password field once [v] has been typed into it: the caret is at
    the end of the text. *)
Definition typed (v : jsstring) : InputHandlers.Target :=
  {| InputHandlers.node := {| self := password_input; ancestors := [] |};
     InputHandlers.control := InputHandlers.control password_field;
     InputHandlers.value := v;
     InputHandlers.selectionStart := Some (Z.of_nat (length v));
     InputHandlers.selectionEnd := Some (Z.of_nat (length v));
     InputHandlers.checked := false;
     InputHandlers.selectedIndex := (-1)%Z;
     InputHandlers.selectedText := None |}.

Definition defaults : InputRecorder.Options :=
  InputRecorder.create None None None.

Definition pointer : InteractionRecorder.InteractionOptions :=
  {| InteractionRecorder.mouseThrottle := 50;
     InteractionRecorder.scrollThrottle := 100;
     InteractionRecorder.excludeAttribute := js "data-ym-disable" |}.

End Samples.

(* ===================================================================== *)
(** ** SessionStore: listing and cleanup (server/storage/SessionStore.js) *)
(* ===================================================================== *)

Module SessionFiles.
Import Wire.

(** What [stat] reads of a file: [mtime.getTime()] and [size]. *)
Record Stats := {
  st_mtime : Z;
  st_size : Z;
}.

(** One entry of the list that [listSessions] returns. *)
Record Listed := {
  sessionId : jsstring;
  updatedAt : Z;
  size : Z;
}.

Record Listing := {
  sessions : list Listed;
  total : nat;
  limit : Z;
  offset : Z;
}.

Definition JSON_EXT : jsstring := js ".json".

(** [s.endsWith(suffix)] *)
Definition endsWith (suffix s : jsstring) : bool :=
  Js.eqb (drop (length s - length suffix) s) suffix.

(** [s.replace(pat, rep)] for a string pattern: the first occurrence of
    [pat] is replaced.  The one replacement used, the empty string, has
    no [$] pattern. *)
Fixpoint replace (pat rep s : jsstring) {struct s} : jsstring :=
  if startsWith pat s then rep ++ drop (length pat) s
  else match s with
       | [] => []
       | c :: s' => c :: replace pat rep s'
       end.

(** Where a stable sort by [(a, b) => b.updatedAt - a.updatedAt] puts
    [a] in front of a list that is already sorted: before the first
    entry that is not newer than [a]. *)
Fixpoint place (a : Listed) (sorted : list Listed) : list Listed :=
  match sorted with
  | [] => [a]
  | b :: rest =>
      if (updatedAt a <? updatedAt b)%Z then b :: place a rest
      else a :: sorted
  end.

(** [sessions.sort((a, b) => b.updatedAt - a.updatedAt)].
    [Array.prototype.sort] is stable, which fixes its result for this
    comparator: newest first, entries of one time in their order of
    arrival. *)
Definition sort (l : list Listed) : list Listed := foldr place [] l.

(** How [slice] reads an index: a negative one counts from the end. *)
Definition relative (len : nat) (k : Z) : nat :=
  if (k <? 0)%Z then Z.to_nat (Z.max (Z.of_nat len + k) 0)
  else Nat.min (Z.to_nat k) len.

(** [l.slice(start, finish)] *)
Definition slice {A} (start finish : Z) (l : list A) : list A :=
  let from := relative (length l) start in
  let to := relative (length l) finish in
  take (to - from) (drop from l).

(** The callback of [sessionFiles.map]; [stat] fails on a path it cannot
    read. *)
Definition describe (this : SessionStore.t)
  (stat : jsstring -> option Stats) (file : jsstring) : option Listed :=
  match stat (Path.join (SessionStore.storagePath this) file) with
  | Some fileStat =>
      Some {| sessionId := replace JSON_EXT [] file;
              updatedAt := st_mtime fileStat;
              size := st_size fileStat |}
  | None => None
  end.

(** The result of the [catch] branch. *)
Definition nothing_listed (lim off : Z) : Listing :=
  {| sessions := []; total := 0; limit := lim; offset := off |}.

(** [listSessions(options)], once [init()] has made the storage
    directory; [readdir] is the outcome of reading that directory,
    [stat] that of reading one file's status, and the two options are
    absent or integers. *)
Definition listSessions (this : SessionStore.t)
  (readdir : option (list jsstring)) (stat : jsstring -> option Stats)
  (options_limit options_offset : option Z) : Listing :=
  let lim := default 50%Z options_limit in
  let off := default 0%Z options_offset in
  match readdir with
  | Some files =>
      let sessionFiles := List.filter (endsWith JSON_EXT) files in
      match mapM (describe this stat) sessionFiles with
      | Some described =>
          let sorted := sort described in
          {| sessions := slice off (off + lim) sorted;
             total := length sorted;
             limit := lim; offset := off |}
      | None => nothing_listed lim off
      end
  | None => nothing_listed lim off
  end.

(** The [for] loop of [cleanup]: the paths unlinked, in order.  A [stat]
    or an [unlink] that fails throws, which ends the loop. *)
Fixpoint cleanup_loop (this : SessionStore.t) (cutoff : Z)
  (stat : jsstring -> option Stats) (unlink : jsstring -> bool)
  (files : list jsstring) : list jsstring :=
  match files with
  | [] => []
  | file :: rest =>
      if negb (endsWith JSON_EXT file)
      then cleanup_loop this cutoff stat unlink rest
      else
        let filePath := Path.join (SessionStore.storagePath this) file in
        match stat filePath with
        | None => []
        | Some fileStat =>
            if (st_mtime fileStat <? cutoff)%Z then
              if unlink filePath
              then filePath :: cleanup_loop this cutoff stat unlink rest
              else []
            else cleanup_loop this cutoff stat unlink rest
        end
  end.

(** [cleanup()], once [init()] has made the storage directory: the
    paths it unlinks; [now] is what [Date.now()] reads. *)
Definition cleanup (this : SessionStore.t) (now : Z)
  (readdir : option (list jsstring)) (stat : jsstring -> option Stats)
  (unlink : jsstring -> bool) : list jsstring :=
  let cutoff :=
    (now - SessionStore.retentionDays this * 24 * 60 * 60 * 1000)%Z in
  match readdir with
  | Some files => cleanup_loop this cutoff stat unlink files
  | None => []
  end.

(** A file that the loop of [cleanup] is to unlink. *)
Definition expired (this : SessionStore.t) (cutoff : Z)
  (stat : jsstring -> option Stats) (file : jsstring) : bool :=
  endsWith JSON_EXT file
  && match stat (Path.join (SessionStore.storagePath this) file) with
     | Some fileStat => (st_mtime fileStat <? cutoff)%Z
     | None => false
     end.

(** One call of [storeEvents]: the time it is made at and its
    arguments. *)
Record Batch := {
  b_now : Z;
  b_events : list PostedEvent;
  b_meta : Meta;
}.

(** Calls of [storeEvents] for one session identifier, one after the
    other. *)
Definition store_all (this : SessionStore.t) (sid : jsstring)
  (batches : list Batch) (fs : SessionStore.FS) : SessionStore.FS :=
  foldl (fun fs b =>
           snd (SessionStore.storeEvents this (b_now b) sid
                  (b_events b) (b_meta b) fs))
        fs batches.

(** Newest first. *)
Fixpoint newest_first (l : list Listed) : Prop :=
  match l with
  | [] => True
  | a :: rest =>
      Forall (fun b => (updatedAt b <= updatedAt a)%Z) rest
      /\ newest_first rest
  end.

(** The entries of one modification time. *)
Definition at_time (t : Z) (e : Listed) : bool := (updatedAt e =? t)%Z.

End SessionFiles.

(** A storage directory: three session files and a file of another
    kind, and what [stat] reads of them. *)
Module Stored.
Import SessionFiles.

Definition files : list jsstring :=
  [js "b.json"; js "notes.txt"; js "a.json"; js "c.json"].

Definition stat (path : jsstring) : option Stats :=
  if Js.eqb path (js "data/sessions/a.json")
  then Some {| st_mtime := 1700000300000; st_size := 812 |}
  else if Js.eqb path (js "data/sessions/b.json")
  then Some {| st_mtime := 1700000200000; st_size := 96 |}
  else if Js.eqb path (js "data/sessions/c.json")
  then Some {| st_mtime := 1700000200000; st_size := 2048 |}
  else if Js.eqb path (js "data/sessions/notes.txt")
  then Some {| st_mtime := 1600000000000; st_size := 5 |}
  else None.

(** Fifteen days after the modification time of [b.json] and [c.json]. *)
Definition later : Z := 1700000200000 + 15 * 24 * 60 * 60 * 1000.

End Stored.

(* ===================================================================== *)
(** ** PostgresStore: deleteSession and cleanup, and what the tables keep
       (server/storage/PostgresStore.js) *)
(* ===================================================================== *)

Module PostgresMaintenance.
Import Wire PostgresStore.

(** The rows of [events] of one session. *)
Definition event_rows (sessionId : jsstring) (db : DB) : list EventRow :=
  List.filter (fun e => Js.eqb (e_session_id e) sessionId) (events db).

(** The rows of [visitors] of one fingerprint. *)
Definition visitor_rows (fingerprint : jsstring) (db : DB)
  : list VisitorRow :=
  List.filter (fun v => Js.eqb (v_fingerprint v) fingerprint) (visitors db).

(** [DELETE FROM events WHERE session_id = $1] *)
Definition delete_events (sessionId : jsstring) : Tx unit :=
  fun db =>
    inr (tt,
         set_events
           (List.filter (fun e => negb (Js.eqb (e_session_id e) sessionId))
                        (events db))
           (next_event_id db) db).

(** [DELETE FROM sessions WHERE session_id = $1 RETURNING id] *)
Definition delete_session (sessionId : jsstring) : Tx (list nat) :=
  fun db =>
    inr (map s_id (session_rows sessionId db),
         set_sessions
           (List.filter (fun s => negb (Js.eqb (s_session_id s) sessionId))
                        (sessions db))
           (next_session_id db) db).

(** The body of the transaction of [deleteSession]. *)
Definition deleteSession_body (sessionId : jsstring) : Tx bool :=
  exec delete_events sessionId in
  do result := delete_session sessionId in
  ret (0 <? length result)%nat.

(** [deleteSession(sessionId)]: what it returns and the tables after
    COMMIT, or the error thrown after ROLLBACK. *)
Definition deleteSession (sessionId : jsstring) (db : DB)
  : SqlError + (bool * DB) :=
  deleteSession_body sessionId db.

(** [session_id = ANY($1)] *)
Definition any (sessionIds : list jsstring) (id : jsstring) : bool :=
  existsb (Js.eqb id) sessionIds.

(** [SELECT session_id FROM sessions WHERE updated_at < $1] *)
Definition select_expired (cutoffDate : Z) : Tx (list jsstring) :=
  fun db =>
    inr (map s_session_id
             (List.filter (fun s => (s_updated_at s <? cutoffDate)%Z)
                          (sessions db)),
         db).

(** [DELETE FROM events WHERE session_id = ANY($1)] *)
Definition delete_events_any (sessionIds : list jsstring) : Tx unit :=
  fun db =>
    inr (tt,
         set_events
           (List.filter (fun e => negb (any sessionIds (e_session_id e)))
                        (events db))
           (next_event_id db) db).

(** [DELETE FROM sessions WHERE session_id = ANY($1)] *)
Definition delete_sessions_any (sessionIds : list jsstring) : Tx unit :=
  fun db =>
    inr (tt,
         set_sessions
           (List.filter (fun s => negb (any sessionIds (s_session_id s)))
                        (sessions db))
           (next_session_id db) db).

(** The body of the transaction of [cleanup]; [cutoffDate] is the date
    that [setDate] computes, [retentionDays] days before the call. *)
Definition cleanup_body (cutoffDate : Z) : Tx unit :=
  do sessionIds := select_expired cutoffDate in
  match sessionIds with
  | [] => ret tt
  | _ =>
      exec delete_events_any sessionIds in
      delete_sessions_any sessionIds
  end.

Definition cleanup (cutoffDate : Z) (db : DB) : SqlError + DB :=
  match cleanup_body cutoffDate db with
  | inl e => inl e
  | inr (_, db') => inr db'
  end.

(** The row that the INSERT of [storeEvents] writes for an event. *)
Definition stored_as (now : Z) (sessionId : jsstring) (ev : PostedEvent)
  (row : EventRow) : Prop :=
  e_session_id row = sessionId
  /\ type ev = Some (e_event_type row)
  /\ timestamp ev = Some (e_timestamp row)
  /\ e_data row = default (js "{}") (data ev)
  /\ e_created_at row = now.

(** What the three operations keep of the tables: one row for a session
    identifier, as the UNIQUE constraint has it; a count on each session
    row that is the number of event rows of that session; no event row
    without its session row. *)
Definition consistent (db : DB) : Prop :=
  NoDup (map s_session_id (sessions db))
  /\ (forall s, In s (sessions db) ->
                s_event_count s
                = Z.of_nat (length (event_rows (s_session_id s) db)))
  /\ (forall e, In e (events db) ->
                exists s, In s (sessions db)
                          /\ s_session_id s = e_session_id e).

End PostgresMaintenance.

(* ===================================================================== *)
(** ** Static files (server/index.js) *)
(* ===================================================================== *)

Module Static.

(** [s.replace(/\.\./g, '')]: the pairs of dots, found from the left,
    are removed. *)
Fixpoint remove_dotdot (s : jsstring) : jsstring :=
  match s with
  | a :: ((b :: s'') as s') =>
      if (a =? Path.DOT)%N && (b =? Path.DOT)%N
      then remove_dotdot s''
      else a :: remove_dotdot s'
  | _ => s
  end.

(** [s.replace(/\/+/g, '/')]: a run of separators becomes one. *)
Fixpoint collapse_slashes (s : jsstring) : jsstring :=
  match s with
  | a :: ((b :: _) as s') =>
      if (a =? Path.SLASH)%N && (b =? Path.SLASH)%N
      then collapse_slashes s'
      else a :: collapse_slashes s'
  | _ => s
  end.

(** [safePath] of [serveStatic] *)
Definition safePath (filePath : jsstring) : jsstring :=
  collapse_slashes (remove_dotdot filePath).

(** [fullPath] of [serveStatic]: the file it reads. *)
Definition fullPath (PROJECT_ROOT filePath : jsstring) : jsstring :=
  Path.join PROJECT_ROOT (safePath filePath).

(** The segments of [safePath] that [join] keeps. *)
Definition kept (filePath : jsstring) : list jsstring :=
  List.filter (fun seg => negb (falsy seg || Path.is_dot seg))
              (Path.split (safePath filePath)).

End Static.

(* ===================================================================== *)
(** * Properties *)
(* ===================================================================== *)

(** ** JavaScript strings *)

Module JsFacts.

Lemma eqb_eq (s t : jsstring) : Js.eqb s t = true <-> s = t.
Proof.
  revert t; induction s as [|a s IH]; intros [|b t]; simpl; try easy.
  rewrite andb_true_iff, N.eqb_eq, IH. split.
  - intros [-> ->]; reflexivity.
  - intros [= -> ->]; auto.
Qed.

Lemma eqb_refl (s : jsstring) : Js.eqb s s = true.
Proof. apply eqb_eq; reflexivity. Qed.

Lemma eqb_neq (s t : jsstring) : Js.eqb s t = false <-> s <> t.
Proof.
  destruct (Js.eqb s t) eqn:E.
  - apply eqb_eq in E. split; [discriminate | contradiction].
  - split; [|reflexivity]. intros _ H. apply eqb_eq in H. congruence.
Qed.

End JsFacts.

(** ** Masking (InputRecorder.js) *)

Module InputRecorderFacts.
Import InputRecorder MaskSpec.

(** What [shouldMask] computes, in one expression: the explicit attribute
    is consulted only under [maskSensitiveInputs]. *)
Lemma shouldMask_unfold (this : Options) (e : Control) :
  shouldMask this e
  = opt_maskAllInputs this
    || (opt_maskSensitiveInputs this
        && (sensitive_input e || sensitive_name e
            || hasAttribute e (js "data-ym-mask"))).
Proof.
  unfold shouldMask.
  destruct (opt_maskAllInputs this), (opt_maskSensitiveInputs this),
    (sensitive_input e), (sensitive_name e),
    (hasAttribute e (js "data-ym-mask")); reflexivity.
Qed.

(** With the automatic detection switched on, the code and the
    specification's rule order agree. *)
Lemma shouldMask_spec_when_sensitive_on (this : Options) (e : Control) :
  opt_maskSensitiveInputs this = true ->
  shouldMask this e = shouldMask_spec this e.
Proof.
  intros H. rewrite shouldMask_unfold. unfold shouldMask_spec. rewrite H.
  destruct (opt_maskAllInputs this), (sensitive_input e),
    (sensitive_name e), (hasAttribute e (js "data-ym-mask")); reflexivity.
Qed.

(** C3 (code at the failing input).  With [maskAllInputs] and
    [maskSensitiveInputs] both false, [shouldMask] answers false for an
    element that carries [data-ym-mask], where the rule order of the
    specification answers true: the early return on
    [!this.maskSensitiveInputs] comes before the attribute check. *)
Theorem shouldMask_skips_mask_attribute :
  hasAttribute Fields.manual_mask_field (js "data-ym-mask") = true
  /\ shouldMask Fields.sensitive_off Fields.manual_mask_field = false
  /\ shouldMask_spec Fields.sensitive_off Fields.manual_mask_field = true.
Proof. vm_compute. repeat split. Qed.

(** The same for every element: with [maskSensitiveInputs] false and
    [maskAllInputs] false nothing is masked. *)
Lemma shouldMask_sensitive_off (this : Options) (e : Control) :
  opt_maskAllInputs this = false ->
  opt_maskSensitiveInputs this = false ->
  shouldMask this e = false.
Proof. intros H1 H2. unfold shouldMask. rewrite H1, H2. reflexivity. Qed.

Lemma maskValue_replicate (v : jsstring) :
  maskValue v = replicate (Nat.min (length v) 20) MASK_CHAR.
Proof. destruct v; reflexivity. Qed.

(** C4.  For every string [v], [maskValue v] consists of the mask
    character only, has length [min (length v) 20], and masking it again
    changes nothing. *)
Theorem maskValue_bounded_idempotent (v : jsstring) :
  Forall (fun c => c = MASK_CHAR) (maskValue v)
  /\ length (maskValue v) = Nat.min (length v) 20
  /\ maskValue (maskValue v) = maskValue v.
Proof.
  rewrite !maskValue_replicate. rewrite !length_replicate.
  split; [|split].
  - induction (Nat.min (length v) 20) as [|n IH]; simpl; constructor; auto.
  - reflexivity.
  - f_equal. lia.
Qed.

End InputRecorderFacts.

(** ** The node registry and the mutation watcher (DOMRecorder.js) *)

Module DOMRecorderFacts.
Import Dom Events DOMRecorder.

Lemma getNodeId_fresh (this : t) (node : nat) :
  nodeIdMap this !! node = None ->
  getNodeId node this = (Some (nextNodeId this), register node this).
Proof.
  intros H. unfold getNodeId. rewrite H. simpl.
  now rewrite lookup_insert_eq.
Qed.

Lemma getNodeId_known (this : t) (node i : nat) :
  nodeIdMap this !! node = Some i ->
  getNodeId node this = (Some i, this).
Proof. intros H. unfold getNodeId. rewrite H. simpl. now rewrite H. Qed.

Lemma create_ok (a : option jsstring) : Registry.ok (create a).
Proof.
  split; simpl; intros *; rewrite lookup_empty; discriminate.
Qed.

Lemma register_ok (this : t) (node : nat) :
  Registry.ok this -> Registry.ok (register node this).
Proof.
  intros [Hlt Hinj]. split; simpl.
  - intros n i. rewrite lookup_insert. case_decide.
    + intros [= <-]. lia.
    + intros H'. apply Hlt in H'. lia.
  - intros n m i. rewrite !lookup_insert.
    repeat case_decide; subst; try congruence.
    + intros [= <-] H'. apply Hlt in H'. lia.
    + intros H' [= <-]. apply Hlt in H'. lia.
    + apply Hinj.
Qed.

(** The counter is not yet the identifier of any node. *)
Lemma next_unused (this : t) (m : nat) :
  Registry.ok this -> nodeIdMap this !! m <> Some (nextNodeId this).
Proof. intros [Hlt _] H. apply Hlt in H. lia. Qed.

Lemma getNodeId_ok (this : t) (node : nat) :
  Registry.ok this -> Registry.ok (snd (getNodeId node this)).
Proof.
  intros Hok. destruct (nodeIdMap this !! node) as [i|] eqn:E.
  - rewrite (getNodeId_known _ _ _ E). exact Hok.
  - rewrite (getNodeId_fresh _ _ E). now apply register_ok.
Qed.

(** A call never changes the identifier of a node that has one, never
    lowers the counter, and answers with the identifier it leaves
    recorded for its node. *)
Lemma getNodeId_spec (this : t) (node : nat) :
  let '(r, this') := getNodeId node this in
  (forall n i, nodeIdMap this !! n = Some i -> nodeIdMap this' !! n = Some i)
  /\ nextNodeId this <= nextNodeId this'
  /\ exists i, r = Some i /\ nodeIdMap this' !! node = Some i.
Proof.
  destruct (nodeIdMap this !! node) as [i|] eqn:E.
  - rewrite (getNodeId_known _ _ _ E). repeat split; eauto.
  - rewrite (getNodeId_fresh _ _ E). simpl. repeat split.
    + intros n i Hn. rewrite lookup_insert_ne; [exact Hn | congruence].
    + lia.
    + exists (nextNodeId this). now rewrite lookup_insert_eq.
Qed.

Lemma calls_spec (nodes : list nat) (this : t) :
  Registry.ok this ->
  let '(ids, this') := Registry.calls nodes this in
  Registry.ok this'
  /\ (forall n i, nodeIdMap this !! n = Some i ->
                  nodeIdMap this' !! n = Some i)
  /\ nextNodeId this <= nextNodeId this'
  /\ (forall k n, nodes !! k = Some n ->
        exists i, ids !! k = Some (Some i)
                  /\ nodeIdMap this' !! n = Some i).
Proof.
  revert this. induction nodes as [|node nodes IH]; intros this Hok.
  - simpl. split; [exact Hok|]. split; [auto|]. split; [lia|].
    intros k n H. destruct k; discriminate H.
  - unfold Registry.calls. simpl. unfold bind at 1.
    pose proof (getNodeId_spec this node) as Hs.
    pose proof (getNodeId_ok this node Hok) as Hok1.
    destruct (getNodeId node this) as [r this1]. simpl in Hok1.
    destruct Hs as (Hkeep1 & Hle1 & i & -> & Hhere).
    specialize (IH this1 Hok1). unfold Registry.calls in IH.
    unfold bind at 1.
    destruct (mapM getNodeId nodes this1) as [ids this2].
    destruct IH as (Hok2 & Hkeep2 & Hle2 & Hids). simpl.
    split; [exact Hok2|]. split; [auto|]. split; [lia|].
    intros [|k] n Hk; simpl in *.
    + injection Hk as <-. exists i. split; auto.
    + apply Hids. exact Hk.
Qed.

(** C9.  After any history of [getNodeId] calls on a new recorder:
    every call has answered with the identifier that is now recorded for
    its node, so two calls on one node gave the same integer; no integer
    is recorded for two nodes; every recorded identifier is below the
    counter; and the next call answers a known node with its recorded
    identifier, without change, and gives a new node the current value
    of the counter, which no node has, and increments the counter. *)
Theorem getNodeId_stable_injective (a : option jsstring)
  (nodes : list nat) :
  let '(ids, this) := Registry.calls nodes (create a) in
  (forall k n, nodes !! k = Some n ->
     exists i, ids !! k = Some (Some i) /\ nodeIdMap this !! n = Some i)
  /\ (forall n m i,
        nodeIdMap this !! n = Some i -> nodeIdMap this !! m = Some i ->
        n = m)
  /\ (forall n i, nodeIdMap this !! n = Some i -> i < nextNodeId this)
  /\ (forall node i,
        nodeIdMap this !! node = Some i ->
        getNodeId node this = (Some i, this))
  /\ (forall node,
        nodeIdMap this !! node = None ->
        getNodeId node this = (Some (nextNodeId this), register node this)
        /\ nextNodeId (register node this) = S (nextNodeId this)
        /\ forall m, nodeIdMap this !! m <> Some (nextNodeId this)).
Proof.
  pose proof (calls_spec nodes (create a) (create_ok a)) as H.
  destruct (Registry.calls nodes (create a)) as [ids this].
  destruct H as (Hok & _ & _ & Hids).
  split; [exact Hids|]. split; [apply Hok|]. split; [apply Hok|]. split.
  - intros node i. apply getNodeId_known.
  - intros node Hnone. split; [now apply getNodeId_fresh|].
    split; [reflexivity|]. intros m. now apply next_unused.
Qed.

(** *** Exclusion *)

(** On a chain of elements, the walk of [isExcluded] finds the attribute
    exactly when the element or one of its ancestors carries it. *)
Lemma isExcluded_loop_spec (attr : jsstring) (chain : list Node) :
  Forall (fun n => is_element n = true) chain ->
  isExcluded_loop attr chain
  = existsb (fun n => hasAttribute n attr) chain
  /\ InputRecorder.isExcluded_loop attr chain
     = existsb (fun n => hasAttribute n attr) chain.
Proof.
  induction 1 as [|n chain Hn _ [IH1 IH2]]; [split; reflexivity|].
  simpl. rewrite Hn, IH1, IH2. simpl.
  destruct (hasAttribute n attr); split; reflexivity.
Qed.

(** *** Exclusion in [processMutations] *)

(** A mutation whose target is an element under the exclusion attribute
    is skipped. *)
Lemma excluded_element_target_skipped (w : Window) (m : MutationRecord)
  (this : t) :
  is_element (self (target m)) = true ->
  isExcluded this (target m) = true ->
  process_one w m this = (None, this).
Proof. intros H1 H2. unfold process_one. now rewrite H1, H2. Qed.

(** A mutation whose target is not an element is never skipped, whatever
    its ancestors carry: the guard of the loop asks for an element
    target. *)
Lemma text_target_never_skipped (w : Window) (m : MutationRecord)
  (this : t) :
  is_element (self (target m)) = false ->
  exists ev this', process_one w m this = (Some ev, this').
Proof.
  intros H. unfold process_one. rewrite H. simpl.
  unfold bind. destruct (getNodeId _ this) as [i this1].
  destruct (payload_of m this1) as [p this2]. simpl. eauto.
Qed.

(** In particular a character-data mutation of a text node is always
    recorded, with the old and the new text. *)
Lemma text_change_recorded (w : Window) (m : MutationRecord) (this : t) :
  mtype m = characterData ->
  is_element (self (target m)) = false ->
  exists i this',
    process_one w m this
    = (Some (event DOM_MUTATION (Date_now w)
               (MutationData (Some i) []
                  (CharacterDataPayload (oldValue m)
                     (textContent (self (target m)))))),
       this').
Proof.
  intros Hty Hel. unfold process_one. rewrite Hel. simpl.
  unfold bind.
  pose proof (getNodeId_spec this (oid (self (target m)))) as Hs.
  destruct (getNodeId _ this) as [r this1].
  destruct Hs as (_ & _ & i & -> & _).
  unfold payload_of. rewrite Hty. unfold ret.
  unfold getSelector. rewrite Hel. simpl. eauto.
Qed.

(** The pieces of the sample page are where the page has them. *)
Lemma page_located :
  locate Page.html [0; 0; 0] = Some Page.secret_text
  /\ locate Page.html [0; 0] = Some Page.the_div
  /\ locate Page.html [0] = Some Page.the_body.
Proof. repeat split. Qed.

(** C1 (code at the failing input).  On the sample page the text node
    lies in the [div] that carries [data-ym-disable]; the snapshot leaves
    the [div] out, and a mutation of the [div] itself is skipped, but the
    character-data mutation of the text node produces a mutation event
    that carries the old and the new text. *)
Theorem excluded_text_mutation_is_recorded :
  hasAttribute Page.private_div (excludeAttribute Page.recorder) = true
  /\ ancestors Page.secret_text = [Page.private_div; Page.body; Page.html]
  /\ fst (processMutations Page.window [Page.div_changed] Page.recorder)
     = []
  /\ fst (processMutations Page.window [Page.text_changed] Page.recorder)
     = [ event DOM_MUTATION (Date_now Page.window)
           (MutationData (Some 1) []
              (CharacterDataPayload (Some (js "secre")) (js "secret"))) ].
Proof. vm_compute. repeat split. Qed.

(** The second leak, from the same cause ([serializeNode(node)] is called
    without the set of excluded elements): a subtree appended under a
    recorded element is serialized whole, with the excluded [span] and
    its text. *)
Lemma added_subtree_serialized_whole :
  hasAttribute Page.hidden_span (excludeAttribute Page.recorder) = true
  /\ fst (processMutations Page.window [Page.section_added] Page.recorder)
     = [ event DOM_MUTATION (Date_now Page.window)
           (MutationData (Some 1) (js "html > body")
              (ChildListPayload
                 [ {| added_id := Some 2;
                      added_node :=
                        Some (SNode ELEMENT_NODE (js "SECTION") None None
                                (Some
                                   [SNode ELEMENT_NODE (js "SPAN") None
                                      (Some [(js "data-ym-disable", [])])
                                      (Some
                                         [SNode TEXT_NODE (js "#text")
                                            (Some (js "hidden"))
                                            None None None None])
                                      None None])
                                None None) |} ]
                 [])) ].
Proof. vm_compute. repeat split. Qed.

(** The snapshot of the sample page holds the public paragraph only. *)
Lemma snapshot_leaves_div_out :
  data (captureSnapshot Page.recorder Page.window Page.html)
  = SnapshotData (Some (js "html", [], []))
      (Some (SNode ELEMENT_NODE (js "HTML") None None
               (Some
                  [SNode ELEMENT_NODE (js "BODY") None None
                     (Some
                        [SNode ELEMENT_NODE (js "P") None None
                           (Some
                              [SNode TEXT_NODE (js "#text")
                                 (Some (js "public")) None None None None])
                           None None])
                     None None])
               None None))
      (js "https://shop.example/cart") (js "Cart") (1280, 720)%Z (0, 0)%Z.
Proof. vm_compute. reflexivity. Qed.

(** *** Exclusion in the snapshot *)

Lemma add_children_spec (x : nat) (acc : gset nat) (l : list Node) :
  x ∈ foldl (fun acc child => {[ oid child ]} ∪ acc) acc l
  <-> x ∈ acc \/ exists child, child ∈ l /\ x = oid child.
Proof.
  revert acc. induction l as [|c l IH]; intros acc; simpl.
  - split; [auto|]. intros [H | (c & Hc & _)]; [exact H|].
    now apply elem_of_nil in Hc.
  - rewrite IH. rewrite elem_of_union, elem_of_singleton. split.
    + intros [[-> | H] | (c' & Hc' & ->)]; eauto.
      * right. exists c. split; [left|reflexivity].
      * right. exists c'. split; [now right|reflexivity].
    + intros [H | (c' & Hc' & ->)]; [auto|].
      apply elem_of_cons in Hc' as [-> | Hc']; eauto.
Qed.

(** The set that [captureSnapshot] builds holds exactly the identities
    of the elements that carry the attribute and of the elements below
    them. *)
Lemma excludedElements_spec (attr : jsstring) (root : Node) (x : nat) :
  x ∈ excludedElements attr root
  <-> exists el,
        el ∈ querySelectorAll_attr attr root
        /\ (x = oid el
            \/ exists d, d ∈ descendant_elements el /\ x = oid d).
Proof.
  unfold excludedElements.
  assert (G : forall (els : list Node) (acc : gset nat),
            x ∈ foldl (fun acc el =>
                         foldl (fun acc child => {[ oid child ]} ∪ acc)
                               ({[ oid el ]} ∪ acc)
                               (descendant_elements el)) acc els
            <-> x ∈ acc
                \/ exists el, el ∈ els
                     /\ (x = oid el
                         \/ exists d, d ∈ descendant_elements el
                                      /\ x = oid d)).
  { induction els as [|e els IH]; intros acc; simpl.
    - split; [auto|]. intros [H | (e & He & _)]; [exact H|].
      now apply elem_of_nil in He.
    - rewrite IH, add_children_spec, elem_of_union, elem_of_singleton.
      split.
      + intros [[[-> | H] | Hd] | (e' & He' & H)].
        * right. exists e. split; [left|auto].
        * auto.
        * right. exists e. split; [left|auto].
        * right. exists e'. split; [now right|auto].
      + intros [H | (e' & He' & H)]; [auto|].
        apply elem_of_cons in He' as [-> | He'].
        * destruct H as [-> | Hd]; auto.
        * right. eauto. }
  rewrite G. split.
  - intros [H | H]; [now apply elem_of_empty in H | exact H].
  - auto.
Qed.

(** An element that carries the attribute, anywhere in the document, is
    not serialized by the snapshot, and neither are the elements below
    it: they are in the set, and an element of the set gives null. *)
Lemma snapshot_omits_excluded (attr : jsstring) (root el : Node) :
  el ∈ subtree_elements root ->
  hasAttribute el attr = true ->
  serializeNode (excludedElements attr root) el = None
  /\ forall d, d ∈ descendant_elements el ->
       is_element d = true ->
       serializeNode (excludedElements attr root) d = None.
Proof.
  intros Hin Hattr.
  assert (Hq : el ∈ querySelectorAll_attr attr root).
  { unfold querySelectorAll_attr. apply list_elem_of_In, filter_In.
    split; [now apply list_elem_of_In | exact Hattr]. }
  assert (Hnull : forall n, is_element n = true ->
                    oid n ∈ excludedElements attr root ->
                    serializeNode (excludedElements attr root) n = None).
  { intros [o e cs| |] Hel Ho; try discriminate.
    simpl in *. now rewrite decide_True. }
  split.
  - apply Hnull.
    + unfold hasAttribute, getAttribute in Hattr.
      destruct el; [reflexivity | discriminate | discriminate].
    + apply excludedElements_spec. eauto.
  - intros d Hd Hel. apply Hnull; [exact Hel|].
    apply excludedElements_spec. exists el. eauto.
Qed.

(** Three calls, the first and the last on the same node. *)
Lemma getNodeId_stable_injective_witness :
  fst (Registry.calls [4; 7; 4] (create None)) = [Some 1; Some 2; Some 1]
  /\ forall n m i,
       nodeIdMap (snd (Registry.calls [4; 7; 4] (create None))) !! n
       = Some i ->
       nodeIdMap (snd (Registry.calls [4; 7; 4] (create None))) !! m
       = Some i ->
       n = m.
Proof.
  split; [reflexivity|].
  generalize (getNodeId_stable_injective None [4; 7; 4]).
  destruct (Registry.calls [4; 7; 4] (create None)) as [ids this].
  intros (_ & Hinj & _). exact Hinj.
Defined.

End DOMRecorderFacts.

(** ** The selector (DOMRecorder.js, getSelector) *)

Module SelectorFacts.
Import Dom SelectorLoop SelectorSpec.

(** *** The loop and its turns *)

Lemma loop_turns (chain : list Node) (parts : list jsstring) :
  length parts <= 5 ->
  getSelector_loop chain parts
  = rev (take (6 - length parts) (turns chain)) ++ parts.
Proof.
  revert parts. induction chain as [|current rest IH]; intros parts Hlen.
  - simpl. now rewrite take_nil.
  - simpl. destruct (negb (is_element current)).
    + now rewrite take_nil.
    + destruct (truthy (id current)).
      * destruct (6 - length parts) as [|k] eqn:E; [lia|].
        simpl. now rewrite take_nil.
      * destruct (6 - length parts) as [|k] eqn:E; [lia|].
        simpl length.
        destruct (5 <? S (length parts)) eqn:E5.
        -- apply Nat.ltb_lt in E5.
           assert (k = 0) as -> by lia. reflexivity.
        -- apply Nat.ltb_ge in E5.
           rewrite IH by (simpl; lia). simpl length.
           replace (6 - S (length parts)) with k by lia.
           simpl. now rewrite <- app_assoc.
Qed.

(** *** Class tokens *)

Lemma words_go_token (s cur : jsstring) :
  words_go cur s
  = match rev cur ++ token s with
    | [] => []
    | t => [t]
    end ++ words_go [] (after_token s).
Proof.
  revert cur. induction s as [|c s IH]; intros cur.
  - simpl. rewrite app_nil_r.
    destruct cur as [|d cur]; [reflexivity|].
    simpl. destruct (rev cur ++ [d]) eqn:E; [|now rewrite app_nil_r].
    now apply app_eq_nil in E as [_ E].
  - simpl. destruct (is_space c) eqn:Ec.
    + rewrite app_nil_r. simpl. rewrite Ec.
      destruct cur as [|d cur]; [reflexivity|].
      simpl. destruct (rev cur ++ [d]) eqn:E; [|reflexivity].
      now apply app_eq_nil in E as [_ E].
    + rewrite IH. simpl. now rewrite <- app_assoc.
Qed.

Lemma words_go_skip (s : jsstring) :
  words_go [] s = words_go [] (skip_spaces s).
Proof.
  induction s as [|c s IH]; [reflexivity|].
  simpl. destruct (is_space c) eqn:Ec; [exact IH|].
  simpl. now rewrite Ec.
Qed.

Lemma token_skip_nil (s : jsstring) :
  token (skip_spaces s) = [] -> skip_spaces s = [].
Proof.
  induction s as [|c s IH]; [reflexivity|].
  simpl. destruct (is_space c) eqn:Ec; [exact IH|].
  simpl. rewrite Ec. discriminate.
Qed.

(** The words of a string are its first token and the words of what
    follows it. *)
Lemma words_token (s : jsstring) :
  words s
  = match token (skip_spaces s) with
    | [] => []
    | t => t :: words (after_token (skip_spaces s))
    end.
Proof.
  unfold words. rewrite words_go_skip, words_go_token. simpl.
  destruct (token (skip_spaces s)) eqn:E; [|reflexivity].
  now rewrite (token_skip_nil s E).
Qed.

Lemma take_two_words (s : jsstring) :
  take 2 (words s)
  = List.filter truthy
      [token (skip_spaces s);
       token (skip_spaces (after_token (skip_spaces s)))].
Proof.
  rewrite words_token.
  destruct (token (skip_spaces s)) as [|c t] eqn:E1.
  - rewrite (token_skip_nil s E1). reflexivity.
  - rewrite words_token.
    destruct (token (skip_spaces (after_token (skip_spaces s))))
      as [|d u] eqn:E2; reflexivity.
Qed.

Lemma filter_truthy_head (l : list jsstring) :
  match List.filter truthy l with
  | [] => True
  | c0 :: _ => truthy c0 = true
  end.
Proof.
  induction l as [|x l IH]; [exact I|].
  simpl. destruct (truthy x) eqn:E; [exact E|exact IH].
Qed.

Lemma join_dots (toks : list jsstring) :
  toks <> [] ->
  js "." ++ Js.join (js ".") (map CSS_escape toks)
  = flat_map (fun c => js "." ++ CSS_escape c) toks.
Proof.
  induction toks as [|a toks IH]; [congruence|]. intros _.
  destruct toks as [|b toks].
  - simpl. now rewrite app_nil_r.
  - change (Js.join (js ".") (map CSS_escape (a :: b :: toks)))
      with (CSS_escape a
            ++ js "." ++ Js.join (js ".") (map CSS_escape (b :: toks))).
    rewrite IH by discriminate.
    change (flat_map (fun c => js "." ++ CSS_escape c) (a :: b :: toks))
      with ((js "." ++ CSS_escape a)
            ++ flat_map (fun c => js "." ++ CSS_escape c) (b :: toks)).
    now rewrite <- app_assoc.
Qed.

(** The class part that the code appends is the class part of the
    specification, except on an SVG element, where it is empty. *)
Lemma class_selector_spec (current : Node) :
  class_selector current
  = if is_svg current then [] else class_part current.
Proof.
  unfold class_selector, className, class_part, class_tokens,
    class_attribute, or_empty.
  destruct (is_svg current); [reflexivity|].
  set (s := match getAttribute current (js "class") with
            | Some s => s
            | None => []
            end).
  rewrite <- take_two_words.
  destruct (truthy s) eqn:Es.
  - unfold trim_split_spaces.
    pose proof (filter_truthy_head
                  [token (skip_spaces s);
                   token (skip_spaces (after_token (skip_spaces s)))])
      as Hhead.
    rewrite <- take_two_words in Hhead.
    destruct (words s) as [|w ws] eqn:Ew; [reflexivity|].
    destruct (take 2 (w :: ws)) as [|c0 cs] eqn:Et; [discriminate|].
    rewrite Hhead. now apply join_dots.
  - destruct s; [reflexivity|discriminate].
Qed.

(** *** Siblings *)

Lemma indexOf_preceding (current : Node) (l : list Node) (c0 : Node) (i : Z) :
  List.filter (fun c => is_node c current) l = [c0] ->
  same_tag c0 current = true ->
  indexOf_from i current (List.filter (fun c => same_tag c current) l)
  = (i + Z.of_nat
           (length (List.filter (fun c => same_tag c current)
                                (preceding current l))))%Z.
Proof.
  revert i. induction l as [|x l IH]; intros i Hone Hsame; [discriminate|].
  simpl in Hone. simpl preceding.
  destruct (is_node x current) eqn:Ex.
  - injection Hone as -> _.
    simpl. rewrite Hsame. simpl.
    unfold is_node in Ex. rewrite Ex. simpl. lia.
  - simpl. destruct (same_tag x current) eqn:Es.
    + simpl. unfold is_node in Ex. rewrite Ex.
      rewrite (IH (i + 1)%Z Hone Hsame). simpl length. lia.
    + now apply IH.
Qed.

Lemma same_without_node (current : Node) (l : list Node) :
  List.filter (fun c => is_node c current) l = [] ->
  List.filter (fun c => same_tag c current) l
  = List.filter (fun c => same_tag c current && negb (is_node c current)) l.
Proof.
  induction l as [|x l IH]; [reflexivity|].
  simpl. destruct (is_node x current) eqn:Ex; [discriminate|].
  intros H. rewrite andb_true_r.
  destruct (same_tag x current); now rewrite (IH H).
Qed.

Lemma same_tag_count (current : Node) (l : list Node) (c0 : Node) :
  List.filter (fun c => is_node c current) l = [c0] ->
  same_tag c0 current = true ->
  length (List.filter (fun c => same_tag c current) l)
  = S (length (List.filter
                 (fun c => same_tag c current && negb (is_node c current))
                 l)).
Proof.
  induction l as [|x l IH]; intros Hone Hsame; [discriminate|].
  simpl in Hone. simpl.
  destruct (is_node x current) eqn:Ex.
  - injection Hone as -> Hnil.
    rewrite Hsame. simpl. now rewrite (same_without_node current l Hnil).
  - rewrite andb_true_r. destruct (same_tag x current); simpl;
      now rewrite (IH Hone Hsame).
Qed.

Lemma existsb_filter {A} (p : A -> bool) (l : list A) :
  existsb p l = (0 <? length (List.filter p l)).
Proof.
  induction l as [|x l IH]; [reflexivity|].
  simpl. destruct (p x); [reflexivity|exact IH].
Qed.

Lemma of_Z_succ (k : nat) : of_Z (Z.of_nat k + 1) = of_nat (S k).
Proof.
  replace (Z.of_nat k + 1)%Z with (Z.of_nat (S k)) by lia.
  simpl. unfold of_Z. now rewrite SuccNat2Pos.id_succ.
Qed.

(** For an element in its place, the disambiguator that the code appends
    is the one of the specification. *)
Lemma nth_selector_spec (current parent : Node) :
  child_of current parent = true ->
  nth_selector current (Some parent) = disambiguator current (Some parent).
Proof.
  unfold child_of, nth_selector, disambiguator, has_same_tag_sibling,
    position.
  destruct (List.filter (fun c => is_node c current) (children parent))
    as [|c0 [|c1 l]] eqn:Hone; try discriminate.
  intros Hsame.
  fold (same_tag) in *.
  change (fun child : Node =>
            Js.eqb (node_tagName child) (node_tagName current))
    with (fun c => same_tag c current).
  rewrite (same_tag_count current _ c0 Hone Hsame).
  rewrite existsb_filter.
  change (1 <? S ?n) with (0 <? n).
  destruct (0 <? _); [|reflexivity].
  unfold indexOf.
  rewrite (indexOf_preceding current _ c0 0 Hone Hsame).
  rewrite Z.add_0_l. now rewrite of_Z_succ.
Qed.

Lemma level_selector_spec (current : Node) (rest : list Node) :
  attached (current :: rest) = true ->
  level_selector current (head rest) = level current (head rest).
Proof.
  intros H. unfold level_selector, level.
  rewrite class_selector_spec. do 2 f_equal.
  destruct rest as [|parent rest]; [reflexivity|].
  simpl in H. apply andb_true_iff in H as [H _].
  now apply nth_selector_spec.
Qed.

Lemma attached_tail (current : Node) (rest : list Node) :
  attached (current :: rest) = true -> attached rest = true.
Proof.
  destruct rest as [|parent rest]; [reflexivity|].
  simpl. intros H. now apply andb_true_iff in H as [_ H].
Qed.

(** The turns of the loop are the levels of the amended walk. *)
Lemma turns_levels (chain : list Node) :
  attached chain = true -> turns chain = levels chain.
Proof.
  induction chain as [|current rest IH]; [reflexivity|].
  intros H. simpl turns. simpl levels.
  destruct (negb (is_element current)); [reflexivity|].
  destruct (truthy (id current)); [reflexivity|].
  rewrite (level_selector_spec current rest H).
  now rewrite IH by (eapply attached_tail; exact H).
Qed.

(** [getSelector] is the amended walk. *)
Lemma getSelector_levels (element : Located) :
  attached (lineage element) = true ->
  getSelector element = getSelector_amended element.
Proof.
  intros H. unfold getSelector, getSelector_amended.
  destruct (negb (is_element (self element))); [reflexivity|].
  destruct (truthy (id (self element))); [reflexivity|].
  rewrite loop_turns by (simpl; lia).
  simpl length. rewrite app_nil_r. now rewrite turns_levels.
Qed.

(** C7, amended.  [getSelector] gives ['#id'], escaped, for an element
    with an id.  For an element without one, which is a child of its
    parent as is every ancestor walked, it joins with [' > '], root
    first, the levels of the walk from the element toward the root, at
    most six of them (the element and five ancestors).  Each level is
    the lower-case tag name, followed by the first two class tokens that
    are there, each after a dot (none for an SVG element, whose
    className is not a string), followed by [:nth-of-type(k)] exactly
    when another element child of the parent has the same tag, [k] being
    the place of the element among the children of that tag; the walk
    ends early at the first ancestor that has an id, which contributes
    ['#id'] instead. *)
Theorem getSelector_walk (element : Located) :
  (is_element (self element) = true ->
   truthy (id (self element)) = true ->
   getSelector element = js "#" ++ CSS_escape (id (self element)))
  /\ (is_element (self element) = true ->
      truthy (id (self element)) = false ->
      attached (lineage element) = true ->
      getSelector element
      = Js.join (js " > ") (rev (take 6 (levels (lineage element))))
      /\ length (take 6 (levels (lineage element))) <= 6).
Proof.
  split.
  - intros He Hid. unfold getSelector. now rewrite He, Hid.
  - intros He Hid Ha. rewrite (getSelector_levels element Ha).
    unfold getSelector_amended. rewrite He, Hid.
    split; [reflexivity|]. rewrite length_take. lia.
Qed.

Lemma getSelector_walk_witness :
  getSelector Page.second_item
  = Js.join (js " > ")
      (rev (take 6 (levels (lineage Page.second_item)))).
Proof.
  apply (proj2 (getSelector_walk Page.second_item)); reflexivity.
Defined.

(** C7 as stated fails.  For the [span] inside [<div id="a">] the code
    answers ['#a > span'], the walk of the specification
    ['html > body > div > span'].  For [<svg class="icon big">] in the
    body the code answers ['html > body > svg'], the walk of the
    specification, which appends the class tokens that are there,
    ['html > body > svg.icon.big']. *)
Lemma getSelector_stops_at_ancestor_id :
  (getSelector Page.span_in_div_a = js "#a > span"
   /\ getSelector_spec Page.span_in_div_a = js "html > body > div > span"
   /\ getSelector Page.span_in_div_a <> getSelector_spec Page.span_in_div_a)
  /\ (getSelector Drawing.icon = js "html > body > svg"
      /\ getSelector_spec Drawing.icon = js "html > body > svg.icon.big"
      /\ getSelector Drawing.icon <> getSelector_spec Drawing.icon).
Proof. vm_compute. repeat split; discriminate. Qed.

(** Without an id on the way and without SVG elements, the code and the
    specification agree. *)
Lemma levels_no_id (chain : list Node) :
  Forall (fun n => truthy (id n) = false /\ is_svg n = false) chain ->
  levels chain = levels_spec chain.
Proof.
  induction 1 as [|n rest [Hn Hs] _ IH]; [reflexivity|].
  simpl. unfold level, level_stated. now rewrite Hn, Hs, IH.
Qed.

Lemma getSelector_spec_without_ids (element : Located) :
  attached (lineage element) = true ->
  Forall (fun n => truthy (id n) = false) (ancestors element) ->
  Forall (fun n => is_svg n = false) (lineage element) ->
  getSelector element = getSelector_spec element.
Proof.
  intros Ha Hid Hsvg. rewrite (getSelector_levels element Ha).
  unfold getSelector_amended, getSelector_spec.
  destruct (negb (is_element (self element))); [reflexivity|].
  destruct (truthy (id (self element))) eqn:E; [reflexivity|].
  rewrite levels_no_id; [reflexivity|].
  unfold lineage in *. inversion Hsvg; subst.
  constructor; [split; assumption|].
  clear -Hid H2. induction Hid as [|n l Hn _ IH]; [constructor|].
  inversion H2; subst. constructor; [split; assumption|]. now apply IH.
Qed.

(** The class part holds at most two tokens and the disambiguator is
    there only with a second sibling of the same tag: the two list
    items of the sample list. *)
Lemma getSelector_list_items :
  getSelector Page.first_item = js "ul > li.item.odd:nth-of-type(1)"
  /\ getSelector Page.second_item = js "ul > li.item:nth-of-type(2)"
  /\ getSelector Page.the_div = js "html > body > div".
Proof. vm_compute. repeat split. Qed.

(** The walk stops after the element and five ancestors: of eight
    nested [div]s the innermost gets a path of six levels. *)
Lemma getSelector_six_levels :
  option_map (fun l => length (ancestors l)) Page.innermost = Some 7
  /\ option_map getSelector Page.innermost
     = Some (js "div > div > div > div > div > div").
Proof. vm_compute. repeat split. Qed.

(** The chain that the loops walk is the [parentElement] chain. *)
Lemma lineage_parentElement (l : Located) :
  lineage l
  = self l :: match parentElement l with
              | Some p => lineage p
              | None => []
              end.
Proof. unfold lineage, parentElement. now destruct (ancestors l). Qed.

End SelectorFacts.

(** ** Page transitions (NavigationRecorder.js) *)

Module NavigationRecorderFacts.
Import Events NavigationRecorder.

(** C6, amended.  When the new URL matches an excluded-page pattern,
    [recordTransition] hands no event to [onEvent] and leaves the
    recorder as it was: [currentUrl] is not advanced to the new URL. *)
Theorem recordTransition_excluded (w : Window) (trigger : jsstring)
  (this : t) :
  isExcludedPage this (location_href w) = true ->
  recordTransition w trigger this = (this, []).
Proof.
  intros H. unfold recordTransition.
  destruct (Js.eqb (location_href w) (currentUrl this)); [reflexivity|].
  now rewrite H.
Qed.

Lemma recordTransition_excluded_witness :
  isExcludedPage Visit.on_cart (location_href Visit.at_admin) = true
  /\ recordTransition Visit.at_admin (js "pushState") Visit.on_cart
     = (Visit.on_cart, []).
Proof.
  split; [reflexivity|].
  apply (recordTransition_excluded Visit.at_admin (js "pushState")
           Visit.on_cart).
  reflexivity.
Defined.

(** C6 as stated fails: after [pushState] from the cart to an excluded
    admin page no event is emitted, and [currentUrl] is still the cart,
    not the new URL. *)
Lemma recordTransition_keeps_currentUrl :
  let '(this', evs) :=
    recordTransition Visit.at_admin (js "pushState") Visit.on_cart in
  location_href Visit.at_admin <> currentUrl Visit.on_cart
  /\ isExcludedPage Visit.on_cart (location_href Visit.at_admin) = true
  /\ evs = []
  /\ currentUrl this' = js "https://shop.example/cart"
  /\ currentUrl this' <> location_href Visit.at_admin.
Proof. vm_compute. repeat split; discriminate. Qed.

(** A transition to a page that is not excluded does advance
    [currentUrl] and emits one event, from the old URL to the new. *)
Lemma recordTransition_recorded (w : Window) (trigger : jsstring)
  (this : t) :
  location_href w <> currentUrl this ->
  isExcludedPage this (location_href w) = false ->
  recordTransition w trigger this
  = (set_currentUrl (location_href w) this,
     [ event PAGE_TRANSITION (Date_now w)
         (TransitionData trigger (currentUrl this) (location_href w)
            (document_title w)) ]).
Proof.
  intros Hne Hex. unfold recordTransition.
  apply JsFacts.eqb_neq in Hne. now rewrite Hne, Hex.
Qed.

End NavigationRecorderFacts.

(** ** The session controller and the send queue (Webvisor.js) *)

Module WebvisorFacts.
Import Events Webvisor.

(** [handleEvent] drops every event once [isRecording] is false. *)
Lemma handleEvent_not_recording (ev : Event) (this : t) :
  isRecording this = false -> handleEvent ev this = this.
Proof. intros H. unfold handleEvent. now rewrite H. Qed.

Lemma sendBatch_events (this : t) : events (sendBatch this) = events this.
Proof. unfold sendBatch. destruct (sendQueue this); reflexivity. Qed.

(** With an empty queue [sendBatch] does nothing. *)
Lemma sendBatch_empty (this : t) :
  sendQueue this = [] -> sendBatch this = this.
Proof. intros H. unfold sendBatch. now rewrite H. Qed.

Lemma sendBatch_splice (this : t) :
  sendQueue this <> [] ->
  sendQueue (sendBatch this)
  = drop (batchSize (config this)) (sendQueue this)
  /\ pending (sendBatch this)
     = pending this ++ [take (batchSize (config this)) (sendQueue this)].
Proof.
  intros H. unfold sendBatch.
  destruct (sendQueue this); [congruence|]. split; reflexivity.
Qed.

Lemma wound_down_fields (this : t) :
  sendQueue (wound_down this) = sendQueue this
  /\ pending (wound_down this) = pending this
  /\ events (wound_down this) = events this
  /\ config (wound_down this) = config this.
Proof.
  unfold wound_down, stopBatchTimer. simpl.
  destruct (batchTimer this); repeat split.
Qed.

Lemma stop_unfold (w : Window) (this : t) :
  isRecording this = true ->
  stop w this = sendBatch (wound_down this).
Proof.
  intros H. unfold stop. rewrite H. simpl.
  now rewrite handleEvent_not_recording by reflexivity.
Qed.

(** [stop()] records nothing: it clears [isRecording] before it hands
    the session-end event to [handleEvent], which drops it.  The final
    flush sends what was queued before. *)
Lemma stop_records_nothing (w : Window) (this : t) :
  isRecording this = true ->
  events (stop w this) = events this
  /\ sendQueue (stop w this)
     = drop (batchSize (config this)) (sendQueue this)
  /\ pending (stop w this)
     = pending this
       ++ match sendQueue this with
          | [] => []
          | q => [take (batchSize (config this)) q]
          end.
Proof.
  intros H. rewrite (stop_unfold w this H).
  destruct (wound_down_fields this) as (Hq & Hp & He & Hc).
  rewrite sendBatch_events, He. split; [reflexivity|].
  destruct (sendQueue this) as [|e q] eqn:E.
  - rewrite sendBatch_empty by congruence.
    rewrite Hq, Hp, drop_nil, app_nil_r. auto.
  - destruct (sendBatch_splice (wound_down this)) as [-> ->];
      [rewrite Hq; discriminate|].
    rewrite Hq, Hp, Hc. auto.
Qed.

(** C2 (code at the failing input).  The session that [start()] leaves
    on the sample page is recording and holds the session-start, the
    snapshot and the page-load events.  After [stop()] is called it holds
    the same three events: the last one is the page load, no session-end
    event has been recorded, and the final flush carries the same three
    events. *)
Theorem stop_drops_session_end :
  isRecording Visit.recording = true
  /\ map type (events Visit.recording)
     = [SESSION_START; DOM_SNAPSHOT; PAGE_LOAD]
  /\ isRecording (stop Visit.later Visit.recording) = false
  /\ events (stop Visit.later Visit.recording) = events Visit.recording
  /\ option_map type (last (events (stop Visit.later Visit.recording)))
     = Some PAGE_LOAD
  /\ map (map type) (pending (stop Visit.later Visit.recording))
     = [[SESSION_START; DOM_SNAPSHOT; PAGE_LOAD]]
  /\ sendQueue (stop Visit.later Visit.recording) = [].
Proof. vm_compute. repeat split. Qed.

(** *** Flushing *)

Lemma settle_queue (k : nat) (o : FetchOutcome) (batch : list Event)
  (this : t) :
  pending this !! k = Some batch ->
  sendQueue (settle k o this)
  = (if delivered o then sendQueue this else batch ++ sendQueue this)
  /\ pending (settle k o this) = delete k (pending this)
  /\ events (settle k o this) = events this.
Proof. intros H. unfold settle. rewrite H. repeat split. Qed.

(** C5, amended.  A flush of an empty queue does nothing.  A flush of a
    queue that is not empty takes the first [min (length queue)
    batchSize] events off the head of the queue, in order, and leaves
    the rest.  When the request of a batch in flight is answered: on
    success the queue stays as it is, the batch being discarded; on
    failure (a response that is not ok, or a rejected request) the batch
    is put back at the head of the queue, in its order, ahead of
    everything the queue holds at that moment.  When nothing but the
    events enqueued in the meantime, [during], has touched the queue
    since the flush (no other flush took events from it or put events
    back), the queue after a failure is the original queue followed by
    [during], the order of enqueueing, and the queue after a success is
    the rest of the original queue followed by [during]. *)
Theorem sendBatch_requeues_in_order (this later : t)
  (during : list Event) (o : FetchOutcome) :
  let size := batchSize (config this) in
  let queue := sendQueue this in
  let batch := take size queue in
  (queue = [] -> sendBatch this = this)
  /\ (queue <> [] ->
      length batch = Nat.min (length queue) size
      /\ queue = batch ++ sendQueue (sendBatch this)
      /\ pending (sendBatch this) = pending this ++ [batch]
      /\ events (sendBatch this) = events this)
  /\ (forall j b,
        pending later !! j = Some b ->
        sendQueue (settle j o later)
        = (if delivered o then sendQueue later else b ++ sendQueue later)
        /\ pending (settle j o later) = delete j (pending later))
  /\ (forall j,
        queue <> [] ->
        pending later !! j = Some batch ->
        sendQueue later = sendQueue (sendBatch this) ++ during ->
        sendQueue (settle j o later)
        = (if delivered o then drop size queue ++ during
           else queue ++ during)).
Proof.
  intros size queue batch.
  split; [apply sendBatch_empty|].
  split; [|split].
  - intros Hq.
    destruct (sendBatch_splice this Hq) as [Hrest Hpend].
    fold size queue in Hrest, Hpend. fold batch in Hpend.
    split; [|split; [|split]].
    + unfold batch. rewrite length_take. lia.
    + rewrite Hrest. unfold batch. now rewrite take_drop.
    + exact Hpend.
    + apply sendBatch_events.
  - intros j b Hj.
    destruct (settle_queue j o b later Hj) as (Hs & Hp & _).
    now split.
  - intros j Hq Hj Hlater.
    destruct (sendBatch_splice this Hq) as [Hrest _].
    fold size queue in Hrest.
    destruct (settle_queue j o batch later Hj) as [-> _].
    rewrite Hlater, Hrest.
    destruct (delivered o); [reflexivity|].
    rewrite app_assoc. unfold batch. now rewrite take_drop.
Qed.

(** The batch timer fires with three events queued, a fourth event is
    recorded while the request is in flight, and the collector answers
    500: the queue holds the four events in the order they were
    enqueued. *)
Lemma sendBatch_requeues_in_order_witness :
  let this := Visit.three_queued in
  let later := handleEvent (Visit.went_hidden 4) (sendBatch this) in
  sendQueue this <> []
  /\ pending later !! 0 = Some (take 50 (sendQueue this))
  /\ sendQueue later = sendQueue (sendBatch this) ++ [Visit.went_hidden 4]
  /\ sendQueue (settle 0 (Responded false 500) later)
     = [Visit.went_hidden 1; Visit.went_hidden 2; Visit.went_hidden 3;
        Visit.went_hidden 4].
Proof.
  intros this later.
  split; [discriminate|]. split; [reflexivity|]. split; [reflexivity|].
  apply (proj2 (proj2 (proj2 (sendBatch_requeues_in_order this later
                  [Visit.went_hidden 4] (Responded false 500)))) 0).
  - discriminate.
  - reflexivity.
  - reflexivity.
Defined.

(** C5 as stated fails.  With a batch size of two and five events
    recorded, two flushes are in flight at once, holding the events 1, 2
    and 3, 4, and the queue holds 5.  The older request fails and its
    batch is put back; then the newer fails and its batch is put back
    ahead of it: the queue holds 3, 4, 1, 2, 5, which is not the order
    the events were enqueued in. *)
Lemma sendBatch_overlapping_flushes_reorder :
  map timestamp (events Overlap.recorded) = [1; 2; 3; 4; 5]%Z
  /\ map (map timestamp) (pending Overlap.recorded)
     = [[1; 2]; [3; 4]]%Z
  /\ map timestamp (sendQueue Overlap.recorded) = [5]%Z
  /\ Overlap.in_enqueue_order Overlap.recorded = true
  /\ map timestamp (sendQueue Overlap.both_failed) = [3; 4; 1; 2; 5]%Z
  /\ events Overlap.both_failed = events Overlap.recorded
  /\ Overlap.in_enqueue_order Overlap.both_failed = false.
Proof. vm_compute. repeat split. Qed.

End WebvisorFacts.

(** ** The collector (PostgresStore.js) *)

Module PostgresStoreFacts.
Import Wire PostgresStore.

Lemma toString36_go_length (fuel : nat) (n : N) (acc : jsstring) :
  length (toString36_go fuel n acc) <= fuel + length acc.
Proof.
  revert n acc. induction fuel as [|fuel IH]; intros n acc; simpl; [lia|].
  destruct (n / 36 =? 0)%N; simpl; [lia|].
  etransitivity; [apply IH|]. simpl. lia.
Qed.

Lemma toString36_go_digits (fuel : nat) (n : N) (acc : jsstring) :
  existsb (N.eqb 0) acc = false ->
  existsb (N.eqb 0) (toString36_go fuel n acc) = false.
Proof.
  revert n acc. induction fuel as [|fuel IH]; intros n acc Hacc;
    [exact Hacc|].
  assert (Hd : existsb (N.eqb 0) (digit36 (n mod 36) :: acc) = false).
  { change (existsb (N.eqb 0) (digit36 (n mod 36) :: acc))
      with ((0 =? digit36 (n mod 36))%N || existsb (N.eqb 0) acc).
    rewrite Hacc, orb_false_r. apply N.eqb_neq.
    unfold digit36. generalize (n mod 36)%N. intros m.
    destruct (m <? 10)%N; lia. }
  simpl. destruct (n / 36 =? 0)%N; [exact Hd|]. now apply IH.
Qed.

Lemma toString36_go_ascii (fuel : nat) (n : N) (acc : jsstring) :
  Forall (fun c => (c < 128)%N) acc ->
  Forall (fun c => (c < 128)%N) (toString36_go fuel n acc).
Proof.
  revert n acc. induction fuel as [|fuel IH]; intros n acc Hacc;
    [exact Hacc|].
  assert (Hd : Forall (fun c => (c < 128)%N) (digit36 (n mod 36) :: acc)).
  { constructor; [|exact Hacc].
    assert (Hm : (n `mod` 36 < 36)%N) by (apply N.mod_lt; discriminate).
    unfold digit36. revert Hm. generalize (n `mod` 36)%N. intros m Hm.
    destruct (m <? 10)%N; lia. }
  simpl. destruct (n / 36 =? 0)%N; [exact Hd|]. now apply IH.
Qed.

Lemma well_formed_ascii (s : jsstring) :
  Forall (fun c => (c < 128)%N) s -> well_formed s = true.
Proof.
  induction 1 as [|a s Ha _ IH]; [reflexivity|].
  change (well_formed (a :: s))
    with (if is_high_surrogate a
          then match s with
               | b :: s'' => is_low_surrogate b && well_formed s''
               | [] => false
               end
          else negb (is_low_surrogate a) && well_formed s).
  assert (Hh : is_high_surrogate a = false).
  { unfold is_high_surrogate. apply andb_false_iff. left.
    apply N.leb_gt. lia. }
  assert (Hl : is_low_surrogate a = false).
  { unfold is_low_surrogate. apply andb_false_iff. left.
    apply N.leb_gt. lia. }
  now rewrite Hh, Hl, IH.
Qed.

(** A surrogate pair counts once: a string has no more characters than
    code units. *)
Lemma char_length_le (s : jsstring) : char_length s <= length s.
Proof.
  assert (H : forall n s, length s <= n -> char_length s <= length s).
  { clear s. induction n as [|n IH]; intros s Hs.
    - destruct s; simpl in *; lia.
    - destruct s as [|a [|b s]]; simpl; [lia|lia|].
      destruct (is_high_surrogate a && is_low_surrogate b).
      + assert (char_length s <= length s) by (apply IH; simpl in Hs; lia).
        lia.
      + assert (char_length (b :: s) <= length (b :: s))
          by (apply IH; simpl in *; lia).
        simpl in *. lia. }
  now apply (H (length s)).
Qed.

(** A fingerprint is never empty, fits its VARCHAR(64) column, holds no
    character of code zero and no surrogate. *)
Lemma generateFingerprint_fits (meta : Meta) (ip : option jsstring) :
  truthy (generateFingerprint meta ip) = true
  /\ fits 64 (Some (generateFingerprint meta ip)) = true.
Proof.
  unfold generateFingerprint. split; [reflexivity|].
  unfold fits. apply Nat.leb_le.
  etransitivity; [apply char_length_le|]. rewrite length_app.
  pose proof (toString36_go_length 7 
    (Z.to_N (Z.abs (foldl hash_step 0%Z
       (Js.join (js "|")
          [of_Z (default 0%Z (num_or_null (size_width (screen meta))));
           of_Z (default 0%Z (num_or_null (size_height (screen meta))));
           default (js "unknown") (str_or_null ip)])))) []) as H.
  unfold toString36. simpl length in *. lia.
Qed.

Lemma generateFingerprint_clean (meta : Meta) (ip : option jsstring) :
  clean (Some (generateFingerprint meta ip)) = true.
Proof.
  unfold generateFingerprint, clean. apply andb_true_iff. split.
  - apply negb_true_iff. rewrite existsb_app.
    apply orb_false_iff. split; [reflexivity|].
    unfold toString36. now apply toString36_go_digits.
  - apply well_formed_ascii, Forall_app. split.
    + repeat constructor.
    + unfold toString36. apply toString36_go_ascii. constructor.
Qed.

Lemma upsert_visitor_sessions (now : Z) (fp : jsstring)
  (ip : option jsstring) (sw sh : option Z) (ua lang tz : option jsstring)
  (db : DB) :
  visitor_values fp ip sw sh ua lang tz = true ->
  exists i db',
    upsert_visitor now fp ip sw sh ua lang tz db = inr (i, db')
    /\ sessions db' = sessions db
    /\ next_session_id db' = next_session_id db.
Proof.
  unfold visitor_values. rewrite !andb_true_iff.
  intros ((((((((((H1 & H2) & H3) & H4) & H5) & H6) & H7) & H8) & H9)
            & H10) & H11).
  unfold upsert_visitor, check_varchar, check_text, check_integer.
  rewrite H1, H2, H3, H4, H5, H6, H7, H8, H9, H10, H11.
  destruct (List.find _ (visitors db)); eauto.
Qed.

Lemma insert_events_sessions (now : Z) (sid : jsstring)
  (evs : list PostedEvent) (db : DB) :
  fits 64 (Some sid) = true ->
  clean (Some sid) = true ->
  forallb storable evs = true ->
  exists db',
    insert_events now sid evs db = inr (tt, db')
    /\ sessions db' = sessions db
    /\ next_session_id db' = next_session_id db.
Proof.
  intros Hsid Hclean. revert db.
  induction evs as [|ev evs IH]; intros db Hall; simpl.
  - eauto.
  - simpl in Hall. apply andb_true_iff in Hall as [Hev Hall].
    unfold bind, insert_event, check_varchar, check_text.
    rewrite Hsid, Hclean.
    unfold storable in Hev.
    destruct (type ev) as [ty|]; [|discriminate].
    destruct (timestamp ev) as [ts|]; [|discriminate].
    apply andb_true_iff in Hev as [Hev Hjson].
    apply andb_true_iff in Hev as [Hty Hts].
    rewrite Hty, Hts, Hjson. simpl.
    destruct (IH (set_events
                    (events db ++
                     [{| e_id := next_event_id db; e_session_id := sid;
                         e_event_type := ty; e_timestamp := ts;
                         e_data := default (js "{}") (data ev);
                         e_created_at := now |}])
                    (S (next_event_id db)) db) Hall)
      as (db' & -> & Hs & Hn).
    eauto.
Qed.

Lemma session_rows_nil_existsb (sid : jsstring) (db : DB) :
  session_rows sid db = [] ->
  existsb (fun s => Js.eqb (s_session_id s) sid) (sessions db) = false.
Proof.
  unfold session_rows. induction (sessions db) as [|r rs IH]; simpl; auto.
  destruct (Js.eqb (s_session_id r) sid); [discriminate|]. auto.
Qed.

Lemma acceptable_parts (sid : jsstring) (evs : list PostedEvent)
  (meta : Meta) (ip : option jsstring) :
  acceptable sid evs meta ip = true ->
  fits 64 (Some sid) = true /\ clean (Some sid) = true
  /\ fits 45 ip = true /\ clean ip = true
  /\ acceptable_meta meta = true
  /\ forallb storable evs = true.
Proof.
  unfold acceptable. rewrite !andb_true_iff. tauto.
Qed.

(** A batch that the schema accepts is committed.  For a session
    identifier that has no row, one row is added, with a count of zero;
    then, in every case, the rows of that identifier have their count
    raised by the size of the batch. *)
Lemma storeEvents_commits (now : Z) (sid : jsstring)
  (evs : list PostedEvent) (meta : Meta) (ip : option jsstring) (db : DB) :
  acceptable sid evs meta ip = true ->
  exists db' visitorId,
    storeEvents now sid evs meta ip db = inr db'
    /\ sessions db'
       = sessions_after now sid (length evs)
           (sessions db
            ++ match session_rows sid db with
               | [] => [new_session_row (next_session_id db) now sid
                          visitorId (Some (generateFingerprint meta ip))
                          ip meta]
               | _ => []
               end).
Proof.
  intros Hacc.
  destruct (acceptable_parts _ _ _ _ Hacc)
    as (Hsid & Hclean & Hip & Hipc & Hmeta & Hev).
  destruct (generateFingerprint_fits meta ip) as [Htruthy Hfp].
  pose proof (generateFingerprint_clean meta ip) as Hfpc.
  unfold acceptable_meta in Hmeta. rewrite !andb_true_iff in Hmeta.
  destruct Hmeta as (((((((((((Hl & Htz) & Hlc) & Htzc) & Hua) & Hurl)
                          & Htitle) & Href) & Hsw) & Hsh) & Hvw) & Hvh).
  unfold storeEvents, storeEvents_body. rewrite Htruthy.
  destruct (upsert_visitor_sessions now (generateFingerprint meta ip) ip
              (num_or_null (size_width (screen meta)))
              (num_or_null (size_height (screen meta)))
              (str_or_null (userAgent meta))
              (str_or_null (language meta))
              (str_or_null (timezone meta)) db)
    as (i & db1 & Hup & Hs1 & Hn1).
  { unfold visitor_values.
    now rewrite Hfp, Hfpc, Hip, Hipc, Hsw, Hsh, Hua, Hl, Hlc, Htz, Htzc. }
  unfold bind at 1. unfold bind at 1. rewrite Hup. unfold ret at 1.
  unfold bind at 1. unfold select_session at 1, check_text at 1.
  rewrite Hclean.
  unfold session_rows. rewrite <- Hs1, <- Hn1.
  destruct (List.filter (fun s => Js.eqb (s_session_id s) sid)
              (sessions db1)) as [|r rs] eqn:Hrows.
  - cbn [map List.map]. unfold bind at 1.
    unfold insert_session, check_varchar, check_text, check_integer.
    rewrite Hsid, Hclean, Hfp, Hfpc, Hip, Hipc, Hurl, Htitle, Href, Hua,
      Hsw, Hsh, Hvw, Hvh.
    rewrite (session_rows_nil_existsb sid db1 Hrows).
    destruct (insert_events_sessions now sid evs
                (set_sessions
                   (sessions db1 ++
                    [new_session_row (next_session_id db1) now sid (Some i)
                       (Some (generateFingerprint meta ip)) ip meta])
                   (S (next_session_id db1)) db1) Hsid Hclean Hev)
      as (db3 & Hins & Hs3 & _).
    unfold bind. rewrite Hins. unfold update_session, check_text.
    rewrite Hclean.
    eexists _, (Some i). split; [reflexivity|].
    simpl. rewrite Hs3. reflexivity.
  - cbn [map List.map]. unfold bind at 1. unfold ret at 1.
    destruct (insert_events_sessions now sid evs db1 Hsid Hclean Hev)
      as (db3 & Hins & Hs3 & _).
    unfold bind. rewrite Hins. unfold update_session, check_text.
    rewrite Hclean.
    eexists _, None. split; [reflexivity|].
    simpl. rewrite Hs3, app_nil_r. reflexivity.
Qed.

Lemma session_rows_after (now : Z) (sid : jsstring) (n : nat)
  (rows : list SessionRow) :
  List.filter (fun s => Js.eqb (s_session_id s) sid)
              (sessions_after now sid n rows)
  = map (bump_session (Z.of_nat n) now)
        (List.filter (fun s => Js.eqb (s_session_id s) sid) rows).
Proof.
  unfold sessions_after. induction rows as [|r rows IH]; [reflexivity|].
  simpl. destruct (Js.eqb (s_session_id r) sid) eqn:E; simpl.
  - rewrite E. simpl. now rewrite IH.
  - rewrite E. exact IH.
Qed.

(** Storing a batch for a session that has no row leaves exactly one row
    for it, whose count is the size of the batch. *)
Lemma storeEvents_creates (now : Z) (sid : jsstring)
  (evs : list PostedEvent) (meta : Meta) (ip : option jsstring) (db : DB) :
  acceptable sid evs meta ip = true ->
  session_rows sid db = [] ->
  exists db' r,
    storeEvents now sid evs meta ip db = inr db'
    /\ session_rows sid db' = [r]
    /\ s_event_count r = Z.of_nat (length evs)
    /\ length (sessions db') = S (length (sessions db)).
Proof.
  intros Hacc Hnone.
  destruct (storeEvents_commits now sid evs meta ip db Hacc)
    as (db' & vid & Hstore & Hrows).
  rewrite Hnone in Hrows.
  eexists db', _. split; [exact Hstore|].
  unfold session_rows in *. rewrite Hrows, session_rows_after.
  rewrite List.filter_app, Hnone. simpl.
  rewrite JsFacts.eqb_refl. simpl. split; [reflexivity|].
  split; [reflexivity|].
  unfold sessions_after. rewrite length_map, length_app. simpl. lia.
Qed.

(** Storing a batch for a session that has one row adds no row and
    raises the count of that row by the size of the batch. *)
Lemma storeEvents_updates (now : Z) (sid : jsstring)
  (evs : list PostedEvent) (meta : Meta) (ip : option jsstring) (db : DB)
  (r : SessionRow) :
  acceptable sid evs meta ip = true ->
  session_rows sid db = [r] ->
  exists db',
    storeEvents now sid evs meta ip db = inr db'
    /\ session_rows sid db' = [bump_session (Z.of_nat (length evs)) now r]
    /\ length (sessions db') = length (sessions db).
Proof.
  intros Hacc Hone.
  destruct (storeEvents_commits now sid evs meta ip db Hacc)
    as (db' & vid & Hstore & Hrows).
  rewrite Hone, app_nil_r in Hrows.
  exists db'. split; [exact Hstore|].
  unfold session_rows in *. rewrite Hrows, session_rows_after, Hone.
  split; [reflexivity|].
  unfold sessions_after. now rewrite length_map.
Qed.

(** C8.  A batch of three events posted for a session identifier that
    has no row is answered 200 and leaves exactly one row for the
    identifier, with an event count of 3; a second batch of two events
    for the same identifier is answered 200, adds no row, and raises the
    count of that same row to 5. *)
Theorem three_then_two_events (now1 now2 : Z) (sid : jsstring)
  (es1 es2 : list PostedEvent) (m1 m2 : option Meta)
  (ip1 ip2 : option jsstring) (db : DB) :
  truthy sid = true ->
  session_rows sid db = [] ->
  length es1 = 3 -> length es2 = 2 ->
  acceptable sid es1 (default empty_meta m1) ip1 = true ->
  acceptable sid es2 (default empty_meta m2) ip2 = true ->
  exists db1 db2 r1 r2,
    postEvents now1
      {| body_sessionId := Some sid; body_events := Some es1;
         body_meta := m1; body_clientIP := ip1 |} db
    = (Status200 3, db1)
    /\ session_rows sid db1 = [r1]
    /\ s_event_count r1 = 3%Z
    /\ length (sessions db1) = S (length (sessions db))
    /\ postEvents now2
         {| body_sessionId := Some sid; body_events := Some es2;
            body_meta := m2; body_clientIP := ip2 |} db1
       = (Status200 2, db2)
    /\ session_rows sid db2 = [r2]
    /\ s_event_count r2 = 5%Z
    /\ s_id r2 = s_id r1
    /\ length (sessions db2) = length (sessions db1).
Proof.
  intros Hsid Hnone H3 H2 Ha1 Ha2.
  destruct (storeEvents_creates now1 sid es1 _ ip1 db Ha1 Hnone)
    as (db1 & r1 & Hs1 & Hr1 & Hc1 & Hl1).
  destruct (storeEvents_updates now2 sid es2 _ ip2 db1 r1 Ha2 Hr1)
    as (db2 & Hs2 & Hr2 & Hl2).
  exists db1, db2, r1, (bump_session (Z.of_nat (length es2)) now2 r1).
  unfold postEvents. simpl. unfold str_or_null. rewrite Hsid.
  rewrite Hs1, Hs2, H3, H2. simpl.
  rewrite Hc1, H3. repeat split; auto.
  rewrite Hr2, H2. reflexivity.
Qed.

Lemma three_then_two_events_witness :
  exists db1 db2 r1 r2,
    postEvents 1700000000100 (Batches.body Batches.first_batch) empty_db
    = (Status200 3, db1)
    /\ session_rows Batches.session db1 = [r1]
    /\ s_event_count r1 = 3%Z
    /\ length (sessions db1) = S (length (sessions empty_db))
    /\ postEvents 1700000001600 (Batches.body Batches.second_batch) db1
       = (Status200 2, db2)
    /\ session_rows Batches.session db2 = [r2]
    /\ s_event_count r2 = 5%Z
    /\ s_id r2 = s_id r1
    /\ length (sessions db2) = length (sessions db1).
Proof.
  apply (three_then_two_events 1700000000100 1700000001600
           Batches.session Batches.first_batch Batches.second_batch
           (Some Batches.meta) (Some Batches.meta)
           Batches.address Batches.address empty_db);
    reflexivity.
Defined.

(** The sample batches, computed: one session row, counts 3 and then
    5, one visitor seen twice, five event rows. *)
Lemma sample_batches_stored :
  let db1 :=
    snd (postEvents 1700000000100 (Batches.body Batches.first_batch)
           empty_db) in
  let db2 :=
    snd (postEvents 1700000001600 (Batches.body Batches.second_batch)
           db1) in
  map s_event_count (sessions db1) = [3%Z]
  /\ map s_event_count (sessions db2) = [5%Z]
  /\ map v_visit_count (visitors db2) = [2%Z]
  /\ length (events db2) = 5.
Proof. vm_compute. repeat split. Qed.

End PostgresStoreFacts.

(** ** Paths (node:path) *)

Module PathFacts.
Import Path.

Lemma split_go_plain (cur f : jsstring) :
  Forall (fun c => c <> SLASH) f -> split_go cur f = [rev cur ++ f].
Proof.
  intros H. revert cur. induction H as [|c f Hc _ IH]; intros cur; simpl.
  - now rewrite app_nil_r.
  - apply N.eqb_neq in Hc. rewrite Hc, IH. simpl.
    now rewrite <- app_assoc.
Qed.

(** Splitting a path that ends in a separator and a file name. *)
Lemma split_go_app (cur s f : jsstring) :
  Forall (fun c => c <> SLASH) f ->
  split_go cur (s ++ SLASH :: f) = split_go cur s ++ [f].
Proof.
  intros Hf. revert cur. induction s as [|c s IH]; intros cur; simpl.
  - now rewrite split_go_plain.
  - destruct (c =? SLASH)%N; [now rewrite IH|]. apply IH.
Qed.

Lemma normalize_step_plain (a : bool) (res : list jsstring) (f : jsstring) :
  plain f -> normalize_step a res f = f :: res.
Proof.
  intros (Hne & _ & Hdot & Hdotdot). unfold normalize_step.
  apply JsFacts.eqb_neq in Hdot, Hdotdot.
  unfold is_dot, is_dotdot. rewrite Hdot, Hdotdot.
  destruct f; [congruence|]. reflexivity.
Qed.

Lemma normalizeString_app (a : bool) (s f : jsstring) :
  plain f ->
  normalizeString a (s ++ SLASH :: f) = normalizeString a s ++ [f].
Proof.
  intros Hf. unfold normalizeString, split.
  rewrite split_go_app by apply Hf.
  rewrite foldl_app. simpl. now rewrite normalize_step_plain.
Qed.

Lemma normalizeString_plain (a : bool) (f : jsstring) :
  plain f -> normalizeString a f = [f].
Proof.
  intros Hf. unfold normalizeString, split.
  rewrite split_go_plain by apply Hf. simpl.
  now rewrite normalize_step_plain.
Qed.

Lemma plain_not_absolute (f : jsstring) : plain f -> isAbsolute f = false.
Proof.
  intros (Hne & Hall & _). destruct f as [|c f]; [reflexivity|].
  simpl. apply N.eqb_neq. now inversion Hall.
Qed.

Lemma plain_no_trailing (s f : jsstring) :
  plain f -> trailingSeparator (s ++ f) = false.
Proof.
  intros (Hne & Hall & _). unfold trailingSeparator.
  destruct (last (s ++ f)) as [c|] eqn:E; [|reflexivity].
  apply N.eqb_neq. apply last_app_Some in E as [E | [E _]].
  - apply last_Some in E as [l' ->].
    apply Forall_app in Hall as [_ Hc]. now inversion Hc.
  - apply last_None in E. congruence.
Qed.

(** Joining a directory and a file name gives the normalized directory
    followed by one more segment, the file name. *)
Lemma join_plain (dir f : jsstring) :
  plain f ->
  join dir f = render (isAbsolute dir) (segments dir ++ [f]).
Proof.
  intros Hf. pose proof Hf as (Hne & _).
  unfold join. destruct dir as [|d dir].
  - destruct f as [|c f]; [congruence|].
    unfold normalize, segments.
    rewrite (plain_not_absolute _ Hf). simpl negb.
    rewrite (normalizeString_plain true _ Hf).
    change (c :: f) with ([] ++ c :: f) at 2.
    rewrite (plain_no_trailing [] _ Hf).
    now rewrite app_nil_r.
  - destruct f as [|c f]; [congruence|].
    unfold normalize. simpl app.
    unfold segments.
    change (isAbsolute (d :: dir ++ SLASH :: c :: f))
      with (isAbsolute (d :: dir)).
    change (d :: dir ++ SLASH :: c :: f)
      with ((d :: dir) ++ SLASH :: c :: f).
    rewrite (normalizeString_app _ _ _ Hf).
    replace ((d :: dir) ++ SLASH :: c :: f)
      with (((d :: dir) ++ [SLASH]) ++ c :: f)
      by now rewrite <- app_assoc.
    rewrite (plain_no_trailing _ _ Hf).
    destruct (normalizeString (negb (isAbsolute (d :: dir))) (d :: dir));
      simpl app; cbv iota; rewrite app_nil_r; reflexivity.
Qed.

End PathFacts.

(** ** The file store (SessionStore.js) *)

Module SessionStoreFacts.
Import Wire SessionStore.

Lemma safeId_safe (sid : jsstring) :
  Forall (fun c => is_safe c = true) (safeId sid).
Proof.
  unfold safeId. induction sid as [|c sid IH]; simpl; [constructor|].
  destruct (is_safe c) eqn:E; [constructor|]; assumption.
Qed.

Lemma is_safe_not_slash (c : N) : is_safe c = true -> c <> Path.SLASH.
Proof. intros H ->. discriminate H. Qed.

(** The file name of a session is one plain segment, whatever the
    session identifier holds. *)
Lemma fileName_plain (sid : jsstring) :
  Path.plain (safeId sid ++ js ".json").
Proof.
  assert (Hlen : 5 <= length (safeId sid ++ js ".json")).
  { rewrite length_app. simpl. lia. }
  repeat split.
  - intros H. rewrite H in Hlen. simpl in Hlen. lia.
  - apply Forall_app. split.
    + eapply Forall_impl; [apply safeId_safe|].
      intros c Hc. now apply is_safe_not_slash.
    + repeat constructor; discriminate.
  - intros H. rewrite H in Hlen. simpl in Hlen. lia.
  - intros H. rewrite H in Hlen. simpl in Hlen. lia.
Qed.

(** C10.  For every session identifier, the path of its file is
    [join(storagePath, s + '.json')] for an [s] made of characters of
    [A-Za-z0-9_-] only, and that path is the normalized storage
    directory followed by exactly one segment, the file name: the file
    lies directly inside the storage directory.  [storeEvents] and
    [deleteSession] leave every other file as it was, and what
    [storeEvents] and [getSession] return depends on that one file
    only. *)
Theorem getSessionPath_confined (this : t) (sid : jsstring) :
  let name := safeId sid ++ js ".json" in
  let path := getSessionPath this sid in
  Forall (fun c => is_safe c = true) (safeId sid)
  /\ path = Path.join (storagePath this) name
  /\ path = Path.render (Path.isAbsolute (storagePath this))
              (Path.segments (storagePath this) ++ [name])
  /\ (forall now evs m (fs : FS) p,
        p <> path ->
        snd (storeEvents this now sid evs m fs) !! p = fs !! p)
  /\ (forall (fs : FS) p,
        p <> path -> snd (deleteSession this sid fs) !! p = fs !! p)
  /\ (forall now evs m (fs fs' : FS),
        fs !! path = fs' !! path ->
        fst (storeEvents this now sid evs m fs)
        = fst (storeEvents this now sid evs m fs'))
  /\ (forall (fs fs' : FS),
        fs !! path = fs' !! path ->
        getSession this sid fs = getSession this sid fs').
Proof.
  intros name path.
  split; [apply safeId_safe|]. split; [reflexivity|].
  split; [apply PathFacts.join_plain, fileName_plain|].
  split; [|split; [|split]].
  - intros now evs m fs p Hp. unfold storeEvents. simpl.
    now rewrite lookup_insert_ne by (intros Heq; apply Hp; now rewrite <- Heq).
  - intros fs p Hp. unfold deleteSession. fold path.
    destruct (fs !! path); simpl; [|reflexivity].
    now rewrite lookup_delete_ne by (intros Heq; apply Hp; now rewrite <- Heq).
  - intros now evs m fs fs' H. unfold storeEvents. simpl.
    fold path. now rewrite H.
  - intros fs fs' H. unfold getSession. fold path. now rewrite H.
Qed.

Lemma getSessionPath_confined_witness :
  let this := Batches.store in
  let sid := js "../../etc/passwd" in
  getSessionPath this sid = js "data/sessions/etcpasswd.json"
  /\ forall now evs m (fs : FS),
       snd (storeEvents this now sid evs m fs) !! js "/etc/passwd.json"
       = fs !! js "/etc/passwd.json".
Proof.
  intros this sid. split; [reflexivity|].
  intros now evs m fs.
  apply (getSessionPath_confined this sid).
  discriminate.
Defined.

(** Session identifiers that try to leave the storage directory. *)
Lemma getSessionPath_examples :
  getSessionPath Batches.store (js "../../etc/passwd")
  = js "data/sessions/etcpasswd.json"
  /\ getSessionPath Batches.store (js "..\..\boot.ini")
     = js "data/sessions/bootini.json"
  /\ getSessionPath Batches.store (js "a/b/../c")
     = js "data/sessions/abc.json"
  /\ getSessionPath Batches.store (js "..")
     = js "data/sessions/.json"
  /\ getSessionPath {| storagePath := js "/var/lib/webvisor/";
                       retentionDays := 15 |} Batches.session
     = js "/var/lib/webvisor/wv_lp2j1k00_4fzzzxjy.json".
Proof. vm_compute. repeat split. Qed.

(** The scenario of C8 on the file store: one file for the session,
    holding three events and then five. *)
Lemma file_store_three_then_two (this : t) (now1 now2 : Z)
  (sid : jsstring) (es1 es2 : list PostedEvent) (m1 m2 : Meta) (fs : FS) :
  fs !! getSessionPath this sid = None ->
  length es1 = 3 -> length es2 = 2 ->
  let '(s1, fs1) := storeEvents this now1 sid es1 m1 fs in
  let '(s2, fs2) := storeEvents this now2 sid es2 m2 fs1 in
  events s1 = es1 /\ events s2 = es1 ++ es2 /\ length (events s2) = 5
  /\ createdAt s2 = now1 /\ updatedAt s2 = now2
  /\ size fs1 = S (size fs) /\ size fs2 = size fs1
  /\ getSession this sid fs2 = Some s2.
Proof.
  intros Hnone H3 H2. unfold storeEvents. rewrite Hnone.
  rewrite lookup_insert_eq. simpl.
  rewrite length_app, H3, H2.
  repeat split.
  - now apply map_size_insert_None.
  - rewrite map_size_insert_Some; [reflexivity|].
    now rewrite lookup_insert_eq.
  - unfold getSession. now rewrite lookup_insert_eq.
Qed.

End SessionStoreFacts.

(** ** Throttling (InteractionRecorder.js) *)

Module ThrottleFacts.
Import InteractionRecorder.

Lemma step_keeps {A} (s : Step A) (st : Throttled A) :
  due_ok st ->
  due_ok (snd (step s st)) /\ delay (snd (step s st)) = delay st.
Proof.
  intros Hok. destruct s as [now args | now]; simpl.
  - unfold call.
    destruct (delay st - (now - lastCall st) <=? 0)%Z; simpl.
    + split; [exact I | reflexivity].
    + destruct (timeoutId st) as [[due a]|] eqn:E; simpl.
      * split; [exact Hok | reflexivity].
      * split; [|reflexivity]. unfold due_ok. simpl. lia.
  - unfold fire. destruct (timeoutId st) as [[due a]|] eqn:E; simpl.
    + split; [exact I | reflexivity].
    + split; [exact Hok | reflexivity].
Qed.

Lemma run_spaced {A} (history : list (Step A)) (st : Throttled A) :
  due_ok st ->
  on_time history st = true ->
  spaced (delay st) (lastCall st) (map fst (run history st)).
Proof.
  revert st. induction history as [|s rest IH]; intros st Hok Hon.
  - exact I.
  - simpl in Hon. apply andb_true_iff in Hon as [Hs Hrest].
    destruct (step_keeps s st Hok) as [Hok' Hd'].
    specialize (IH _ Hok' Hrest). rewrite Hd' in IH.
    simpl. destruct s as [now args | now]; simpl in *.
    + unfold call in *.
      destruct (delay st - (now - lastCall st) <=? 0)%Z eqn:E; simpl in *.
      * apply Z.leb_le in E. split; [lia | exact IH].
      * destruct (timeoutId st) as [[due a]|]; simpl in *; exact IH.
    + unfold fire in *. unfold due_ok in Hok.
      destruct (timeoutId st) as [[due a]|]; [|discriminate].
      simpl in *. apply Z.leb_le in Hs. split; [lia | exact IH].
Qed.

(** Whatever the history, [fn] is called at most once per call of the
    throttled function, with that call's arguments, in the order of the
    calls. *)
Lemma run_sublist {A} (history : list (Step A)) (st : Throttled A) :
  sublist (map snd (run history st))
          (match timeoutId st with
           | Some (_, args) => [args]
           | None => []
           end ++ called_with history).
Proof.
  revert st. induction history as [|s rest IH]; intros st.
  - simpl. apply sublist_nil_l.
  - destruct s as [now args | now]; simpl.
    + unfold call.
      destruct (delay st - (now - lastCall st) <=? 0)%Z; simpl.
      * specialize (IH {| delay := delay st; lastCall := now;
                          timeoutId := None |}). simpl in IH.
        apply sublist_inserts_l. now apply sublist_skip.
      * destruct (timeoutId st) as [[due a]|] eqn:E; simpl.
        -- specialize (IH st). rewrite E in IH. simpl in IH.
           destruct (run rest st) as [|x xs] eqn:R; simpl in *.
           ++ apply sublist_nil_l.
           ++ inversion IH; subst.
              ** apply sublist_skip. now apply sublist_cons.
              ** apply sublist_cons. now apply sublist_cons.
        -- specialize (IH {| delay := delay st; lastCall := lastCall st;
                             timeoutId :=
                               Some ((now + (delay st - (now - lastCall st)))%Z,
                                     args) |}).
           simpl in IH. exact IH.
    + unfold fire. destruct (timeoutId st) as [[due a]|] eqn:E; simpl.
      * specialize (IH {| delay := delay st; lastCall := now;
                          timeoutId := None |}). simpl in IH.
        now apply sublist_skip.
      * specialize (IH st). rewrite E in IH. exact IH.
Qed.

(** X1.  For a throttled function made by [throttle(fn, delay)] and any
    history of calls and timer firings in which the timer never fires
    before it is due, two successive calls of [fn] are at least [delay]
    apart (and the first at least [delay] after time 0). *)
Theorem throttle_spacing {A} (d : Z) (history : list (Step A)) :
  on_time history (throttle d) = true ->
  spaced d 0 (map fst (run history (throttle d))).
Proof.
  intros H. apply (run_spaced history (throttle d)); [exact I | exact H].
Qed.

Lemma throttle_spacing_witness :
  run [Call 1000 1; Call 1010 2; Call 1020 3; Fire 1051; Call 1060 4;
       Call 1200 5] (throttle 50)
  = [(1000%Z, 1); (1051%Z, 2); (1200%Z, 5)]
  /\ spaced 50 0 [1000; 1051; 1200]%Z.
Proof.
  split; [reflexivity|].
  apply (throttle_spacing 50
           [Call 1000 1; Call 1010 2; Call 1020 3; Fire 1051; Call 1060 4;
            Call 1200 5]).
  reflexivity.
Defined.

(** X2.  Whatever the history, the arguments [fn] is called with form a
    subsequence of the arguments of the calls of the throttled function:
    no call is passed on twice, none is invented, and the order is
    kept. *)
Theorem throttle_passes_subsequence {A} (d : Z) (history : list (Step A)) :
  sublist (map snd (run history (throttle d))) (called_with history)
  /\ length (run history (throttle d)) <= length (called_with history).
Proof.
  pose proof (run_sublist history (throttle d)) as H. simpl in H.
  split; [exact H|].
  apply sublist_length in H. now rewrite length_map in H.
Qed.

End ThrottleFacts.

(** ** The pipeline of the session controller (Webvisor.js) *)

Module PipelineFacts.
Import Events Webvisor Pipeline.

Lemma concat_delete {A} (l : list (list A)) (k : nat) (x : list A) :
  l !! k = Some x -> concat l ≡ₚ x ++ concat (delete k l).
Proof.
  revert k. induction l as [|y l IH]; intros [|k] H; simpl in *;
    try discriminate.
  - now injection H as ->.
  - rewrite (IH k H). rewrite !app_assoc.
    apply Permutation_app_tail, Permutation_app_comm.
Qed.

Lemma handleEvent_recording (ev : Event) (this : t) :
  isRecording this = true ->
  events (handleEvent ev this)
  = events this ++ [set_sessionId (sessionId this) ev]
  /\ undelivered (handleEvent ev this)
     = undelivered this ++ [set_sessionId (sessionId this) ev].
Proof.
  intros H. unfold handleEvent. rewrite H. simpl.
  destruct (batchSize (config this) <=? length (sendQueue this ++ [_]))%nat.
  - unfold sendBatch. simpl.
    destruct (sendQueue this ++ [set_sessionId (sessionId this) ev])
      as [|e q] eqn:E.
    + destruct (sendQueue this); discriminate E.
    + simpl events. split; [reflexivity|].
      unfold undelivered. simpl pending. simpl sendQueue.
      rewrite concat_app. simpl concat. rewrite app_nil_r.
      rewrite <- !app_assoc, take_drop, <- E. reflexivity.
  - split; [reflexivity|]. unfold undelivered. simpl.
    now rewrite app_assoc.
Qed.

(** X3.  On a recording session with a positive batch size, recording an
    event never leaves [batchSize] events in the queue: when the queue
    reaches the batch size it is flushed at once.  The event itself is
    appended to the record of events with the session identifier. *)
Theorem handleEvent_keeps_queue_short (ev : Event) (this : t) :
  isRecording this = true ->
  0 < batchSize (config this) ->
  length (sendQueue this) < batchSize (config this) ->
  length (sendQueue (handleEvent ev this)) < batchSize (config this)
  /\ events (handleEvent ev this)
     = events this ++ [set_sessionId (sessionId this) ev].
Proof.
  intros Hrec Hpos Hlen.
  split; [|apply (handleEvent_recording ev this Hrec)].
  unfold handleEvent. rewrite Hrec. simpl.
  destruct (batchSize (config this) <=? length (sendQueue this ++ [_]))%nat
    eqn:E.
  - unfold sendBatch. simpl.
    destruct (sendQueue this ++ [set_sessionId (sessionId this) ev])
      as [|e q] eqn:Eq.
    + simpl. lia.
    + simpl sendQueue. simpl config. rewrite length_drop.
      rewrite <- Eq, length_app. simpl. lia.
  - apply Nat.leb_gt in E. exact E.
Qed.

Lemma handleEvent_keeps_queue_short_witness :
  length (sendQueue (handleEvent (Visit.went_hidden 4) Visit.three_queued))
  < 50.
Proof.
  apply (handleEvent_keeps_queue_short (Visit.went_hidden 4)
           Visit.three_queued);
    [reflexivity | vm_compute; lia | vm_compute; lia].
Defined.

Lemma undelivered_sendBatch (this : t) :
  undelivered (sendBatch this) = undelivered this.
Proof.
  unfold sendBatch, undelivered.
  destruct (sendQueue this) as [|e q] eqn:E; [now rewrite E|].
  simpl pending. simpl sendQueue. rewrite concat_app. simpl concat.
  rewrite app_nil_r, <- !app_assoc, take_drop. reflexivity.
Qed.

Lemma undelivered_settle (this : t) (k : nat) (o : FetchOutcome)
  (batch : list Event) :
  pending this !! k = Some batch ->
  if delivered o
  then undelivered this ≡ₚ batch ++ undelivered (settle k o this)
  else undelivered (settle k o this) ≡ₚ undelivered this.
Proof.
  intros Hk. unfold settle, undelivered. rewrite Hk.
  pose proof (concat_delete _ _ _ Hk) as Hperm.
  destruct (delivered o); simpl.
  - rewrite Hperm. now rewrite app_assoc.
  - rewrite Hperm. rewrite !app_assoc.
    apply Permutation_app_tail, Permutation_app_comm.
Qed.

(** X4.  No recorded event is lost or duplicated before it is
    delivered.  Starting a flush leaves the undelivered events (in
    flight, then queued) as they were; a failed request leaves the same
    events, the batch moving from the batches in flight back to the head
    of the queue; a delivered request removes exactly its batch; and
    recording an event on a recording session adds exactly that event,
    last. *)
Theorem undelivered_conserved (this : t) (k : nat) (o : FetchOutcome)
  (batch : list Event) (ev : Event) :
  undelivered (sendBatch this) = undelivered this
  /\ (pending this !! k = Some batch ->
      if delivered o
      then undelivered this ≡ₚ batch ++ undelivered (settle k o this)
      else undelivered (settle k o this) ≡ₚ undelivered this)
  /\ (isRecording this = true ->
      undelivered (handleEvent ev this)
      = undelivered this ++ [set_sessionId (sessionId this) ev]).
Proof.
  split; [apply undelivered_sendBatch|]. split.
  - apply undelivered_settle.
  - intros Hrec. apply (handleEvent_recording ev this Hrec).
Qed.

Lemma undelivered_conserved_witness :
  let flying := sendBatch Visit.three_queued in
  undelivered (settle 0 (Rejected []) flying) ≡ₚ undelivered flying.
Proof.
  intros flying.
  apply (proj1 (proj2 (undelivered_conserved flying 0 (Rejected [])
                         (take 50 (sendQueue Visit.three_queued))
                         (Visit.went_hidden 4)))).
  reflexivity.
Defined.

Lemma sendBatch_fields (this : t) :
  isRecording (sendBatch this) = isRecording this
  /\ sessionId (sendBatch this) = sessionId this
  /\ config (sendBatch this) = config this
  /\ batchTimer (sendBatch this) = batchTimer this
  /\ domRecorder (sendBatch this) = domRecorder this
  /\ interactionRecorder (sendBatch this) = interactionRecorder this
  /\ inputRecorder (sendBatch this) = inputRecorder this
  /\ navigationRecorder (sendBatch this) = navigationRecorder this
  /\ isSampled (sendBatch this) = isSampled this.
Proof. unfold sendBatch. destruct (sendQueue this); repeat split. Qed.

(** Recording an event changes the record of events and the queue
    only. *)
Lemma handleEvent_fields (ev : Event) (this : t) :
  isRecording (handleEvent ev this) = isRecording this
  /\ sessionId (handleEvent ev this) = sessionId this
  /\ config (handleEvent ev this) = config this
  /\ batchTimer (handleEvent ev this) = batchTimer this
  /\ domRecorder (handleEvent ev this) = domRecorder this
  /\ interactionRecorder (handleEvent ev this) = interactionRecorder this
  /\ inputRecorder (handleEvent ev this) = inputRecorder this
  /\ navigationRecorder (handleEvent ev this) = navigationRecorder this
  /\ isSampled (handleEvent ev this) = isSampled this.
Proof.
  unfold handleEvent. destruct (negb (isRecording this)); [repeat split|].
  simpl.
  destruct (batchSize (config this) <=? length (sendQueue this ++ [_]))%nat;
    [|repeat split].
  match goal with |- context [sendBatch ?x] =>
    destruct (sendBatch_fields x) as (-> & -> & -> & -> & -> & -> & -> & -> & ->)
  end.
  repeat split.
Qed.

Lemma handleEvents_fields (evs : list Event) (this : t) :
  isRecording (handleEvents evs this) = isRecording this
  /\ sessionId (handleEvents evs this) = sessionId this
  /\ config (handleEvents evs this) = config this
  /\ batchTimer (handleEvents evs this) = batchTimer this
  /\ domRecorder (handleEvents evs this) = domRecorder this
  /\ interactionRecorder (handleEvents evs this) = interactionRecorder this
  /\ inputRecorder (handleEvents evs this) = inputRecorder this
  /\ navigationRecorder (handleEvents evs this) = navigationRecorder this
  /\ isSampled (handleEvents evs this) = isSampled this.
Proof.
  revert this. induction evs as [|ev evs IH]; intros this; simpl.
  - repeat split.
  - unfold handleEvents in *. simpl.
    destruct (IH (handleEvent ev this))
      as (-> & -> & -> & -> & -> & -> & -> & -> & ->).
    apply handleEvent_fields.
Qed.

(** X5.  Events are stamped with the session identifier for as long as
    the identifier stays the same: if every event the recorder holds
    carries its session identifier, this is still so after an event is
    recorded, after a flush is started, and after a request is answered,
    whatever the answer. *)
Theorem stamped_kept (this : t) (ev : Event) (k : nat) (o : FetchOutcome) :
  stamped (sessionId this) this ->
  stamped (sessionId this) (handleEvent ev this)
  /\ stamped (sessionId this) (sendBatch this)
  /\ stamped (sessionId this) (settle k o this).
Proof.
  intros [He Hu]. split; [|split].
  - unfold handleEvent. destruct (isRecording this) eqn:Hrec; simpl;
      [|split; assumption].
    destruct (handleEvent_recording ev this Hrec) as [E U].
    unfold handleEvent in E, U. rewrite Hrec in E, U. simpl in E, U.
    split.
    + rewrite E. apply Forall_app. split; [exact He|].
      repeat constructor.
    + rewrite U. apply Forall_app. split; [exact Hu|].
      repeat constructor.
  - split.
    + now rewrite WebvisorFacts.sendBatch_events.
    + now rewrite undelivered_sendBatch.
  - unfold settle. destruct (pending this !! k) as [batch|] eqn:Hk;
      [|split; assumption].
    split; [exact He|].
    pose proof (undelivered_settle this k o batch Hk) as Hperm.
    unfold settle in Hperm. rewrite Hk in Hperm.
    destruct (delivered o).
    + rewrite Hperm in Hu. apply Forall_app in Hu. apply Hu.
    + now rewrite Hperm.
Qed.

Lemma stamped_kept_witness :
  stamped (sessionId Visit.three_queued)
          (handleEvent (event MOUSE_CLICK 5 (HiddenData []))
             Visit.three_queued).
Proof.
  refine (proj1 (stamped_kept Visit.three_queued
                   (event MOUSE_CLICK 5 (HiddenData [])) 0 (Rejected [])
                   _)).
  split; repeat constructor.
Defined.

End PipelineFacts.

(** ** Starting a session (Webvisor.js) *)

Module StartFacts.
Import Events Webvisor.

Lemma startBatchTimer_fields (this : t) :
  batchTimer (startBatchTimer this) = true
  /\ isRecording (startBatchTimer this) = isRecording this
  /\ sessionId (startBatchTimer this) = sessionId this
  /\ domRecorder (startBatchTimer this) = domRecorder this
  /\ interactionRecorder (startBatchTimer this) = interactionRecorder this
  /\ inputRecorder (startBatchTimer this) = inputRecorder this
  /\ navigationRecorder (startBatchTimer this) = navigationRecorder this.
Proof.
  unfold startBatchTimer. destruct (batchTimer this) eqn:E; repeat split.
  exact E.
Qed.

(** X6.  [start()] answers true exactly when the recorder is not
    recording, the page is not excluded and the sampling decision is
    true.  It then is recording under the new session identifier, with
    the batch timer set, the mutation observer attached and the
    navigation recorder started on the current URL, which is not
    excluded; and a further [start()] answers false and changes nothing.
    When it answers false, the events, the queue, the batches in flight,
    the session identifier and the recorders are as before. *)
Theorem start_outcome (w w2 : Window) (env env2 : StartEnv)
  (root root2 : Dom.Node) (this : t) :
  let '(started, this') := start w env root this in
  started = negb (isRecording this) && negb (isPageExcluded w this)
            && shouldSample env
  /\ (started = true ->
      isRecording this' = true
      /\ sessionId this' = Some (freshSessionId env)
      /\ batchTimer this' = true
      /\ option_map DOMRecorder.observer (domRecorder this') = Some true
      /\ (exists nav,
            navigationRecorder this' = Some nav
            /\ NavigationRecorder.isRecording nav = true
            /\ NavigationRecorder.currentUrl nav = location_href w
            /\ NavigationRecorder.isExcludedPage nav (location_href w)
               = false)
      /\ start w2 env2 root2 this' = (false, this'))
  /\ (started = false ->
      events this' = events this
      /\ sendQueue this' = sendQueue this
      /\ pending this' = pending this
      /\ sessionId this' = sessionId this
      /\ isRecording this' = isRecording this
      /\ domRecorder this' = domRecorder this
      /\ navigationRecorder this' = navigationRecorder this).
Proof.
  unfold start.
  destruct (isRecording this) eqn:Hrec; simpl.
  { split; [reflexivity|]. split; [discriminate|]. intros _.
    repeat split; auto. }
  destruct (isPageExcluded w this) eqn:Hex; simpl.
  { split; [reflexivity|]. split; [discriminate|]. intros _.
    repeat split; auto. }
  destruct (shouldSample env) eqn:Hs; simpl.
  2:{ split; [reflexivity|]. split; [discriminate|]. intros _.
      repeat split; auto. }
  unfold NavigationRecorder.recordPageLoad. simpl.
  unfold isPageExcluded in Hex.
  unfold NavigationRecorder.isExcludedPage at 1. simpl. rewrite Hex.
  split; [reflexivity|]. split; [|discriminate]. intros _.
  match goal with |- context [startBatchTimer ?x] =>
    destruct (startBatchTimer_fields x) as (Ht & Hr & Hi & Hd & _ & _ & Hn);
    set (final := startBatchTimer x) in *
  end.
  match type of Hr with _ = isRecording (handleEvents ?l ?x) =>
    destruct (PipelineFacts.handleEvents_fields l x)
      as (Hr1 & Hi1 & _ & _ & Hd1 & _ & _ & Hn1 & _)
  end.
  rewrite Hr1 in Hr. rewrite Hi1 in Hi. rewrite Hd1 in Hd. rewrite Hn1 in Hn.
  simpl in Hr, Hi, Hd, Hn.
  match type of Hr with _ = isRecording (handleEvent ?e ?x) =>
    destruct (PipelineFacts.handleEvent_fields e x)
      as (Hr2 & Hi2 & _ & _ & _ & _ & _ & _ & _)
  end.
  rewrite Hr2 in Hr. rewrite Hi2 in Hi.
  match type of Hr with _ = isRecording (handleEvent ?e ?x) =>
    destruct (PipelineFacts.handleEvent_fields e x)
      as (Hr3 & Hi3 & _ & _ & _ & _ & _ & _ & _)
  end.
  rewrite Hr3 in Hr. rewrite Hi3 in Hi. simpl in Hr, Hi.
  split; [exact Hr|]. split; [exact Hi|]. split; [exact Ht|].
  split; [now rewrite Hd|]. split.
  - eexists. split; [exact Hn|]. simpl.
    unfold NavigationRecorder.isExcludedPage. simpl. auto.
  - now rewrite Hr.
Qed.

End StartFacts.

(** ** Runs of page transitions (NavigationRecorder.js) *)

Module NavigationFacts.
Import Events NavigationRecorder Navigation.

Lemma recordTransition_cases (w : Window) (trigger : jsstring) (this : t) :
  (recordTransition w trigger this = (this, []))
  \/ (location_href w <> currentUrl this
      /\ isExcludedPage this (location_href w) = false
      /\ recordTransition w trigger this
         = (set_currentUrl (location_href w) this,
            [ event PAGE_TRANSITION (Date_now w)
                (TransitionData trigger (currentUrl this) (location_href w)
                   (document_title w)) ])).
Proof.
  unfold recordTransition.
  destruct (Js.eqb (location_href w) (currentUrl this)) eqn:E; [now left|].
  destruct (isExcludedPage this (location_href w)) eqn:X; [now left|].
  right. apply JsFacts.eqb_neq in E. auto.
Qed.

(** X7.  From a navigation recorder whose current URL is not an excluded
    page, the events of any run of [recordTransition] calls form a chain:
    each is a page transition that starts at the URL where the one
    before ended (the first at the recorder's current URL) and goes to a
    different URL, the chain ends at the recorder's current URL
    afterwards, and no event names an excluded page, as origin or as
    destination. *)
Theorem transitions_chain (calls : list (Window * jsstring)) (this : t) :
  isExcludedPage this (currentUrl this) = false ->
  let '(this', evs) := recordTransitions calls this in
  chained (currentUrl this) evs (currentUrl this')
  /\ Forall (clean this) evs
  /\ isExcludedPage this' (currentUrl this') = false
  /\ excludePages this' = excludePages this.
Proof.
  revert this. induction calls as [|[w trigger] rest IH]; intros this Hc.
  - simpl. auto.
  - simpl.
    destruct (recordTransition_cases w trigger this)
      as [-> | (Hne & Hex & ->)].
    + specialize (IH this Hc).
      destruct (recordTransitions rest this) as [this2 evs']. exact IH.
    + specialize (IH (set_currentUrl (location_href w) this) Hex).
      destruct (recordTransitions rest (set_currentUrl (location_href w) this))
        as [this2 evs'].
      destruct IH as (Hch & Hcl & Hfin & Hpat). simpl.
      repeat split; auto.
      constructor; [split; assumption | exact Hcl].
Qed.

Lemma transitions_chain_witness :
  let calls :=
    [(Samples.at_product, js "pushState");
     (Visit.at_admin, js "pushState");
     (Visit.later, js "popstate")] in
  length (snd (recordTransitions calls Visit.on_cart)) = 2
  /\ Forall (clean Visit.on_cart)
       (snd (recordTransitions calls Visit.on_cart)).
Proof.
  intros calls. split; [reflexivity|].
  generalize (transitions_chain calls Visit.on_cart eq_refl).
  destruct (recordTransitions calls Visit.on_cart) as [this' evs].
  intros (_ & H & _). exact H.
Defined.

End NavigationFacts.

(** ** The mutation watcher and the registry (DOMRecorder.js) *)

Module MutationsFacts.
Import Dom Events DOMRecorder Mutations.

Lemma extends_refl (this : t) : Registry.ok this -> extends this this.
Proof. intros H. repeat split; auto; apply H. Qed.

Lemma extends_trans (a b c : t) : extends a b -> extends b c -> extends a c.
Proof.
  intros (_ & Hab & Eab) (Hc & Hbc & Ebc).
  split; [exact Hc|]. split; [auto | congruence].
Qed.

Lemma getNodeId_extends (node : nat) (this : t) :
  Registry.ok this ->
  let '(r, this') := getNodeId node this in
  extends this this'
  /\ exists i, r = Some i /\ nodeIdMap this' !! node = Some i.
Proof.
  intros Hok.
  pose proof (DOMRecorderFacts.getNodeId_spec this node) as Hs.
  pose proof (DOMRecorderFacts.getNodeId_ok this node Hok) as Hok'.
  assert (He : excludeAttribute (snd (getNodeId node this))
               = excludeAttribute this).
  { unfold getNodeId. destruct (nodeIdMap this !! node); reflexivity. }
  destruct (getNodeId node this) as [r this']. simpl in *.
  destruct Hs as (Hkeep & _ & Hi). repeat split; auto; apply Hok'.
Qed.

Lemma mapM_extends {A B} (f : A -> M B) (l : list A) (this : t) :
  (forall x st, Registry.ok st -> extends st (snd (f x st))) ->
  Registry.ok this ->
  extends this (snd (mapM f l this)).
Proof.
  intros Hf. revert this. induction l as [|x l IH]; intros this Hok.
  - simpl. now apply extends_refl.
  - simpl. unfold bind at 1.
    pose proof (Hf x this Hok) as H1.
    destruct (f x this) as [y this1]. simpl in H1.
    unfold bind at 1.
    pose proof (IH this1 (proj1 H1)) as H2.
    destruct (mapM f l this1) as [ys this2]. simpl in *.
    eapply extends_trans; eassumption.
Qed.

Lemma payload_of_extends (m : MutationRecord) (this : t) :
  Registry.ok this ->
  let '(p, this') := payload_of m this in
  extends this this'
  /\ mutationType p
     = match mtype m with
       | childList => CHILD_LIST
       | attributes => ATTRIBUTES
       | characterData => CHARACTER_DATA
       end.
Proof.
  intros Hok. unfold payload_of.
  destruct (mtype m); simpl;
    try (split; [now apply extends_refl | reflexivity]).
  unfold bind at 1.
  assert (H1 : extends this
                 (snd (mapM describe_added
                         (List.filter (keep_added this) (addedNodes m)) this))).
  { apply mapM_extends; [|exact Hok]. intros x st Hst.
    unfold describe_added, bind.
    pose proof (getNodeId_extends (oid (self x)) st Hst) as H.
    destruct (getNodeId (oid (self x)) st) as [r st']. simpl. apply H. }
  destruct (mapM describe_added _ this) as [added this1]. simpl in H1.
  unfold bind at 1.
  assert (H2 : extends this1
                 (snd (mapM (fun node => getNodeId (oid (self node)))
                         (removedNodes m) this1))).
  { apply mapM_extends; [|apply H1]. intros x st Hst.
    pose proof (getNodeId_extends (oid (self x)) st Hst) as H.
    destruct (getNodeId (oid (self x)) st) as [r st']. simpl. apply H. }
  destruct (mapM _ (removedNodes m) this1) as [removed this2]. simpl in *.
  split; [eapply extends_trans; eassumption | reflexivity].
Qed.

Lemma isExcluded_attr (a b : t) (l : Located) :
  excludeAttribute a = excludeAttribute b -> isExcluded a l = isExcluded b l.
Proof. intros H. unfold isExcluded. now rewrite H. Qed.

Lemma records_extends (a b : t) (e : Event) (m : MutationRecord) :
  extends a b -> records a e m -> records b e m.
Proof.
  intros (_ & Hab & _) (Ht & i & p & Hd & Hi & Hp).
  split; [exact Ht|]. exists i, p. auto.
Qed.

Lemma process_one_spec (w : Window) (m : MutationRecord) (this : t) :
  Registry.ok this ->
  let '(r, this') := process_one w m this in
  extends this this'
  /\ if skipped this m then r = None
     else exists e, r = Some e /\ records this' e m.
Proof.
  intros Hok. unfold process_one, skipped.
  destruct (is_element (self (target m)) && isExcluded this (target m)).
  - split; [now apply extends_refl | reflexivity].
  - unfold bind at 1.
    pose proof (getNodeId_extends (oid (self (target m))) this Hok) as H1.
    destruct (getNodeId (oid (self (target m))) this) as [r this1].
    destruct H1 as (He1 & i & -> & Hi).
    unfold bind at 1.
    pose proof (payload_of_extends m this1 (proj1 He1)) as H2.
    destruct (payload_of m this1) as [p this2].
    destruct H2 as [He2 Hty]. simpl in *.
    split; [eapply extends_trans; eassumption|].
    eexists. split; [reflexivity|].
    split; [reflexivity|]. exists i, p.
    split; [reflexivity|]. split; [|exact Hty].
    now apply He2.
Qed.

(** X8.  [processMutations] keeps the node registry sound and never
    changes an identifier it has handed out.  It emits one mutation
    event for each mutation that is not skipped, in order, and the target
    identifier of each event is the identifier that the registry holds
    for the target node afterwards. *)
Theorem processMutations_registry (w : Window)
  (mutations : list MutationRecord) (this : t) :
  Registry.ok this ->
  let '(evs, this') := processMutations w mutations this in
  extends this this'
  /\ Forall2 (records this') evs (recorded this mutations).
Proof.
  revert this. induction mutations as [|m rest IH]; intros this Hok.
  - simpl. split; [now apply extends_refl | constructor].
  - simpl. unfold bind at 1.
    pose proof (process_one_spec w m this Hok) as H1.
    destruct (process_one w m this) as [r this1].
    destruct H1 as [He1 Hr].
    unfold bind at 1.
    specialize (IH this1 (proj1 He1)).
    destruct (processMutations w rest this1) as [evs this2].
    destruct IH as [He2 Hall]. simpl.
    split; [eapply extends_trans; eassumption|].
    assert (Hrec : recorded this1 rest = recorded this rest).
    { unfold recorded, skipped. apply filter_ext. intros x.
      now rewrite (isExcluded_attr this1 this) by apply He1. }
    rewrite Hrec in Hall.
    destruct (skipped this m) eqn:Hsk; simpl.
    + subst r. exact Hall.
    + destruct Hr as (e & -> & Hrecs). constructor; [|exact Hall].
      eapply records_extends; eassumption.
Qed.

Lemma processMutations_registry_witness :
  let '(evs, this') :=
    processMutations Page.window
      [Page.div_changed; Page.text_changed; Page.section_added]
      Page.recorder in
  Forall2 (records this') evs [Page.text_changed; Page.section_added].
Proof.
  generalize (processMutations_registry Page.window
                [Page.div_changed; Page.text_changed; Page.section_added]
                Page.recorder (DOMRecorderFacts.create_ok None)).
  destruct (processMutations _ _ Page.recorder) as [evs this'].
  intros [_ H]. exact H.
Defined.

(** *** What the snapshot holds *)

Lemma children_clean (attr : jsstring) (X : gset nat) (cs : list Node) :
  Forall (fun c => match serializeNode X c with
                   | Some s => mentions attr s = false
                   | None => True
                   end) cs ->
  (fix any (l : list Serialized) : bool :=
     match l with
     | [] => false
     | c :: l' => mentions attr c || any l'
     end)
    ((fix each (l : list Node) : list Serialized :=
        match l with
        | [] => []
        | child :: l' =>
            match serializeNode X child with
            | Some childSerialized => childSerialized :: each l'
            | None => each l'
            end
        end) cs)
  = false.
Proof.
  induction 1 as [|c cs Hc _ IH]; [reflexivity|].
  destruct (serializeNode X c) as [sc|]; [|exact IH].
  rewrite Hc. exact IH.
Qed.

Lemma serialize_clean (attr : jsstring) (X : gset nat) (n : Node) :
  (forall el, In el (subtree_elements n) ->
              hasAttribute el attr = true -> oid el ∈ X) ->
  match serializeNode X n with
  | Some s => mentions attr s = false
  | None => True
  end.
Proof.
  induction n as [o e cs IH | o d | o d] using Node_induction;
    intros Hin; try reflexivity.
  simpl serializeNode. destruct (decide (o ∈ X)) as [|Hout]; [exact I|].
  assert (Hno : lookup_attr attr (Dom.attributes e) = None).
  { destruct (lookup_attr attr (Dom.attributes e)) eqn:E; [|reflexivity].
    exfalso. apply Hout.
    apply (Hin (Element o e cs)); [now left|].
    unfold hasAttribute. simpl. now rewrite E. }
  assert (Hcs : Forall (fun c => match serializeNode X c with
                                 | Some s => mentions attr s = false
                                 | None => True
                                 end) cs).
  { apply List.Forall_forall. intros c Hc.
    rewrite List.Forall_forall in IH. apply (IH c Hc).
    intros el Hel. apply Hin. right. apply in_flat_map. eauto. }
  apply (children_clean attr X) in Hcs.
  simpl mentions. apply orb_false_iff. split.
  - destruct (Dom.attributes e); [reflexivity|]. now rewrite Hno.
  - destruct cs; [reflexivity|]. exact Hcs.
Qed.

(** X9.  The snapshot never holds an element that carries the exclusion
    attribute: the tree that [captureSnapshot] puts in its event, when
    there is one, has no element with the attribute anywhere, and so
    nothing of the subtrees below such elements. *)
Theorem snapshot_holds_no_excluded_element (this : t) (w : Window)
  (root : Node) :
  exists html,
    data (captureSnapshot this w root)
    = SnapshotData (doctype w) html (location_href w) (document_title w)
        (innerWidth w, innerHeight w) (pageXOffset w, pageYOffset w)
    /\ match html with
       | Some s => mentions (excludeAttribute this) s = false
       | None => True
       end.
Proof.
  unfold captureSnapshot. simpl. eexists. split; [reflexivity|].
  apply serialize_clean. intros el Hel Hattr.
  apply DOMRecorderFacts.excludedElements_spec. exists el. split; [|auto].
  unfold querySelectorAll_attr. apply list_elem_of_In, filter_In. auto.
Qed.

End MutationsFacts.

(** ** The form and pointer handlers (InputRecorder.js,
       InteractionRecorder.js) *)

Module HandlersFacts.
Import Dom InputRecorder InputHandlers.

Lemma loops_agree (attr : jsstring) (chain : list Node) :
  InputRecorder.isExcluded_loop attr chain
  = InteractionRecorder.isExcluded_loop attr chain
  /\ InputRecorder.isExcluded_loop attr chain
     = DOMRecorder.isExcluded_loop attr chain.
Proof.
  induction chain as [|n chain [IH1 IH2]]; [split; reflexivity|].
  simpl. rewrite IH1, <- IH2, IH1. split; reflexivity.
Qed.

(** The three recorders decide exclusion alike, on every node. *)
Lemma isExcluded_agree (attr : jsstring) (d : DOMRecorder.t)
  (i : InteractionRecorder.InteractionOptions) (o : Options)
  (l : Located) :
  DOMRecorder.excludeAttribute d = attr ->
  InteractionRecorder.excludeAttribute i = attr ->
  opt_excludeAttribute o = attr ->
  DOMRecorder.isExcluded d l = isExcluded o (Some l)
  /\ InteractionRecorder.isExcluded i l = isExcluded o (Some l).
Proof.
  intros Hd Hi Ho. unfold DOMRecorder.isExcluded,
    InteractionRecorder.isExcluded, isExcluded. rewrite Hd, Hi, Ho.
  destruct (loops_agree attr (lineage l)) as [H1 H2].
  rewrite <- H1, <- H2. unfold lineage. simpl.
  destruct (is_element (self l)); split; reflexivity.
Qed.

Lemma loop_finds (attr : jsstring) (chain : list Node) :
  Forall (fun n => is_element n = true) chain ->
  existsb (fun n => Dom.hasAttribute n attr) chain = true ->
  InputRecorder.isExcluded_loop attr chain = true.
Proof.
  induction 1 as [|n chain Hn _ IH]; simpl; [discriminate|].
  rewrite Hn. simpl. destruct (Dom.hasAttribute n attr); auto.
Qed.

(** X10.  For a target element that carries the exclusion attribute, or
    has an ancestor element that carries it, the input, change, focus and
    blur handlers and the click handler hand no event to [onEvent]. *)
Theorem handlers_silent_on_excluded (this : Options)
  (pointer : InteractionRecorder.InteractionOptions) (t : Target)
  (e : InteractionRecorder.MouseEvent) :
  InteractionRecorder.excludeAttribute pointer = opt_excludeAttribute this ->
  InteractionRecorder.click_target e = node t ->
  Forall (fun n => is_element n = true) (lineage (node t)) ->
  existsb (fun n => Dom.hasAttribute n (opt_excludeAttribute this))
          (lineage (node t)) = true ->
  input this (Some t) = None
  /\ change this (Some t) = None
  /\ focus this (Some t) = None
  /\ blur this (Some t) = None
  /\ InteractionRecorder.mouseClick pointer e = None.
Proof.
  intros Hp He Hall Hex.
  assert (Hx : isExcluded this (Some (node t)) = true).
  { unfold isExcluded. now apply loop_finds. }
  unfold input, change, focus, blur, focus_or_blur. rewrite Hx.
  repeat split.
  unfold InteractionRecorder.mouseClick. rewrite He.
  unfold InteractionRecorder.isExcluded. rewrite Hp.
  destruct (loops_agree (opt_excludeAttribute this) (lineage (node t)))
    as [<- _].
  unfold isExcluded in Hx. rewrite Hx.
  inversion Hall as [|? ? Hself _]; subst. now rewrite Hself.
Qed.

Lemma handlers_silent_on_excluded_witness :
  input Samples.defaults (Some Samples.note_field) = None
  /\ change Samples.defaults (Some Samples.note_field) = None
  /\ focus Samples.defaults (Some Samples.note_field) = None
  /\ blur Samples.defaults (Some Samples.note_field) = None
  /\ InteractionRecorder.mouseClick Samples.pointer
       {| InteractionRecorder.clientX := 10;
          InteractionRecorder.clientY := 20;
          InteractionRecorder.pageX := 10;
          InteractionRecorder.pageY := 220;
          InteractionRecorder.button := 0;
          InteractionRecorder.click_target := node Samples.note_field |}
     = None.
Proof.
  apply (handlers_silent_on_excluded Samples.defaults Samples.pointer
           Samples.note_field).
  - reflexivity.
  - reflexivity.
  - repeat constructor.
  - reflexivity.
Defined.

(** *** Masking *)

Lemma word_at_lower (x post : jsstring) :
  word_at (toLowerCase x) (x ++ post) = true.
Proof.
  induction x as [|c x IH]; simpl; [reflexivity|].
  now rewrite N.eqb_refl, IH.
Qed.

Lemma test_here (p : NamePattern) (s : jsstring) :
  pattern_at p s = true -> test p s = true.
Proof. intros H. destruct s; simpl; now rewrite H. Qed.

(** A pattern that is one word matches every string that holds the word,
    in any letter case. *)
Lemma test_word (w pre x post : jsstring) :
  toLowerCase x = w -> test (Word w) (pre ++ x ++ post) = true.
Proof.
  intros <-. induction pre as [|c pre IH].
  - apply test_here. exact (word_at_lower x post).
  - simpl. rewrite IH. apply orb_true_r.
Qed.

(** X11.  With [maskSensitiveInputs] on, a control whose name, id or
    placeholder holds one of the words password, passwd, credit, card,
    cvv, cvc, ssn, secret or token, in any letter case and anywhere in
    the string, is masked. *)
Theorem sensitive_word_masks (this : Options) (e : Control)
  (w pre x post : jsstring) :
  opt_maskSensitiveInputs this = true ->
  In (Word w) SENSITIVE_NAME_PATTERNS ->
  toLowerCase x = w ->
  name e = Some (pre ++ x ++ post)
  \/ id e = Some (pre ++ x ++ post)
  \/ placeholder e = Some (pre ++ x ++ post) ->
  shouldMask this e = true.
Proof.
  intros Hs Hw Hx Hfield.
  rewrite InputRecorderFacts.shouldMask_unfold, Hs. simpl.
  assert (Hname : sensitive_name e = true).
  { unfold sensitive_name. apply existsb_exists. exists (Word w).
    split; [exact Hw|].
    pose proof (test_word w pre x post Hx) as Ht.
    destruct Hfield as [-> | [-> | ->]]; simpl; rewrite Ht;
      rewrite ?orb_true_r; reflexivity. }
  rewrite Hname. rewrite orb_true_r. simpl. apply orb_true_r.
Qed.

Lemma sensitive_word_masks_witness :
  shouldMask Samples.defaults (control Samples.password_field) = true.
Proof.
  apply (sensitive_word_masks Samples.defaults
           (control Samples.password_field)
           (js "password") (js "User") (js "Password") (js "2")).
  - reflexivity.
  - simpl. auto.
  - reflexivity.
  - left. reflexivity.
Defined.

(** X12.  For a control that [shouldMask] says to mask, the event of the
    input handler carries, for the value, the mask character repeated as
    many times as the value is long, 20 at most, and is flagged as
    masked; the selection offsets of the control are copied into it as
    they are.  So two states of the control that have the same selection
    and values of the same capped length give the same event. *)
Theorem masked_input_shows_length_and_selection (this : Options)
  (t1 t2 : Target) :
  shouldMask this (control t1) = true ->
  node t2 = node t1 -> control t2 = control t1 ->
  selectionStart t2 = selectionStart t1 ->
  selectionEnd t2 = selectionEnd t1 ->
  Nat.min (length (value t1)) 20 = Nat.min (length (value t2)) 20 ->
  input this (Some t1) = input this (Some t2)
  /\ match input this (Some t1) with
     | Some (TextInput _ _ _ v masked from to) =>
         masked = true
         /\ v = replicate (Nat.min (length (value t1)) 20) MASK_CHAR
         /\ from = selectionStart t1 /\ to = selectionEnd t1
     | Some _ => False
     | None => True
     end.
Proof.
  intros Hm Hn Hc Hs He Hlen. unfold input, tag.
  rewrite Hn, Hc, Hs, He, Hm.
  rewrite !InputRecorderFacts.maskValue_replicate, Hlen.
  split; [reflexivity|].
  repeat match goal with
         | |- context [if ?c then None else _] => destruct c; try exact I
         end.
  repeat split; reflexivity.
Qed.

Lemma masked_input_shows_length_and_selection_witness :
  input Samples.defaults (Some (Samples.typed (js "hunter2")))
  = input Samples.defaults (Some (Samples.typed (js "passw0r"))).
Proof.
  apply (proj1 (masked_input_shows_length_and_selection Samples.defaults
                  (Samples.typed (js "hunter2"))
                  (Samples.typed (js "passw0r"))
                  eq_refl eq_refl eq_refl eq_refl eq_refl eq_refl)).
Defined.

(** The selection is not masked: values of 25 and of 30 characters,
    typed into the password field, are masked to the same twenty
    characters, and the caret tells them apart. *)
Lemma masked_input_caret_shows_length :
  let short := replicate 25 120%N in
  let long := replicate 30 120%N in
  maskValue short = maskValue long
  /\ input Samples.defaults (Some (Samples.typed short))
     <> input Samples.defaults (Some (Samples.typed long))
  /\ match input Samples.defaults (Some (Samples.typed long)) with
     | Some (TextInput _ _ _ v masked from to) =>
         length v = 20 /\ from = Some 30%Z /\ to = Some 30%Z
     | _ => False
     end.
Proof. vm_compute. repeat split. discriminate. Qed.

End HandlersFacts.

(* ===================================================================== *)
(** ** The session files: accumulation, listing, cleanup *)
(* ===================================================================== *)

Module SessionFilesFacts.
Import Wire SessionFiles.

Lemma last_cons_default {A} (a d : A) (l : list A) :
  List.last (a :: l) d = List.last l a.
Proof.
  revert a d. induction l as [|b l IH]; intros a d; [reflexivity|].
  change (List.last (b :: l) d = List.last (b :: l) a).
  now rewrite !IH.
Qed.

(** What [getSession] reads after one more call of [storeEvents] for a
    session that has a file. *)
Lemma storeEvents_existing (this : SessionStore.t) (now : Z)
  (sid : jsstring) (evs : list PostedEvent) (m : Meta)
  (fs : SessionStore.FS) (s : SessionStore.Session) :
  SessionStore.getSession this sid fs = Some s ->
  SessionStore.getSession this sid
    (snd (SessionStore.storeEvents this now sid evs m fs))
  = Some {| SessionStore.sessionId := SessionStore.sessionId s;
            SessionStore.meta := SessionStore.meta s;
            SessionStore.events := SessionStore.events s ++ evs;
            SessionStore.createdAt := SessionStore.createdAt s;
            SessionStore.updatedAt := now |}.
Proof.
  unfold SessionStore.getSession, SessionStore.storeEvents.
  destruct (fs !! SessionStore.getSessionPath this sid) as [[s'|c]|] eqn:E;
    try discriminate.
  intros [= ->]. simpl. now rewrite lookup_insert_eq.
Qed.

(** ... and for a session that has none, or whose file does not hold a
    session. *)
Lemma storeEvents_fresh (this : SessionStore.t) (now : Z)
  (sid : jsstring) (evs : list PostedEvent) (m : Meta)
  (fs : SessionStore.FS) :
  SessionStore.getSession this sid fs = None ->
  SessionStore.getSession this sid
    (snd (SessionStore.storeEvents this now sid evs m fs))
  = Some {| SessionStore.sessionId := sid;
            SessionStore.meta := m;
            SessionStore.events := evs;
            SessionStore.createdAt := now;
            SessionStore.updatedAt := now |}.
Proof.
  unfold SessionStore.getSession, SessionStore.storeEvents.
  destruct (fs !! SessionStore.getSessionPath this sid) as [[s'|c]|] eqn:E;
    try discriminate; intros _; simpl; now rewrite lookup_insert_eq.
Qed.

Lemma storeEvents_elsewhere (this : SessionStore.t) (now : Z)
  (sid : jsstring) (evs : list PostedEvent) (m : Meta)
  (fs : SessionStore.FS) (p : jsstring) :
  p <> SessionStore.getSessionPath this sid ->
  snd (SessionStore.storeEvents this now sid evs m fs) !! p = fs !! p.
Proof.
  intros Hp. unfold SessionStore.storeEvents. simpl.
  now rewrite lookup_insert_ne by congruence.
Qed.

Lemma store_all_elsewhere (this : SessionStore.t) (sid : jsstring)
  (batches : list Batch) (fs : SessionStore.FS) (p : jsstring) :
  p <> SessionStore.getSessionPath this sid ->
  store_all this sid batches fs !! p = fs !! p.
Proof.
  intros Hp. revert fs.
  induction batches as [|b rest IH]; intros fs; [reflexivity|].
  change (store_all this sid (b :: rest) fs)
    with (store_all this sid rest
            (snd (SessionStore.storeEvents this (b_now b) sid
                    (b_events b) (b_meta b) fs))).
  rewrite IH. now apply storeEvents_elsewhere.
Qed.

Lemma store_all_existing (this : SessionStore.t) (sid : jsstring)
  (rest : list Batch) (fs : SessionStore.FS) (s : SessionStore.Session) :
  SessionStore.getSession this sid fs = Some s ->
  SessionStore.getSession this sid (store_all this sid rest fs)
  = Some {| SessionStore.sessionId := SessionStore.sessionId s;
            SessionStore.meta := SessionStore.meta s;
            SessionStore.events :=
              SessionStore.events s ++ concat (map b_events rest);
            SessionStore.createdAt := SessionStore.createdAt s;
            SessionStore.updatedAt :=
              List.last (map b_now rest) (SessionStore.updatedAt s) |}.
Proof.
  revert fs s. induction rest as [|b rest IH]; intros fs s Hs.
  - simpl. rewrite app_nil_r. rewrite Hs. now destruct s.
  - change (store_all this sid (b :: rest) fs)
      with (store_all this sid rest
              (snd (SessionStore.storeEvents this (b_now b) sid
                      (b_events b) (b_meta b) fs))).
    erewrite IH by (apply storeEvents_existing; exact Hs).
    simpl SessionStore.events. simpl SessionStore.updatedAt.
    simpl SessionStore.sessionId. simpl SessionStore.meta.
    simpl SessionStore.createdAt.
    rewrite <- app_assoc.
    change (map b_now (b :: rest)) with (b_now b :: map b_now rest).
    now rewrite last_cons_default.
Qed.

(** X13.  Calls of [storeEvents] for one session identifier, starting
    where [getSession] finds no session for it (no file, or a file that
    does not parse), leave one session: it carries the identifier, the
    meta and the creation time of the first call, the events of all the
    calls in the order of the calls, and the time of the last call; the
    meta of the later calls is dropped.  No other file changes. *)
Theorem storeEvents_accumulates (this : SessionStore.t) (sid : jsstring)
  (first : Batch) (rest : list Batch) (fs : SessionStore.FS) :
  SessionStore.getSession this sid fs = None ->
  SessionStore.getSession this sid (store_all this sid (first :: rest) fs)
  = Some {| SessionStore.sessionId := sid;
            SessionStore.meta := b_meta first;
            SessionStore.events := concat (map b_events (first :: rest));
            SessionStore.createdAt := b_now first;
            SessionStore.updatedAt :=
              List.last (map b_now rest) (b_now first) |}
  /\ forall p, p <> SessionStore.getSessionPath this sid ->
               store_all this sid (first :: rest) fs !! p = fs !! p.
Proof.
  intros Hnone. split; [|intros p Hp; now apply store_all_elsewhere].
  change (store_all this sid (first :: rest) fs)
    with (store_all this sid rest
            (snd (SessionStore.storeEvents this (b_now first) sid
                    (b_events first) (b_meta first) fs))).
  erewrite store_all_existing by (apply storeEvents_fresh; exact Hnone).
  reflexivity.
Qed.

Lemma storeEvents_accumulates_witness :
  let batches :=
    [ {| b_now := 1700000000100; b_events := Batches.first_batch;
         b_meta := Batches.meta |};
      {| b_now := 1700000001600; b_events := Batches.second_batch;
         b_meta := empty_meta |} ] in
  option_map SessionStore.events
    (SessionStore.getSession Batches.store Batches.session
       (store_all Batches.store Batches.session batches
          (<[js "data/sessions/wv_lp2j1k00_4fzzzxjy.json" :=
               SessionStore.OtherFile (js "{")]> ∅)))
  = Some (Batches.first_batch ++ Batches.second_batch).
Proof.
  intros batches.
  assert (Hnone :
    SessionStore.getSession Batches.store Batches.session
      (<[js "data/sessions/wv_lp2j1k00_4fzzzxjy.json" :=
           SessionStore.OtherFile (js "{")]> ∅) = None)
    by (vm_compute; reflexivity).
  unfold batches.
  rewrite (proj1 (storeEvents_accumulates Batches.store Batches.session
                    _ _ _ Hnone)).
  reflexivity.
Defined.

(** X14.  Two session identifiers that differ only in characters the
    sanitiser removes share one file: a batch stored under the second is
    appended to the session of the first, whose identifier and meta it
    keeps, and either identifier reads that one session back. *)
Theorem storeEvents_merges_colliding_ids (this : SessionStore.t)
  (a b : jsstring) (t1 t2 : Z) (es1 es2 : list PostedEvent)
  (m1 m2 : Meta) (fs : SessionStore.FS) :
  SessionStore.safeId a = SessionStore.safeId b ->
  SessionStore.getSession this a fs = None ->
  let fs1 := snd (SessionStore.storeEvents this t1 a es1 m1 fs) in
  let '(s2, fs2) := SessionStore.storeEvents this t2 b es2 m2 fs1 in
  s2 = {| SessionStore.sessionId := a;
          SessionStore.meta := m1;
          SessionStore.events := es1 ++ es2;
          SessionStore.createdAt := t1;
          SessionStore.updatedAt := t2 |}
  /\ SessionStore.getSession this a fs2 = Some s2
  /\ SessionStore.getSession this b fs2 = Some s2.
Proof.
  intros Hab Hnone fs1.
  assert (Hpath : SessionStore.getSessionPath this b
                  = SessionStore.getSessionPath this a).
  { unfold SessionStore.getSessionPath. now rewrite Hab. }
  assert (H1 : fs1 !! SessionStore.getSessionPath this a
               = Some (SessionStore.SessionFile
                         {| SessionStore.sessionId := a;
                            SessionStore.meta := m1;
                            SessionStore.events := es1;
                            SessionStore.createdAt := t1;
                            SessionStore.updatedAt := t1 |})).
  { pose proof (storeEvents_fresh this t1 a es1 m1 fs Hnone) as H.
    fold fs1 in H. unfold SessionStore.getSession in H.
    destruct (fs1 !! SessionStore.getSessionPath this a) as [[s|c]|];
      try discriminate.
    now injection H as ->. }
  unfold SessionStore.storeEvents. rewrite Hpath, H1. simpl.
  repeat split; unfold SessionStore.getSession;
    rewrite ?Hpath, lookup_insert_eq; reflexivity.
Qed.

Lemma storeEvents_merges_colliding_ids_witness :
  let fs1 :=
    snd (SessionStore.storeEvents Batches.store 10 (js "user/1")
           Batches.first_batch Batches.meta ∅) in
  let '(s2, fs2) :=
    SessionStore.storeEvents Batches.store 20 (js "user1")
      Batches.second_batch empty_meta fs1 in
  s2 = {| SessionStore.sessionId := js "user/1";
          SessionStore.meta := Batches.meta;
          SessionStore.events :=
            Batches.first_batch ++ Batches.second_batch;
          SessionStore.createdAt := 10;
          SessionStore.updatedAt := 20 |}
  /\ SessionStore.getSession Batches.store (js "user/1") fs2 = Some s2
  /\ SessionStore.getSession Batches.store (js "user1") fs2 = Some s2.
Proof.
  apply (storeEvents_merges_colliding_ids Batches.store
           (js "user/1") (js "user1") 10 20
           Batches.first_batch Batches.second_batch
           Batches.meta empty_meta ∅); vm_compute; reflexivity.
Defined.

(** X15.  [deleteSession] undoes [storeEvents] for a session that had no
    file, and says so; on a session that has no file it changes nothing
    and returns false; and after it, in every case, the session cannot
    be read. *)
Theorem deleteSession_undoes_storeEvents (this : SessionStore.t)
  (now : Z) (sid : jsstring) (evs : list PostedEvent) (m : Meta)
  (fs : SessionStore.FS) :
  fs !! SessionStore.getSessionPath this sid = None ->
  SessionStore.deleteSession this sid
    (snd (SessionStore.storeEvents this now sid evs m fs)) = (true, fs)
  /\ SessionStore.deleteSession this sid fs = (false, fs)
  /\ forall fs',
       SessionStore.getSession this sid
         (snd (SessionStore.deleteSession this sid fs')) = None.
Proof.
  intros Hnone. unfold SessionStore.deleteSession. repeat split.
  - unfold SessionStore.storeEvents. simpl.
    rewrite lookup_insert_eq. now rewrite delete_insert_id.
  - now rewrite Hnone.
  - intros fs'. unfold SessionStore.getSession.
    destruct (fs' !! SessionStore.getSessionPath this sid) eqn:E; simpl.
    + now rewrite lookup_delete_eq.
    + now rewrite E.
Qed.

Lemma deleteSession_undoes_storeEvents_witness :
  SessionStore.deleteSession Batches.store Batches.session
    (snd (SessionStore.storeEvents Batches.store 10 Batches.session
            Batches.first_batch Batches.meta ∅))
  = (true, ∅).
Proof.
  apply (deleteSession_undoes_storeEvents Batches.store 10 Batches.session
           Batches.first_batch Batches.meta ∅).
  apply lookup_empty.
Defined.

(** *** Listing *)

Lemma place_Permutation (a : Listed) (l : list Listed) :
  place a l ≡ₚ a :: l.
Proof.
  induction l as [|b l IH]; simpl; [reflexivity|].
  destruct (updatedAt a <? updatedAt b)%Z; [|reflexivity].
  rewrite IH. apply Permutation_swap.
Qed.

Lemma sort_Permutation (l : list Listed) : sort l ≡ₚ l.
Proof.
  induction l as [|a l IH]; simpl; [reflexivity|].
  unfold sort in IH. now rewrite place_Permutation, IH.
Qed.

Lemma place_newest_first (a : Listed) (l : list Listed) :
  newest_first l -> newest_first (place a l).
Proof.
  induction l as [|b l IH]; simpl; [intros _; split; [constructor|exact I]|].
  intros [Hb Hl].
  destruct (updatedAt a <? updatedAt b)%Z eqn:E.
  - apply Z.ltb_lt in E. split; [|now apply IH].
    rewrite place_Permutation. constructor; [lia|exact Hb].
  - apply Z.ltb_ge in E. split; [|split; assumption].
    constructor; [exact E|].
    eapply Forall_impl; [exact Hb|]. intros c Hc. simpl in Hc. lia.
Qed.

Lemma sort_newest_first (l : list Listed) : newest_first (sort l).
Proof.
  induction l as [|a l IH]; simpl; [exact I|].
  now apply place_newest_first.
Qed.

Lemma place_at_time (t : Z) (a : Listed) (l : list Listed) :
  List.filter (at_time t) (place a l) = List.filter (at_time t) (a :: l).
Proof.
  induction l as [|b l IH]; [reflexivity|].
  simpl place. destruct (updatedAt a <? updatedAt b)%Z eqn:E; [|reflexivity].
  apply Z.ltb_lt in E.
  change (List.filter (at_time t) (b :: place a l))
    with (if at_time t b then b :: List.filter (at_time t) (place a l)
          else List.filter (at_time t) (place a l)).
  rewrite IH. simpl. unfold at_time.
  destruct (updatedAt a =? t)%Z eqn:Ea, (updatedAt b =? t)%Z eqn:Eb;
    try reflexivity.
  apply Z.eqb_eq in Ea, Eb. lia.
Qed.

Lemma sort_at_time (t : Z) (l : list Listed) :
  List.filter (at_time t) (sort l) = List.filter (at_time t) l.
Proof.
  induction l as [|a l IH]; [reflexivity|].
  change (sort (a :: l)) with (place a (sort l)).
  rewrite place_at_time. simpl. now rewrite IH.
Qed.

Lemma newest_first_take (n : nat) (l : list Listed) :
  newest_first l -> newest_first (take n l).
Proof.
  revert n. induction l as [|a l IH]; intros [|n]; simpl; try tauto.
  intros [Ha Hl]. split; [now apply Forall_take|now apply IH].
Qed.

Lemma newest_first_drop (n : nat) (l : list Listed) :
  newest_first l -> newest_first (drop n l).
Proof.
  revert n. induction l as [|a l IH]; intros [|n]; simpl; try tauto.
  intros [Ha Hl]. now apply IH.
Qed.

Lemma slice_nonnegative {A} (off lim : Z) (l : list A) :
  (0 <= off)%Z -> (0 <= lim)%Z ->
  slice off (off + lim) l = take (Z.to_nat lim) (drop (Z.to_nat off) l).
Proof.
  intros Ho Hl. unfold slice, relative.
  destruct (off <? 0)%Z eqn:E1; [apply Z.ltb_lt in E1; lia|].
  destruct (off + lim <? 0)%Z eqn:E2; [apply Z.ltb_lt in E2; lia|].
  rewrite Z2Nat.inj_add by lia.
  destruct (decide (Z.to_nat off <= length l)) as [Hle|Hgt].
  - rewrite (Nat.min_l (Z.to_nat off)) by lia.
    destruct (decide (Z.to_nat off + Z.to_nat lim <= length l)).
    + rewrite Nat.min_l by lia. f_equal. lia.
    + rewrite Nat.min_r by lia.
      rewrite !take_ge; [reflexivity| |]; rewrite length_drop; lia.
  - rewrite !drop_ge by lia. now rewrite !take_nil.
Qed.

Lemma mapM_describe (this : SessionStore.t)
  (stat : jsstring -> option Stats) (files : list jsstring) :
  (forall f, In f files ->
             stat (Path.join (SessionStore.storagePath this) f) <> None) ->
  mapM (describe this stat) files = Some (omap (describe this stat) files).
Proof.
  intros H. apply mapM_Some.
  induction files as [|f files IH]; [constructor|].
  assert (exists y, describe this stat f = Some y) as [y Hy].
  { unfold describe.
    destruct (stat (Path.join (SessionStore.storagePath this) f)) eqn:E;
      [eauto|].
    exfalso. apply (H f); [now left|exact E]. }
  simpl. rewrite Hy. constructor; [exact Hy|].
  apply IH. intros g Hg. apply H. now right.
Qed.

(** X16.  When every session file's status can be read, and for a limit
    and an offset that are not negative: [total] counts the names that
    end in [.json]; the whole list is a stable sort of the described
    files, newest first, entries of one modification time in directory
    order; and the page returned is the [limit] entries that follow the
    first [offset] of that list. *)
Theorem listSessions_pages (this : SessionStore.t)
  (files : list jsstring) (stat : jsstring -> option Stats)
  (lim off : Z) :
  (forall f, In f files -> endsWith JSON_EXT f = true ->
             stat (Path.join (SessionStore.storagePath this) f) <> None) ->
  (0 <= lim)%Z -> (0 <= off)%Z ->
  let sessionFiles := List.filter (endsWith JSON_EXT) files in
  let described := omap (describe this stat) sessionFiles in
  let everything :=
    sessions (listSessions this (Some files) stat
                (Some (Z.of_nat (length files))) None) in
  let r := listSessions this (Some files) stat (Some lim) (Some off) in
  total r = length sessionFiles
  /\ length everything = total r
  /\ everything ≡ₚ described
  /\ newest_first everything
  /\ (forall t, List.filter (at_time t) everything
                = List.filter (at_time t) described)
  /\ sessions r = take (Z.to_nat lim) (drop (Z.to_nat off) everything)
  /\ newest_first (sessions r)
  /\ length (sessions r) <= Z.to_nat lim.
Proof.
  intros Hstat Hlim Hoff sessionFiles described everything r.
  assert (Hm : mapM (describe this stat) sessionFiles = Some described).
  { apply mapM_describe. intros f Hf.
    apply List.filter_In in Hf as [Hin He]. now apply Hstat. }
  assert (Hlen : length described = length sessionFiles).
  { symmetry. apply mapM_Some in Hm. eapply Forall2_length. exact Hm. }
  assert (Hall : everything = sort described).
  { unfold everything, listSessions. fold sessionFiles. rewrite Hm.
    simpl. rewrite slice_nonnegative by lia. simpl. rewrite drop_0.
    apply take_ge. rewrite Nat2Z.id.
    rewrite (Permutation_length (sort_Permutation described)), Hlen.
    unfold sessionFiles. apply List.filter_length_le. }
  assert (Hr : sessions r
               = take (Z.to_nat lim) (drop (Z.to_nat off) everything)).
  { unfold r, listSessions. fold sessionFiles. rewrite Hm. simpl.
    rewrite slice_nonnegative by lia. now rewrite Hall. }
  assert (Ht : total r = length sessionFiles).
  { unfold r, listSessions. fold sessionFiles. rewrite Hm. simpl.
    now rewrite (Permutation_length (sort_Permutation described)). }
  repeat split.
  - exact Ht.
  - rewrite Hall, Ht, <- Hlen.
    apply Permutation_length, sort_Permutation.
  - rewrite Hall. apply sort_Permutation.
  - rewrite Hall. apply sort_newest_first.
  - intros t. rewrite Hall. apply sort_at_time.
  - exact Hr.
  - rewrite Hr. apply newest_first_take, newest_first_drop.
    rewrite Hall. apply sort_newest_first.
  - rewrite Hr, length_take. lia.
Qed.

Lemma listSessions_pages_witness :
  let r :=
    listSessions Batches.store (Some Stored.files) Stored.stat
      (Some 2%Z) (Some 1%Z) in
  total r = 3 /\ map sessionId (sessions r) = [js "b"; js "c"].
Proof.
  assert (Hstat : forall f, In f Stored.files ->
            endsWith JSON_EXT f = true ->
            Stored.stat
              (Path.join (SessionStore.storagePath Batches.store) f)
            <> None).
  { intros f Hf _. simpl in Hf.
    destruct Hf as [<-|[<-|[<-|[<-|[]]]]]; vm_compute; discriminate. }
  pose proof (listSessions_pages Batches.store Stored.files Stored.stat
                2 1 Hstat ltac:(lia) ltac:(lia)) as H.
  cbv zeta in H. destruct H as (Ht & _ & _ & _ & _ & Hr & _).
  intros r. split; [exact Ht|]. unfold r. rewrite Hr. reflexivity.
Defined.

Lemma mapM_describe_None (this : SessionStore.t)
  (stat : jsstring -> option Stats) (files : list jsstring) (f : jsstring) :
  In f files ->
  stat (Path.join (SessionStore.storagePath this) f) = None ->
  mapM (describe this stat) files = None.
Proof.
  intros Hin Hf.
  destruct (mapM (describe this stat) files) as [k|] eqn:E; [|reflexivity].
  apply mapM_Some in E. exfalso.
  induction E as [|g y files k Hg _ IH]; [contradiction|].
  destruct Hin as [->|Hin]; [|now apply IH].
  unfold describe in Hg. now rewrite Hf in Hg.
Qed.

(** X17.  One session file whose status cannot be read empties the
    whole listing: no session is listed and the total is zero, whatever
    the other files are; so does a directory that cannot be read. *)
Theorem listSessions_unreadable_file_hides_all (this : SessionStore.t)
  (files : list jsstring) (stat : jsstring -> option Stats)
  (f : jsstring) (lim off : option Z) :
  In f files -> endsWith JSON_EXT f = true ->
  stat (Path.join (SessionStore.storagePath this) f) = None ->
  listSessions this (Some files) stat lim off
  = nothing_listed (default 50%Z lim) (default 0%Z off)
  /\ listSessions this None stat lim off
     = listSessions this (Some files) stat lim off.
Proof.
  intros Hin He Hf. unfold listSessions.
  rewrite (mapM_describe_None this stat _ f);
    [split; reflexivity| |exact Hf].
  apply List.filter_In. now split.
Qed.

Lemma listSessions_unreadable_file_hides_all_witness :
  listSessions Batches.store (Some (js "gone.json" :: Stored.files))
    Stored.stat None None
  = nothing_listed 50 0.
Proof.
  apply (listSessions_unreadable_file_hides_all Batches.store
           (js "gone.json" :: Stored.files) Stored.stat (js "gone.json")
           None None);
    [now left|reflexivity|reflexivity].
Defined.

Lemma is_safe_not_dot (c : N) : SessionStore.is_safe c = true -> c <> 46%N.
Proof. intros H ->. discriminate H. Qed.

Lemma replace_ext_safe (p : jsstring) :
  Forall (fun c => SessionStore.is_safe c = true) p ->
  replace JSON_EXT [] (p ++ JSON_EXT) = p.
Proof.
  induction 1 as [|c p Hc _ IH]; [reflexivity|].
  change ((c :: p) ++ JSON_EXT) with (c :: (p ++ JSON_EXT)).
  unfold replace; fold replace.
  assert (Hs : startsWith JSON_EXT (c :: p ++ JSON_EXT) = false).
  { change (startsWith JSON_EXT (c :: p ++ JSON_EXT))
      with ((46 =? c)%N && startsWith (js "json") (p ++ JSON_EXT)).
    apply is_safe_not_dot in Hc.
    destruct (46 =? c)%N eqn:E; [|reflexivity].
    apply N.eqb_eq in E. congruence. }
  rewrite Hs. now rewrite IH.
Qed.

Lemma endsWith_app (p e : jsstring) : endsWith e (p ++ e) = true.
Proof.
  unfold endsWith. rewrite length_app.
  replace (length p + length e - length e) with (length p) by lia.
  rewrite drop_app_length. apply JsFacts.eqb_refl.
Qed.

Lemma safeId_idempotent (sid : jsstring) :
  SessionStore.safeId (SessionStore.safeId sid) = SessionStore.safeId sid.
Proof.
  unfold SessionStore.safeId.
  induction sid as [|c sid IH]; [reflexivity|].
  simpl. destruct (SessionStore.is_safe c) eqn:E; [|exact IH].
  simpl. now rewrite E, IH.
Qed.

(** X18.  The file that [storeEvents] writes for a session is one that
    [listSessions] keeps, and the identifier listed for it is the
    sanitised identifier, not the one the session carries; the listed
    identifier leads [getSession] and [deleteSession] back to that
    file. *)
Theorem listed_identifier_of_stored_file (this : SessionStore.t)
  (sid : jsstring) (stat : jsstring -> option Stats) :
  let file := SessionStore.safeId sid ++ JSON_EXT in
  SessionStore.getSessionPath this sid
  = Path.join (SessionStore.storagePath this) file
  /\ endsWith JSON_EXT file = true
  /\ describe this stat file
     = match stat (SessionStore.getSessionPath this sid) with
       | Some st => Some {| sessionId := SessionStore.safeId sid;
                            updatedAt := st_mtime st;
                            size := st_size st |}
       | None => None
       end
  /\ SessionStore.getSessionPath this (replace JSON_EXT [] file)
     = SessionStore.getSessionPath this sid.
Proof.
  intros file.
  assert (Hr : replace JSON_EXT [] file = SessionStore.safeId sid)
    by apply replace_ext_safe, SessionStoreFacts.safeId_safe.
  repeat split.
  - apply endsWith_app.
  - unfold describe. fold file. now rewrite Hr.
  - rewrite Hr. unfold SessionStore.getSessionPath.
    now rewrite safeId_idempotent.
Qed.

(** *** Cleanup *)

Lemma cleanup_loop_prefix (this : SessionStore.t) (cutoff : Z)
  (stat : jsstring -> option Stats) (unlink : jsstring -> bool)
  (files : list jsstring) :
  cleanup_loop this cutoff stat unlink files
  `prefix_of` map (Path.join (SessionStore.storagePath this))
                (List.filter (expired this cutoff stat) files).
Proof.
  induction files as [|f files IH]; [reflexivity|].
  simpl. unfold expired at 1.
  destruct (endsWith JSON_EXT f); simpl; [|exact IH].
  destruct (stat (Path.join (SessionStore.storagePath this) f)) as [st|];
    [|apply prefix_nil].
  destruct (st_mtime st <? cutoff)%Z; [|exact IH].
  destruct (unlink (Path.join (SessionStore.storagePath this) f));
    [|apply prefix_nil].
  simpl. now apply prefix_cons.
Qed.

Lemma cleanup_loop_all (this : SessionStore.t) (cutoff : Z)
  (stat : jsstring -> option Stats) (unlink : jsstring -> bool)
  (files : list jsstring) :
  (forall f, In f files -> endsWith JSON_EXT f = true ->
             stat (Path.join (SessionStore.storagePath this) f) <> None) ->
  (forall f, In f files ->
             unlink (Path.join (SessionStore.storagePath this) f) = true) ->
  cleanup_loop this cutoff stat unlink files
  = map (Path.join (SessionStore.storagePath this))
        (List.filter (expired this cutoff stat) files).
Proof.
  induction files as [|f files IH]; intros Hs Hu; [reflexivity|].
  assert (IH' := IH (fun g Hg => Hs g (or_intror Hg))
                    (fun g Hg => Hu g (or_intror Hg))).
  simpl. unfold expired at 1.
  destruct (endsWith JSON_EXT f) eqn:He; simpl; [|exact IH'].
  destruct (stat (Path.join (SessionStore.storagePath this) f)) as [st|] eqn:E;
    [|exfalso; apply (Hs f); [now left|exact He|exact E]].
  destruct (st_mtime st <? cutoff)%Z; [|exact IH'].
  rewrite (Hu f) by now left. simpl. now rewrite IH'.
Qed.

(** X19.  What [cleanup] unlinks: only files of the directory listing
    whose name ends in [.json] and whose modification time is strictly
    before [now] less the retention, in the order of the listing, up to
    the first failure; a file modified at the cutoff or later is never
    unlinked; and when no [stat] and no [unlink] fails, every such file
    is unlinked. *)
Theorem cleanup_unlinks_the_expired (this : SessionStore.t) (now : Z)
  (files : list jsstring) (stat : jsstring -> option Stats)
  (unlink : jsstring -> bool) :
  let cutoff :=
    (now - SessionStore.retentionDays this * 86400000)%Z in
  let unlinked := cleanup this now (Some files) stat unlink in
  let due :=
    map (Path.join (SessionStore.storagePath this))
        (List.filter (expired this cutoff stat) files) in
  unlinked `prefix_of` due
  /\ (forall p st, stat p = Some st -> (cutoff <= st_mtime st)%Z ->
                   ~ In p unlinked)
  /\ ((forall f, In f files -> endsWith JSON_EXT f = true ->
          stat (Path.join (SessionStore.storagePath this) f) <> None) ->
      (forall f, In f files ->
          unlink (Path.join (SessionStore.storagePath this) f) = true) ->
      unlinked = due).
Proof.
  intros cutoff unlinked due.
  assert (Hc : (now - SessionStore.retentionDays this * 24 * 60 * 60 * 1000
                = cutoff)%Z) by (unfold cutoff; lia).
  assert (Hp : unlinked `prefix_of` due).
  { unfold unlinked, cleanup. rewrite Hc. apply cleanup_loop_prefix. }
  repeat split.
  - exact Hp.
  - intros p st Hst Hge Hin.
    destruct Hp as [k Hk].
    assert (Hd : In p due) by (rewrite Hk; apply in_or_app; now left).
    unfold due in Hd. apply in_map_iff in Hd as (f & <- & Hf).
    apply List.filter_In in Hf as [_ Hf]. unfold expired in Hf.
    rewrite Hst in Hf. apply andb_true_iff in Hf as [_ Hf].
    apply Z.ltb_lt in Hf. lia.
  - intros Hs Hu. unfold unlinked, cleanup. rewrite Hc.
    now apply cleanup_loop_all.
Qed.

Lemma cleanup_unlinks_the_expired_witness :
  cleanup Batches.store (Stored.later + 1) (Some Stored.files) Stored.stat
    (fun _ => true)
  = [js "data/sessions/b.json"; js "data/sessions/c.json"]
  /\ cleanup Batches.store Stored.later (Some Stored.files) Stored.stat
       (fun _ => true) = [].
Proof.
  assert (Hstat : forall f, In f Stored.files ->
            endsWith JSON_EXT f = true ->
            Stored.stat
              (Path.join (SessionStore.storagePath Batches.store) f)
            <> None).
  { intros f Hf _. simpl in Hf.
    destruct Hf as [<-|[<-|[<-|[<-|[]]]]]; vm_compute; discriminate. }
  split.
  - rewrite (proj2 (proj2 (cleanup_unlinks_the_expired Batches.store
                             (Stored.later + 1) Stored.files Stored.stat
                             (fun _ => true)))
               Hstat (fun _ _ => eq_refl)).
    reflexivity.
  - rewrite (proj2 (proj2 (cleanup_unlinks_the_expired Batches.store
                             Stored.later Stored.files Stored.stat
                             (fun _ => true)))
               Hstat (fun _ _ => eq_refl)).
    reflexivity.
Defined.

End SessionFilesFacts.

(* ===================================================================== *)
(** ** The tables: what storing, deleting and cleaning up keep *)
(* ===================================================================== *)

Module PostgresMaintenanceFacts.
Import Wire PostgresStore PostgresMaintenance.

(** *** The statements of storeEvents, read backwards *)

Lemma upsert_visitor_rows (now : Z) (fp : jsstring)
  (ip : option jsstring) (sw sh : option Z) (ua lang tz : option jsstring)
  (db db' : DB) (i : nat) :
  upsert_visitor now fp ip sw sh ua lang tz db = inr (i, db') ->
  sessions db' = sessions db /\ events db' = events db
  /\ next_session_id db' = next_session_id db.
Proof.
  unfold upsert_visitor, check_varchar, check_text, check_integer, fail.
  repeat match goal with
         | |- context [if ?c then _ else _] =>
             match type of c with
             | bool => destruct c eqn:?; try discriminate
             end
         end.
  destruct (List.find _ (visitors db)); intros [= _ <-]; auto.
Qed.

Lemma insert_session_rows (now : Z) (sid : jsstring) (vid : option nat)
  (fp ip : option jsstring) (meta : Meta) (db db' : DB) :
  insert_session now sid vid fp ip meta db = inr (tt, db') ->
  sessions db'
  = sessions db
    ++ [new_session_row (next_session_id db) now sid vid fp ip meta]
  /\ events db' = events db.
Proof.
  unfold insert_session, check_varchar, check_text, check_integer, fail.
  repeat match goal with
         | |- context [if ?c then _ else _] =>
             match type of c with
             | bool => destruct c eqn:?; try discriminate
             end
         end.
  intros [= <-]. auto.
Qed.

Lemma insert_events_rows (now : Z) (sid : jsstring)
  (evs : list PostedEvent) (db db' : DB) :
  insert_events now sid evs db = inr (tt, db') ->
  sessions db' = sessions db
  /\ exists rows, events db' = events db ++ rows
                  /\ Forall2 (stored_as now sid) evs rows.
Proof.
  revert db. induction evs as [|ev evs IH]; intros db; simpl.
  - intros [= <-]. split; [reflexivity|].
    exists []. rewrite app_nil_r. split; [reflexivity|constructor].
  - unfold bind.
    destruct (insert_event now sid ev db) as [e|[[] db1]] eqn:E;
      [discriminate|].
    intros H. apply IH in H as (Hs & rows & He & Hrows).
    unfold insert_event, check_varchar, check_text, fail in E.
    destruct (fits 64 (Some sid)); [|discriminate].
    destruct (clean (Some sid)); [|discriminate].
    destruct (type ev) as [ty|] eqn:Ety; [|discriminate].
    destruct (timestamp ev) as [ts|] eqn:Ets; [|discriminate].
    destruct (negb (in_integer ty)); [discriminate|].
    destruct (negb (in_bigint ts)); [discriminate|].
    destruct (negb (jsonb_accepts _)); [discriminate|].
    injection E as <-. simpl in Hs, He.
    split; [exact Hs|].
    eexists (_ :: rows). rewrite He, <- app_assoc. split; [reflexivity|].
    constructor; [|exact Hrows].
    unfold stored_as. simpl. auto.
Qed.

(** What a committed [storeEvents] has done to the two tables: at most
    one session row added, for an identifier that had none, the count of
    the rows of the identifier raised, and one event row appended for
    each event of the batch, in order. *)
Lemma storeEvents_rows (now : Z) (sid : jsstring)
  (evs : list PostedEvent) (meta : Meta) (ip : option jsstring)
  (db db' : DB) :
  storeEvents now sid evs meta ip db = inr db' ->
  exists added rows,
    (added = [] /\ session_rows sid db <> []
     \/ session_rows sid db = []
        /\ exists r, added = [r] /\ s_session_id r = sid
                     /\ s_event_count r = 0%Z)
    /\ sessions db'
       = sessions_after now sid (length evs) (sessions db ++ added)
    /\ events db' = events db ++ rows
    /\ Forall2 (stored_as now sid) evs rows.
Proof.
  unfold storeEvents, storeEvents_body.
  destruct (PostgresStoreFacts.generateFingerprint_fits meta ip) as [-> _].
  unfold bind at 1 2.
  destruct (upsert_visitor _ _ _ _ _ _ _ _ db) as [e|[i db1]] eqn:E1;
    [discriminate|].
  apply upsert_visitor_rows in E1 as (Hs1 & He1 & _).
  unfold ret at 1.
  destruct (clean (Some sid)) eqn:Hclean.
  2:{ unfold bind, select_session, check_text, fail. rewrite Hclean.
      discriminate. }
  unfold bind at 1. unfold select_session at 1, check_text at 1.
  rewrite Hclean. unfold bind at 1.
  assert (Hrows : List.filter (fun s => Js.eqb (s_session_id s) sid)
                    (sessions db1) = session_rows sid db).
  { unfold session_rows. now rewrite Hs1. }
  rewrite Hrows.
  destruct (session_rows sid db) as [|r0 rs] eqn:Er.
  - cbn [map List.map].
    destruct (insert_session _ _ _ _ _ _ db1) as [e|[[] db2]] eqn:E2;
      [discriminate|].
    apply insert_session_rows in E2 as (Hs2 & He2).
    unfold bind.
    destruct (insert_events now sid evs db2) as [e|[[] db3]] eqn:E3;
      [discriminate|].
    apply insert_events_rows in E3 as (Hs3 & rows & He3 & HF).
    unfold update_session, check_text. rewrite Hclean.
    intros [= <-]. simpl.
    exists [new_session_row (next_session_id db1) now sid (Some i)
              (Some (generateFingerprint meta ip)) ip meta], rows.
    split; [right; split; [reflexivity|]; eauto|].
    fold (sessions_after now sid (length evs) (sessions db3)).
    rewrite Hs3, Hs2, Hs1, He3, He2, He1. auto.
  - cbn [map List.map]. unfold ret at 1. unfold bind.
    destruct (insert_events now sid evs db1) as [e|[[] db3]] eqn:E3;
      [discriminate|].
    apply insert_events_rows in E3 as (Hs3 & rows & He3 & HF).
    unfold update_session, check_text. rewrite Hclean.
    intros [= <-]. simpl.
    exists [], rows. split; [left; split; [reflexivity|discriminate]|].
    fold (sessions_after now sid (length evs) (sessions db3)).
    rewrite app_nil_r, Hs3, Hs1, He3, He1. auto.
Qed.

(** *** Lists of rows *)

Lemma sessions_after_ids (now : Z) (sid : jsstring) (n : nat)
  (rows : list SessionRow) :
  map s_session_id (sessions_after now sid n rows) = map s_session_id rows.
Proof.
  unfold sessions_after. rewrite map_map. apply map_ext.
  intros s. now destruct (Js.eqb (s_session_id s) sid).
Qed.

Lemma session_rows_nil_absent (sid : jsstring) (db : DB) :
  session_rows sid db = [] -> ~ In sid (map s_session_id (sessions db)).
Proof.
  unfold session_rows. intros Hnil Hin.
  apply in_map_iff in Hin as (s & Hs & Hin).
  assert (In s (List.filter (fun s => Js.eqb (s_session_id s) sid)
                  (sessions db))).
  { apply List.filter_In. split; [exact Hin|]. now apply JsFacts.eqb_eq. }
  rewrite Hnil in H. contradiction.
Qed.

Lemma session_rows_cons_present (sid : jsstring) (db : DB) :
  session_rows sid db <> [] ->
  exists s, In s (sessions db) /\ s_session_id s = sid.
Proof.
  unfold session_rows.
  destruct (List.filter _ (sessions db)) as [|s l] eqn:E; [congruence|].
  intros _. exists s.
  assert (H : In s (List.filter (fun s => Js.eqb (s_session_id s) sid)
                      (sessions db))) by (rewrite E; now left).
  apply List.filter_In in H as [Hin Hs]. split; [exact Hin|].
  now apply JsFacts.eqb_eq.
Qed.

Lemma NoDup_snoc {A} (l : list A) (x : A) :
  NoDup l -> ~ In x l -> NoDup (l ++ [x]).
Proof.
  induction 1 as [|y l Hy Hl IH]; intros Hx; simpl.
  - constructor; [|constructor]. intros H. inversion H.
  - constructor.
    + intros H. apply list_elem_of_In, in_app_iff in H as [H|[->|[]]].
      * apply Hy. now apply list_elem_of_In.
      * apply Hx. now left.
    + apply IH. intros H. apply Hx. now right.
Qed.

Lemma filter_stored (now : Z) (sid other : jsstring)
  (evs : list PostedEvent) (rows : list EventRow) :
  Forall2 (stored_as now sid) evs rows ->
  List.filter (fun e => Js.eqb (e_session_id e) other) rows
  = if Js.eqb sid other then rows else [].
Proof.
  induction 1 as [|ev row evs rows Hrow _ IH]; simpl.
  - now destruct (Js.eqb sid other).
  - destruct Hrow as (Hrow & _). rewrite IH, Hrow.
    now destruct (Js.eqb sid other).
Qed.

Lemma stored_session (now : Z) (sid : jsstring)
  (evs : list PostedEvent) (rows : list EventRow) (e : EventRow) :
  Forall2 (stored_as now sid) evs rows -> In e rows -> e_session_id e = sid.
Proof.
  induction 1 as [|ev row evs rows Hrow _ IH]; [contradiction|].
  intros [<-|Hin]; [apply Hrow|now apply IH].
Qed.

Lemma NoDup_map_injective {A B} (f : A -> B) (l : list A) (a b : A) :
  NoDup (map f l) -> In a l -> In b l -> f a = f b -> a = b.
Proof.
  induction l as [|x l IH]; [contradiction|].
  simpl. intros Hnd. apply NoDup_cons in Hnd as [Hx Hnd].
  intros [->|Ha] [->|Hb] Hf; auto.
  - exfalso. apply Hx. rewrite Hf. apply list_elem_of_In.
    now apply in_map.
  - exfalso. apply Hx. rewrite <- Hf. apply list_elem_of_In.
    now apply in_map.
Qed.

Lemma NoDup_map_filter {A B} (f : A -> B) (p : A -> bool) (l : list A) :
  NoDup (map f l) -> NoDup (map f (List.filter p l)).
Proof.
  induction l as [|x l IH]; [trivial|].
  simpl. intros Hnd. apply NoDup_cons in Hnd as [Hx Hnd].
  destruct (p x); [|now apply IH].
  simpl. apply NoDup_cons. split; [|now apply IH].
  intros H. apply Hx. apply list_elem_of_In.
  apply list_elem_of_In, in_map_iff in H as (y & Hy & Hin).
  apply List.filter_In in Hin as [Hin _].
  apply in_map_iff. eauto.
Qed.

(** Removing the session rows and the event rows that a test on the
    session identifier picks keeps the tables consistent. *)
Lemma purge_consistent (P : jsstring -> bool) (db db' : DB) :
  sessions db'
  = List.filter (fun s => negb (P (s_session_id s))) (sessions db) ->
  events db'
  = List.filter (fun e => negb (P (e_session_id e))) (events db) ->
  consistent db -> consistent db'.
Proof.
  intros Hs He (Hnd & Hcount & Horphan).
  unfold consistent. rewrite Hs, He. repeat split.
  - now apply NoDup_map_filter.
  - intros s Hin. apply List.filter_In in Hin as [Hin Hp].
    rewrite (Hcount s Hin). f_equal. f_equal.
    unfold event_rows. rewrite He.
    clear -Hp. induction (events db) as [|e l IH]; [reflexivity|].
    simpl. destruct (Js.eqb (e_session_id e) (s_session_id s)) eqn:E.
    + apply JsFacts.eqb_eq in E. rewrite E, Hp. simpl.
      rewrite <- E at 1. rewrite JsFacts.eqb_refl. now rewrite IH.
    + destruct (negb (P (e_session_id e))); simpl; [rewrite E|]; exact IH.
  - intros e Hin. apply List.filter_In in Hin as [Hin Hp].
    destruct (Horphan e Hin) as (s & Hsin & Hsid).
    exists s. split; [|exact Hsid].
    apply List.filter_In. split; [exact Hsin|]. now rewrite Hsid.
Qed.

(** A call of [storeEvents] that commits keeps the tables
    consistent. *)
Lemma storeEvents_consistent (now : Z) (sid : jsstring)
  (evs : list PostedEvent) (meta : Meta) (ip : option jsstring)
  (db db' : DB) :
  consistent db ->
  storeEvents now sid evs meta ip db = inr db' ->
  consistent db'.
Proof.
  intros (Hnd & Hcount & Horphan) Hstore.
  apply storeEvents_rows in Hstore as (added & rows & Hadded & Hs & He & HF).
  assert (Hids : map s_session_id (sessions db')
                 = map s_session_id (sessions db ++ added))
    by (rewrite Hs; apply sessions_after_ids).
  assert (Hnd' : NoDup (map s_session_id (sessions db'))).
  { rewrite Hids, map_app.
    destruct Hadded as [[-> _]|[Hnil (r & -> & Hr & _)]].
    - now rewrite app_nil_r.
    - simpl. apply NoDup_snoc; [exact Hnd|].
      rewrite Hr. now apply session_rows_nil_absent. }
  assert (Hnone : session_rows sid db = [] ->
                  List.filter (fun e => Js.eqb (e_session_id e) sid)
                    (events db) = []).
  { intros Hnil.
    destruct (List.filter _ (events db)) as [|e l] eqn:E; [reflexivity|].
    assert (H : In e (List.filter (fun e => Js.eqb (e_session_id e) sid)
                        (events db))) by (rewrite E; now left).
    apply List.filter_In in H as [Hin Hsid]. apply JsFacts.eqb_eq in Hsid.
    destruct (Horphan e Hin) as (s & Hsin & Hss).
    exfalso. apply (session_rows_nil_absent sid db Hnil).
    apply in_map_iff. exists s. split; [congruence|exact Hsin]. }
  assert (Hcount' : forall s, In s (sessions db') ->
            s_event_count s
            = Z.of_nat (length (event_rows (s_session_id s) db'))).
  { intros s'. rewrite Hs. unfold sessions_after.
    intros Hin. apply in_map_iff in Hin as (s & <- & Hin).
    unfold event_rows. rewrite He, List.filter_app, length_app.
    assert (Hsid : s_session_id
                     (if Js.eqb (s_session_id s) sid
                      then bump_session (Z.of_nat (length evs)) now s
                      else s) = s_session_id s)
      by (now destruct (Js.eqb (s_session_id s) sid)).
    rewrite Hsid, (filter_stored now sid (s_session_id s) evs rows HF).
    apply in_app_iff in Hin.
    destruct (Js.eqb (s_session_id s) sid) eqn:E.
    - apply JsFacts.eqb_eq in E. rewrite E, JsFacts.eqb_refl.
      simpl s_event_count.
      rewrite <- (Forall2_length _ _ _ HF), Nat2Z.inj_add. f_equal.
      destruct Hin as [Hin|Hin].
      + rewrite (Hcount s Hin). unfold event_rows. now rewrite E.
      + destruct Hadded as [[-> _]|[Hnil (r & -> & _ & Hr)]];
          [contradiction|].
        destruct Hin as [<-|[]]. now rewrite Hr, (Hnone Hnil).
    - assert (E' : Js.eqb sid (s_session_id s) = false).
      { apply JsFacts.eqb_neq. apply JsFacts.eqb_neq in E. congruence. }
      rewrite E'. simpl length. rewrite Nat.add_0_r.
      destruct Hin as [Hin|Hin]; [now apply Hcount|].
      destruct Hadded as [[-> _]|[_ (r & -> & Hr & _)]]; [contradiction|].
      destruct Hin as [<-|[]]. rewrite Hr, JsFacts.eqb_refl in E.
      discriminate. }
  assert (Hpresent : exists s, In s (sessions db ++ added)
                               /\ s_session_id s = sid).
  { destruct Hadded as [[-> Hne]|[_ (r & -> & Hr & _)]].
    - rewrite app_nil_r. now apply session_rows_cons_present.
    - exists r. split; [apply in_or_app; right; now left|exact Hr]. }
  assert (Himage : forall s, In s (sessions db ++ added) ->
            exists s', In s' (sessions db')
                       /\ s_session_id s' = s_session_id s).
  { intros s Hin. rewrite Hs. unfold sessions_after.
    eexists. split; [apply in_map; exact Hin|].
    now destruct (Js.eqb (s_session_id s) sid). }
  repeat split; [exact Hnd'|exact Hcount'|].
  intros e. rewrite He. intros Hin.
  apply in_app_iff in Hin as [Hin|Hin].
  - destruct (Horphan e Hin) as (s & Hsin & Hsid).
    destruct (Himage s) as (s' & Hin' & Hs');
      [apply in_or_app; now left|].
    exists s'. split; [exact Hin'|congruence].
  - rewrite (stored_session now sid evs rows e HF Hin).
    destruct Hpresent as (s & Hsin & Hsid).
    destruct (Himage s Hsin) as (s' & Hin' & Hs').
    exists s'. split; [exact Hin'|congruence].
Qed.

(** In consistent tables a session that has an event row has one
    session row, whose count is the number of its event rows. *)
Lemma consistent_session_row (sid : jsstring) (db : DB) (e : EventRow) :
  consistent db -> In e (event_rows sid db) ->
  exists r, session_rows sid db = [r]
            /\ s_event_count r = Z.of_nat (length (event_rows sid db)).
Proof.
  intros (Hnd & Hcount & Horphan) He.
  apply List.filter_In in He as [Hin Hsid]. apply JsFacts.eqb_eq in Hsid.
  destruct (Horphan e Hin) as (s & Hsin & Hs).
  assert (Hin2 : In s (session_rows sid db)).
  { apply List.filter_In. split; [exact Hsin|].
    apply JsFacts.eqb_eq. congruence. }
  assert (Hnd2 : NoDup (map s_session_id (session_rows sid db)))
    by (apply NoDup_map_filter; exact Hnd).
  destruct (session_rows sid db) as [|r [|r2 l]] eqn:Er;
    [contradiction| |].
  - destruct Hin2 as [->|[]]. exists s. split; [reflexivity|].
    rewrite (Hcount s Hsin). do 3 f_equal. congruence.
  - exfalso.
    assert (H1 : In r (session_rows sid db)) by (rewrite Er; now left).
    assert (H2 : In r2 (session_rows sid db))
      by (rewrite Er; right; now left).
    apply List.filter_In in H1 as [_ H1], H2 as [_ H2].
    apply JsFacts.eqb_eq in H1, H2.
    simpl in Hnd2. apply NoDup_cons in Hnd2 as [Hr _].
    apply Hr. rewrite H1, <- H2. now left.
Qed.


Lemma empty_db_consistent : consistent empty_db.
Proof.
  repeat split; simpl; try constructor; intros ? [].
Qed.




(** *** Cleanup *)

Lemma expired_ids (cutoff : Z) (l : list SessionRow) (s : SessionRow) :
  NoDup (map s_session_id l) -> In s l ->
  any (map s_session_id
         (List.filter (fun s => (s_updated_at s <? cutoff)%Z) l))
      (s_session_id s)
  = (s_updated_at s <? cutoff)%Z.
Proof.
  intros Hnd Hin. unfold any.
  destruct (s_updated_at s <? cutoff)%Z eqn:E.
  - apply existsb_exists. exists (s_session_id s).
    split; [|apply JsFacts.eqb_refl].
    apply in_map, List.filter_In. now split.
  - apply not_true_is_false. intros H.
    apply existsb_exists in H as (id & Hid & Heq).
    apply JsFacts.eqb_eq in Heq. subst id.
    apply in_map_iff in Hid as (s' & Hs' & Hin').
    apply List.filter_In in Hin' as [Hin' E'].
    assert (s' = s) by (eapply NoDup_map_injective; eauto).
    subst s'. congruence.
Qed.

Lemma filter_all {A} (p : A -> bool) (l : list A) :
  (forall x, In x l -> p x = true) -> List.filter p l = l.
Proof.
  induction l as [|x l IH]; intros H; [reflexivity|].
  simpl. rewrite (H x) by now left.
  f_equal. apply IH. intros y Hy. apply H. now right.
Qed.

(** What [cleanup] leaves in the two tables: the rows whose session
    identifier is not one of the expired ones. *)
Lemma cleanup_rows (cutoff : Z) (db : DB) :
  let ids :=
    map s_session_id
        (List.filter (fun s => (s_updated_at s <? cutoff)%Z)
                     (sessions db)) in
  exists db',
    cleanup cutoff db = inr db'
    /\ sessions db'
       = List.filter (fun s => negb (any ids (s_session_id s)))
           (sessions db)
    /\ events db'
       = List.filter (fun e => negb (any ids (e_session_id e)))
           (events db)
    /\ visitors db' = visitors db.
Proof.
  intros ids. unfold cleanup, cleanup_body, bind, select_expired.
  fold ids. destruct ids as [|id ids'] eqn:E.
  - exists db. unfold ret.
    repeat split; symmetry; now apply filter_all.
  - eexists. split; [reflexivity|]. repeat split.
Qed.

(** X22.  [cleanup] always commits and keeps the tables consistent.  On
    consistent tables it leaves exactly the session rows last updated at
    the cutoff or later, with all their event rows, removes the event
    rows of every session it removes, and does not touch the
    visitors. *)
Theorem cleanup_removes_expired_sessions (cutoff : Z) (db : DB) :
  consistent db ->
  exists db',
    cleanup cutoff db = inr db'
    /\ consistent db'
    /\ sessions db'
       = List.filter (fun s => negb (s_updated_at s <? cutoff)%Z)
           (sessions db)
    /\ (forall sid, session_rows sid db' <> [] ->
                    event_rows sid db' = event_rows sid db)
    /\ (forall sid, session_rows sid db' = [] -> event_rows sid db' = [])
    /\ visitors db' = visitors db.
Proof.
  intros Hc.
  destruct (cleanup_rows cutoff db) as (db' & Hrun & Hs & He & Hv).
  set (ids := map s_session_id
                (List.filter (fun s => (s_updated_at s <? cutoff)%Z)
                   (sessions db))) in *.
  assert (Hc' : consistent db')
    by (apply (purge_consistent (any ids) db); assumption).
  exists db'. split; [exact Hrun|]. split; [exact Hc'|].
  split; [|split; [|split; [|exact Hv]]].
  - rewrite Hs. apply List.filter_ext_in. intros s Hin.
    unfold ids. now rewrite (expired_ids cutoff _ s (proj1 Hc) Hin).
  - intros sid Hne.
    apply session_rows_cons_present in Hne as (s & Hin & Hsid).
    rewrite Hs in Hin. apply List.filter_In in Hin as [_ Hkeep].
    rewrite Hsid in Hkeep.
    unfold event_rows. rewrite He.
    clear -Hkeep. induction (events db) as [|e l IH]; [reflexivity|].
    simpl. destruct (Js.eqb (e_session_id e) sid) eqn:E.
    + apply JsFacts.eqb_eq in E. rewrite E, Hkeep. simpl.
      rewrite <- E at 1. rewrite JsFacts.eqb_refl. now rewrite IH.
    + destruct (negb (any ids (e_session_id e))); simpl;
        [rewrite E|]; exact IH.
  - intros sid Hnil.
    destruct (event_rows sid db') as [|e l] eqn:E; [reflexivity|].
    destruct (consistent_session_row sid db' e Hc') as (r & Hr & _);
      [rewrite E; now left|].
    congruence.
Qed.

Lemma cleanup_removes_expired_sessions_witness :
  let db :=
    snd (postEvents 1700000000100 (Batches.body Batches.first_batch)
           empty_db) in
  let cutoff := 1700000000101%Z in
  exists db',
    cleanup cutoff db = inr db'
    /\ consistent db'
    /\ sessions db'
       = List.filter (fun s => negb (s_updated_at s <? cutoff)%Z)
           (sessions db)
    /\ (forall sid, session_rows sid db' <> [] ->
                    event_rows sid db' = event_rows sid db)
    /\ (forall sid, session_rows sid db' = [] -> event_rows sid db' = [])
    /\ visitors db' = visitors db.
Proof.
  intros db cutoff.
  apply (cleanup_removes_expired_sessions cutoff db).
  apply (storeEvents_consistent 1700000000100 Batches.session
           Batches.first_batch Batches.meta Batches.address empty_db db
           empty_db_consistent).
  vm_compute. reflexivity.
Defined.

(** *** A batch that the schema refuses *)

Lemma insert_events_incomplete (now : Z) (sid : jsstring)
  (evs : list PostedEvent) (db : DB) :
  forallb complete evs = false ->
  exists e, insert_events now sid evs db = inl e.
Proof.
  revert db. induction evs as [|ev evs IH]; intros db; [discriminate|].
  simpl. intros H. unfold bind.
  destruct (insert_event now sid ev db) as [e|[[] db1]] eqn:E; [eauto|].
  apply andb_false_iff in H as [H|H]; [|now apply IH].
  exfalso. unfold insert_event, check_varchar, check_text, fail in E.
  unfold complete in H.
  destruct (fits 64 (Some sid)); [|discriminate].
  destruct (clean (Some sid)); [|discriminate].
  destruct (type ev); [|discriminate].
  destruct (timestamp ev); discriminate.
Qed.

Lemma storeEvents_incomplete (now : Z) (sid : jsstring)
  (evs : list PostedEvent) (meta : Meta) (ip : option jsstring) (db : DB) :
  forallb complete evs = false ->
  exists e, storeEvents now sid evs meta ip db = inl e.
Proof.
  intros H. unfold storeEvents, storeEvents_body.
  destruct (PostgresStoreFacts.generateFingerprint_fits meta ip) as [-> _].
  unfold bind at 1 2.
  destruct (upsert_visitor _ _ _ _ _ _ _ _ db) as [e|[i db1]]; [eauto|].
  unfold ret at 1.
  destruct (clean (Some sid)) eqn:Hclean.
  2:{ unfold bind, select_session, check_text, fail. rewrite Hclean.
      eauto. }
  unfold bind at 1. unfold select_session at 1, check_text at 1.
  rewrite Hclean. unfold bind at 1.
  destruct (List.filter _ (sessions db1)) as [|r rs]; cbn [map List.map].
  - destruct (insert_session _ _ _ _ _ _ db1) as [e|[[] db2]]; [eauto|].
    unfold bind.
    destruct (insert_events_incomplete now sid evs db2 H) as [e ->].
    eauto.
  - unfold ret at 1. unfold bind.
    destruct (insert_events_incomplete now sid evs db1 H) as [e ->].
    eauto.
Qed.

(** X23.  A batch that holds an event without a type or without a
    timestamp is refused as a whole: the answer is 500 and the tables
    are as they were, with no row for the events that came before the
    incomplete one, none for the session and no visit counted. *)
Theorem incomplete_event_rolls_back (now : Z) (sid : jsstring)
  (evs : list PostedEvent) (m : option Meta) (ip : option jsstring)
  (db : DB) :
  truthy sid = true ->
  forallb complete evs = false ->
  postEvents now
    {| body_sessionId := Some sid; body_events := Some evs;
       body_meta := m; body_clientIP := ip |} db
  = (Status500, db).
Proof.
  intros Hsid H. unfold postEvents. simpl. rewrite Hsid.
  destruct (storeEvents_incomplete now sid evs (default empty_meta m) ip
              db H) as [e ->].
  reflexivity.
Qed.

Lemma incomplete_event_rolls_back_witness :
  postEvents 1700000000100
    {| body_sessionId := Some Batches.session;
       body_events :=
         Some (Batches.first_batch
               ++ [{| type := Some 3%Z; timestamp := None;
                      data := None |}]);
       body_meta := Some Batches.meta;
       body_clientIP := Batches.address |} empty_db
  = (Status500, empty_db).
Proof.
  apply incomplete_event_rolls_back; reflexivity.
Defined.

(** *** Visitors *)

Lemma upsert_visitor_visitors (now : Z) (fp : jsstring)
  (ip : option jsstring) (sw sh : option Z) (ua lang tz : option jsstring)
  (db db' : DB) (i : nat) :
  upsert_visitor now fp ip sw sh ua lang tz db = inr (i, db') ->
  visitors db'
  = match visitor_rows fp db with
    | [] =>
        visitors db
        ++ [{| v_id := next_visitor_id db; v_fingerprint := fp;
               v_ip_address := ip;
               v_screen_width := sw; v_screen_height := sh;
               v_user_agent := ua; v_language := lang; v_timezone := tz;
               v_first_seen := now; v_last_seen := now;
               v_visit_count := 1 |}]
    | _ =>
        map (fun v => if Js.eqb (v_fingerprint v) fp
                      then bump_visitor ip now v else v)
            (visitors db)
    end.
Proof.
  unfold upsert_visitor, check_varchar, check_text, check_integer, fail.
  repeat match goal with
         | |- context [if ?c then _ else _] =>
             match type of c with
             | bool => destruct c eqn:?; try discriminate
             end
         end.
  unfold visitor_rows.
  destruct (List.find _ (visitors db)) as [v|] eqn:E; intros [= _ <-]; simpl.
  - apply List.find_some in E as [Hin Hv].
    destruct (List.filter _ (visitors db)) as [|w l] eqn:F; [|reflexivity].
    assert (H : In v (List.filter
                        (fun v => Js.eqb (v_fingerprint v) fp)
                        (visitors db)))
      by (apply List.filter_In; now split).
    rewrite F in H. contradiction.
  - destruct (List.filter _ (visitors db)) as [|w l] eqn:F; [reflexivity|].
    assert (H : In w (List.filter
                        (fun v => Js.eqb (v_fingerprint v) fp)
                        (visitors db)))
      by (rewrite F; now left).
    apply List.filter_In in H as [Hin Hw].
    now rewrite (List.find_none _ _ E w Hin) in Hw.
Qed.

Lemma insert_events_visitors (now : Z) (sid : jsstring)
  (evs : list PostedEvent) (db db' : DB) :
  insert_events now sid evs db = inr (tt, db') ->
  visitors db' = visitors db.
Proof.
  revert db. induction evs as [|ev evs IH]; intros db; simpl.
  - now intros [= <-].
  - unfold bind.
    destruct (insert_event now sid ev db) as [e|[[] db1]] eqn:E;
      [discriminate|].
    intros H. apply IH in H. rewrite H.
    unfold insert_event, check_varchar, check_text, fail in E.
    destruct (fits 64 (Some sid)); [|discriminate].
    destruct (clean (Some sid)); [|discriminate].
    destruct (type ev) as [ty|]; [|discriminate].
    destruct (timestamp ev) as [ts|]; [|discriminate].
    destruct (negb (in_integer ty)); [discriminate|].
    destruct (negb (in_bigint ts)); [discriminate|].
    destruct (negb (jsonb_accepts _)); [discriminate|].
    now injection E as <-.
Qed.

Lemma insert_session_visitors (now : Z) (sid : jsstring) (vid : option nat)
  (fp ip : option jsstring) (meta : Meta) (db db' : DB) :
  insert_session now sid vid fp ip meta db = inr (tt, db') ->
  visitors db' = visitors db.
Proof.
  unfold insert_session, check_varchar, check_text, check_integer, fail.
  repeat match goal with
         | |- context [if ?c then _ else _] =>
             match type of c with
             | bool => destruct c eqn:?; try discriminate
             end
         end.
  now intros [= <-].
Qed.

(** The visitors after a committed [storeEvents] are those that its
    first statement leaves. *)
Lemma storeEvents_visitors (now : Z) (sid : jsstring)
  (evs : list PostedEvent) (meta : Meta) (ip : option jsstring)
  (db db' : DB) :
  storeEvents now sid evs meta ip db = inr db' ->
  exists i db1,
    upsert_visitor now (generateFingerprint meta ip) ip
      (num_or_null (size_width (screen meta)))
      (num_or_null (size_height (screen meta)))
      (str_or_null (userAgent meta))
      (str_or_null (language meta))
      (str_or_null (timezone meta)) db = inr (i, db1)
    /\ visitors db' = visitors db1.
Proof.
  unfold storeEvents, storeEvents_body.
  destruct (PostgresStoreFacts.generateFingerprint_fits meta ip) as [-> _].
  unfold bind at 1 2.
  destruct (upsert_visitor _ _ _ _ _ _ _ _ db) as [e|[i db1]] eqn:E1;
    [discriminate|].
  unfold ret at 1.
  destruct (clean (Some sid)) eqn:Hclean.
  2:{ unfold bind, select_session, check_text, fail. rewrite Hclean.
      discriminate. }
  unfold bind at 1. unfold select_session at 1, check_text at 1.
  rewrite Hclean. unfold bind at 1.
  intros H. exists i, db1. split; [reflexivity|].
  destruct (List.filter _ (sessions db1)) as [|r rs];
    cbn [map List.map] in H.
  - destruct (insert_session _ _ _ _ _ _ db1) as [e|[[] db2]] eqn:E2;
      [discriminate|].
    apply insert_session_visitors in E2.
    unfold bind in H.
    destruct (insert_events now sid evs db2) as [e|[[] db3]] eqn:E3;
      [discriminate|].
    apply insert_events_visitors in E3.
    unfold update_session, check_text in H. rewrite Hclean in H.
    injection H as <-. simpl. congruence.
  - unfold ret at 1 in H. unfold bind in H.
    destruct (insert_events now sid evs db1) as [e|[[] db3]] eqn:E3;
      [discriminate|].
    apply insert_events_visitors in E3.
    unfold update_session, check_text in H. rewrite Hclean in H.
    injection H as <-. simpl. congruence.
Qed.

Lemma filter_bumped (now : Z) (ip : option jsstring) (fp other : jsstring)
  (l : list VisitorRow) :
  List.filter (fun v => Js.eqb (v_fingerprint v) other)
    (map (fun v => if Js.eqb (v_fingerprint v) fp
                   then bump_visitor ip now v else v) l)
  = map (fun v => if Js.eqb (v_fingerprint v) fp
                  then bump_visitor ip now v else v)
        (List.filter (fun v => Js.eqb (v_fingerprint v) other) l).
Proof.
  induction l as [|v l IH]; [reflexivity|].
  simpl. rewrite IH.
  assert (H : v_fingerprint
                (if Js.eqb (v_fingerprint v) fp
                 then bump_visitor ip now v else v) = v_fingerprint v)
    by (now destruct (Js.eqb (v_fingerprint v) fp)).
  rewrite H. now destruct (Js.eqb (v_fingerprint v) other).
Qed.

(** X24.  Every committed call of [storeEvents], that is every batch and
    not every session, counts as a visit: the visitor rows of the
    fingerprint of the batch have their count raised by one, or one row
    is added for it with a count of one; the rows of the other
    fingerprints are as they were. *)
Theorem storeEvents_counts_a_visit_per_batch (now : Z) (sid : jsstring)
  (evs : list PostedEvent) (meta : Meta) (ip : option jsstring)
  (db db' : DB) :
  storeEvents now sid evs meta ip db = inr db' ->
  let fp := generateFingerprint meta ip in
  map v_visit_count (visitor_rows fp db')
  = match visitor_rows fp db with
    | [] => [1%Z]
    | rows => map (fun v => (v_visit_count v + 1)%Z) rows
    end
  /\ forall other, other <> fp ->
       visitor_rows other db' = visitor_rows other db.
Proof.
  intros Hstore fp.
  apply storeEvents_visitors in Hstore as (i & db1 & Hup & Hv).
  apply upsert_visitor_visitors in Hup. fold fp in Hup.
  clearbody fp.
  unfold visitor_rows at 1 3. rewrite Hv, Hup.
  destruct (visitor_rows fp db) as [|v0 rows] eqn:E.
  - split.
    + rewrite List.filter_app. unfold visitor_rows in E. rewrite E.
      simpl. now rewrite JsFacts.eqb_refl.
    + intros other Hne. rewrite List.filter_app. simpl.
      assert (Hf : Js.eqb fp other = false)
        by (apply JsFacts.eqb_neq; congruence).
      rewrite Hf. apply app_nil_r.
  - split.
    + rewrite filter_bumped. fold (visitor_rows fp db). rewrite E.
      rewrite map_map. apply List.map_ext_in. intros v Hin.
      assert (Hfp : Js.eqb (v_fingerprint v) fp = true).
      { assert (H : In v (visitor_rows fp db)) by (rewrite E; exact Hin).
        now apply List.filter_In in H as [_ H]. }
      now rewrite Hfp.
    + intros other Hne. rewrite filter_bumped.
      fold (visitor_rows other db).
      rewrite <- (map_id (visitor_rows other db)) at 2.
      apply List.map_ext_in. intros v Hin.
      apply List.filter_In in Hin as [_ Hin]. apply JsFacts.eqb_eq in Hin.
      assert (Hfp : Js.eqb (v_fingerprint v) fp = false)
        by (apply JsFacts.eqb_neq; congruence).
      now rewrite Hfp.
Qed.

Lemma storeEvents_counts_a_visit_per_batch_witness :
  let db1 :=
    snd (postEvents 1700000000100 (Batches.body Batches.first_batch)
           empty_db) in
  exists db2,
    storeEvents 1700000001600 Batches.session Batches.second_batch
      Batches.meta Batches.address db1 = inr db2
    /\ map v_visit_count
         (visitor_rows (generateFingerprint Batches.meta Batches.address)
            db2) = [2%Z].
Proof.
  intros db1.
  destruct (storeEvents 1700000001600 Batches.session Batches.second_batch
              Batches.meta Batches.address db1) as [e|db2] eqn:E;
    [vm_compute in E; discriminate|].
  exists db2. split; [reflexivity|].
  pose proof (storeEvents_counts_a_visit_per_batch _ _ _ _ _ _ _ E)
    as [Hv _].
  rewrite Hv. reflexivity.
Defined.

End PostgresMaintenanceFacts.

(* ===================================================================== *)
(** ** Static files stay under the project root *)
(* ===================================================================== *)

Module StaticFacts.
Import Static.

Abbreviation DOTDOT := [Path.DOT; Path.DOT] (only parsing).

(** Induction over a list two elements at a time. *)
Lemma pair_induction {A} (P : list A -> Prop) :
  P [] -> (forall a, P [a]) ->
  (forall a b s, P s -> P (b :: s) -> P (a :: b :: s)) ->
  forall s, P s.
Proof.
  intros H0 H1 H2 s.
  assert (H : P s /\ forall a, P (a :: s)).
  { induction s as [|b s [IH1 IH2]]; [split; [exact H0|exact H1]|].
    split; [apply IH2|]. intros a. apply H2; [exact IH1|apply IH2]. }
  apply H.
Qed.

Lemma includes_cons (p : jsstring) (a : N) (s : jsstring) :
  includes p (a :: s) = startsWith p (a :: s) || includes p s.
Proof. reflexivity. Qed.

Lemma startsWith_dotdot (a b : N) (s : jsstring) :
  startsWith DOTDOT (a :: b :: s)
  = (a =? Path.DOT)%N && (b =? Path.DOT)%N.
Proof.
  change (startsWith DOTDOT (a :: b :: s))
    with ((Path.DOT =? a)%N && ((Path.DOT =? b)%N && true)).
  rewrite andb_true_r.
  now rewrite (N.eqb_sym Path.DOT a), (N.eqb_sym Path.DOT b).
Qed.

Lemma remove_dotdot_head (b : N) (s : jsstring) :
  b <> Path.DOT -> exists t, remove_dotdot (b :: s) = b :: t.
Proof.
  intros Hb. apply N.eqb_neq in Hb. destruct s as [|c s]; [now exists []|].
  simpl. change (b =? 46)%N with (b =? Path.DOT)%N. rewrite Hb. simpl. eauto.
Qed.

Lemma includes_dotdot_cons (a : N) (t : jsstring) :
  includes DOTDOT t = false ->
  (a = Path.DOT -> forall b t', t = b :: t' -> b <> Path.DOT) ->
  includes DOTDOT (a :: t) = false.
Proof.
  intros Ht Hhead. rewrite includes_cons, Ht, orb_false_r.
  destruct t as [|b t'].
  { change (startsWith DOTDOT [a]) with ((Path.DOT =? a)%N && false).
    apply andb_false_r. }
  rewrite startsWith_dotdot.
  destruct (a =? Path.DOT)%N eqn:Ea; [|reflexivity].
  apply N.eqb_eq in Ea. simpl. apply N.eqb_neq. now apply (Hhead Ea b t').
Qed.

(** No pair of dots is left by the first replacement. *)
Lemma remove_dotdot_clean (s : jsstring) :
  includes DOTDOT (remove_dotdot s) = false.
Proof.
  induction s as [| a | a b s IH1 IH2] using pair_induction.
  - reflexivity.
  - change (includes DOTDOT (remove_dotdot [a]))
      with ((Path.DOT =? a)%N && false || false).
    now rewrite andb_false_r.
  - change (remove_dotdot (a :: b :: s))
      with (if (a =? Path.DOT)%N && (b =? Path.DOT)%N
            then remove_dotdot s else a :: remove_dotdot (b :: s)).
    destruct ((a =? Path.DOT)%N && (b =? Path.DOT)%N) eqn:E; [exact IH1|].
    apply includes_dotdot_cons; [exact IH2|].
    intros -> c t' Ht. rewrite N.eqb_refl in E. simpl in E.
    apply N.eqb_neq in E.
    destruct (remove_dotdot_head b s E) as [t Hb].
    rewrite Hb in Ht. now injection Ht as <- _.
Qed.

Lemma collapse_slashes_head (b : N) (s : jsstring) :
  exists t, collapse_slashes (b :: s) = b :: t.
Proof.
  revert b. induction s as [|c s IH]; intros b; [now exists []|].
  change (collapse_slashes (b :: c :: s))
    with (if (b =? Path.SLASH)%N && (c =? Path.SLASH)%N
          then collapse_slashes (c :: s)
          else b :: collapse_slashes (c :: s)).
  destruct ((b =? Path.SLASH)%N && (c =? Path.SLASH)%N) eqn:E; [|eauto].
  apply andb_true_iff in E as [Eb Ec].
  apply N.eqb_eq in Eb, Ec. subst. apply IH.
Qed.

(** ... and none is made by the second. *)
Lemma collapse_slashes_clean (s : jsstring) :
  includes DOTDOT s = false -> includes DOTDOT (collapse_slashes s) = false.
Proof.
  induction s as [| a | a b s IH1 IH2] using pair_induction.
  - trivial.
  - trivial.
  - intros H. rewrite includes_cons in H.
    apply orb_false_iff in H as [Hab H].
    rewrite startsWith_dotdot in Hab.
    change (collapse_slashes (a :: b :: s))
      with (if (a =? Path.SLASH)%N && (b =? Path.SLASH)%N
            then collapse_slashes (b :: s)
            else a :: collapse_slashes (b :: s)).
    destruct ((a =? Path.SLASH)%N && (b =? Path.SLASH)%N);
      [now apply IH2|].
    apply includes_dotdot_cons; [now apply IH2|].
    intros -> c t' Ht. rewrite N.eqb_refl in Hab. simpl in Hab.
    destruct (collapse_slashes_head b s) as [t Hb].
    rewrite Hb in Ht. injection Ht as <- _. now apply N.eqb_neq.
Qed.

Lemma safePath_clean (filePath : jsstring) :
  includes DOTDOT (safePath filePath) = false.
Proof. apply collapse_slashes_clean, remove_dotdot_clean. Qed.

Lemma includes_app_r (p t s : jsstring) :
  includes p s = true -> includes p (t ++ s) = true.
Proof.
  intros H. induction t as [|c t IH]; [exact H|].
  change ((c :: t) ++ s) with (c :: (t ++ s)).
  rewrite includes_cons, IH. apply orb_true_r.
Qed.

Lemma includes_prefix (p s : jsstring) : includes p (p ++ s) = true.
Proof.
  assert (H : startsWith p (p ++ s) = true).
  { induction p as [|c p IH]; [reflexivity|].
    simpl. now rewrite N.eqb_refl, IH. }
  destruct (p ++ s); simpl in *; rewrite H; reflexivity.
Qed.

(** A segment [..] of a path is a pair of dots of the path. *)
Lemma split_go_dotdot (cur s : jsstring) :
  In DOTDOT (Path.split_go cur s) ->
  includes DOTDOT (rev cur ++ s) = true.
Proof.
  revert cur. induction s as [|c s IH]; intros cur; simpl.
  - intros [<-|[]]. apply includes_prefix.
  - destruct (c =? Path.SLASH)%N.
    + intros [<-|Hin]; [apply includes_prefix|].
      pose proof (IH [] Hin) as H. simpl in H.
      apply (includes_app_r _ (rev cur ++ [c])) in H.
      now rewrite <- app_assoc in H.
    + intros Hin. apply IH in Hin. simpl in Hin.
      now rewrite <- app_assoc in Hin.
Qed.

Lemma split_go_join (cur s t : jsstring) :
  Path.split_go cur (s ++ Path.SLASH :: t)
  = Path.split_go cur s ++ Path.split_go [] t.
Proof.
  revert cur. induction s as [|c s IH]; intros cur; [reflexivity|].
  simpl. destruct (c =? Path.SLASH)%N; [now rewrite IH|apply IH].
Qed.

(** Segments none of which is [..] are pushed or skipped, never
    popped. *)
Lemma foldl_normalize_step (a : bool) (segs res : list jsstring) :
  ~ In DOTDOT segs ->
  foldl (Path.normalize_step a) res segs
  = rev (List.filter (fun seg => negb (falsy seg || Path.is_dot seg)) segs)
    ++ res.
Proof.
  revert res. induction segs as [|seg segs IH]; intros res Hno;
    [reflexivity|].
  simpl. rewrite IH by (intros H; apply Hno; now right).
  unfold Path.normalize_step at 1.
  destruct (falsy seg || Path.is_dot seg); [reflexivity|]. simpl.
  assert (Hdd : Path.is_dotdot seg = false).
  { apply JsFacts.eqb_neq. intros ->. apply Hno. now left. }
  rewrite Hdd. now rewrite <- app_assoc.
Qed.

Lemma segments_under (root safe : jsstring) :
  root <> [] ->
  includes DOTDOT safe = false ->
  Path.segments (root ++ Path.SLASH :: safe)
  = Path.segments root
    ++ List.filter (fun seg => negb (falsy seg || Path.is_dot seg))
         (Path.split safe).
Proof.
  intros Hroot Hclean. unfold Path.segments.
  assert (Habs : Path.isAbsolute (root ++ Path.SLASH :: safe)
                 = Path.isAbsolute root)
    by (destruct root; [congruence|reflexivity]).
  rewrite Habs. unfold Path.normalizeString, Path.split.
  rewrite split_go_join, foldl_app.
  rewrite foldl_normalize_step.
  - now rewrite rev_app_distr, rev_involutive.
  - intros H. apply split_go_dotdot in H. simpl in H. congruence.
Qed.

(** X25.  The file that [serveStatic] reads is under the project root,
    whatever the request path: its sanitised path holds no pair of dots,
    so none of the segments kept of it is [..], and the path read is the
    segments of the root followed by those segments, with at most a
    trailing separator. *)
Theorem serveStatic_stays_under_root (PROJECT_ROOT filePath : jsstring) :
  Path.isAbsolute PROJECT_ROOT = true ->
  includes DOTDOT (safePath filePath) = false
  /\ ~ In DOTDOT (kept filePath)
  /\ exists tail,
       (tail = [] \/ tail = [Path.SLASH])
       /\ fullPath PROJECT_ROOT filePath
          = Path.render true (Path.segments PROJECT_ROOT ++ kept filePath)
            ++ tail.
Proof.
  intros Habs.
  assert (Hroot : PROJECT_ROOT <> []) by (intros ->; discriminate).
  pose proof (safePath_clean filePath) as Hclean.
  split; [exact Hclean|]. split.
  { unfold kept. intros H. apply List.filter_In in H as [H _].
    apply split_go_dotdot in H. simpl in H. congruence. }
  assert (Hnorm : forall p segs,
            Path.isAbsolute p = true -> Path.segments p = segs ->
            exists tail, (tail = [] \/ tail = [Path.SLASH])
                         /\ Path.normalize p = Path.render true segs ++ tail).
  { intros p segs Hp Hsegs. unfold Path.normalize.
    destruct p as [|c p]; [discriminate|].
    rewrite Hsegs, Hp. destruct segs as [|seg segs].
    - exists []. split; [now left|reflexivity].
    - destruct (Path.trailingSeparator (c :: p)).
      + exists [Path.SLASH]. split; [now right|reflexivity].
      + exists []. split; [now left|reflexivity]. }
  unfold fullPath, Path.join.
  destruct PROJECT_ROOT as [|r root]; [congruence|].
  destruct (safePath filePath) as [|c safe] eqn:Es.
  - apply Hnorm; [exact Habs|].
    unfold kept. rewrite Es. simpl. now rewrite app_nil_r.
  - apply Hnorm; [exact Habs|].
    unfold kept. rewrite Es.
    change ((r :: root) ++ [Path.SLASH] ++ c :: safe)
      with ((r :: root) ++ Path.SLASH :: c :: safe).
    now apply segments_under.
Qed.

Lemma serveStatic_stays_under_root_witness :
  fullPath (js "/srv/webvisor") (js "....//....//etc/passwd")
  = js "/srv/webvisor/etc/passwd"
  /\ ~ In DOTDOT (kept (js "....//....//etc/passwd")).
Proof.
  split; [reflexivity|].
  apply (serveStatic_stays_under_root (js "/srv/webvisor")
           (js "....//....//etc/passwd") eq_refl).
Defined.

End StaticFacts.
